(** * render.py: evaluation renders, test-time pose refinement, FPS probe and
      mesh-export dispatch

    A shallow embedding of [src/render.py].  Floating-point values are IEEE
    values ([spec_float] of the Standard Library): comparisons are exact on
    them, so the best-candidate tracker and the zero-threshold mask are
    modelled bit for bit, NaN included, and the durations of the FPS probe
    are subtracted, summed and divided in binary64.  The renderer, the masked loss,
    automatic differentiation and the Adam update rule live in other modules
    of the program (or in torch); they are the fields of the class
    [Backend].  Effects (files written, calls made to the collaborators) are
    recorded in an event log that every function threads through. *)

From Stdlib Require Import ZArith List Bool Lia String Ascii Arith.
From Stdlib Require Import SpecFloat DecimalString DecimalNat DecimalPos DecimalZ.
From Stdlib Require Import Sorting.Permutation Sorting.Sorted.
Import ListNotations.

Local Open Scope list_scope.

(* ------------------------------------------------------------------ *)
(** ** IEEE values and their comparisons *)

Module Float.

(** A value is kept in its binary64 form.  Every float32 a tensor holds is
    also a binary64 value, and a comparison between the two kinds compares
    the numbers, so one format serves for both. *)
Definition float := spec_float.

(** binary64, the format of a Python [float]. *)
Definition prec : Z := 53.
Definition emax : Z := 1024.

Definition of_Z (z : Z) : float := binary_normalize prec emax z 0 false.
Definition add : float -> float -> float := SFadd prec emax.
Definition sub : float -> float -> float := SFsub prec emax.
Definition mul : float -> float -> float := SFmul prec emax.
Definition div : float -> float -> float := SFdiv prec emax.
Definition abs : float -> float := SFabs.

Definition zero : float := S754_zero false.
Definition neg_zero : float := S754_zero true.
Definition one : float := of_Z 1.
Definition nan : float := S754_nan.

(** [x < y], [x > y] and [x <= y] as Python and torch evaluate them:
    false as soon as one side is NaN. *)
Definition ltb (x y : float) : bool := SFltb x y.
Definition gtb (x y : float) : bool := SFltb y x.
Definition leb (x y : float) : bool := SFleb x y.

Definition is_nan (x : float) : bool :=
  match x with S754_nan => true | _ => false end.

Definition is_zero (x : float) : bool :=
  match x with S754_zero _ => true | _ => false end.

(** neither NaN nor an infinity *)
Definition is_finite (x : float) : bool :=
  match x with S754_zero _ | S754_finite _ _ _ => true | _ => false end.

(** a decimal literal [n / d], correctly rounded *)
Definition lit (n d : Z) : float := div (of_Z n) (of_Z d).

End Float.

Import Float.

(* ------------------------------------------------------------------ *)
(** ** Tensors, parameters and the objects render.py handles *)

(** A one-dimensional tensor; an image is a list of channels, each channel
    the flattened list of its pixels. *)
Definition Tensor := list float.
Definition Image := list Tensor.
Definition Matrix := list Tensor.

(** A leaf tensor as autograd sees it. *)
Record Param := mkParam {
  data : Tensor;
  requires_grad : bool;
  grad : option Tensor
}.

Definition requires_grad_ (b : bool) (p : Param) : Param :=
  {| data := data p; requires_grad := b; grad := grad p |}.

Definition with_grad (g : option Tensor) (p : Param) : Param :=
  {| data := data p; requires_grad := requires_grad p; grad := g |}.

Definition with_data (d : Tensor) (p : Param) : Param :=
  {| data := d; requires_grad := requires_grad p; grad := grad p |}.

(** The six parameter tensors of the Gaussian scene. *)
Record GaussianModel := mkGaussians {
  _xyz : Param;
  _features_dc : Param;
  _features_rest : Param;
  _opacity : Param;
  _scaling : Param;
  _rotation : Param
}.

Record View := mkView {
  image_name : string;
  original_image : Image;
  world_view_transform : Matrix
}.

(** Every leaf tensor a backward pass or an optimizer could touch while
    [render_set_optimize] runs. *)
Inductive ParamRef :=
| Xyz | FeaturesDc | FeaturesRest | Opacity | Scaling | Rotation
| CameraT | CameraQ.

Definition scene_refs : list ParamRef :=
  [Xyz; FeaturesDc; FeaturesRest; Opacity; Scaling; Rotation].

Definition all_refs : list ParamRef := scene_refs ++ [CameraT; CameraQ].

Definition ParamRef_eqb (a b : ParamRef) : bool :=
  match a, b with
  | Xyz, Xyz | FeaturesDc, FeaturesDc | FeaturesRest, FeaturesRest
  | Opacity, Opacity | Scaling, Scaling | Rotation, Rotation
  | CameraT, CameraT | CameraQ, CameraQ => true
  | _, _ => false
  end.

Definition is_scene_ref (r : ParamRef) : bool :=
  match r with CameraT | CameraQ => false | _ => true end.

(** The tensors alive during the refinement of one view. *)
Record Heap := mkHeap {
  gaussians : GaussianModel;
  camera_tensor_T : Param;
  camera_tensor_q : Param
}.

Definition get_scene (r : ParamRef) (g : GaussianModel) : Param :=
  match r with
  | Xyz => _xyz g
  | FeaturesDc => _features_dc g
  | FeaturesRest => _features_rest g
  | Opacity => _opacity g
  | Scaling => _scaling g
  | _ => _rotation g
  end.

Definition get_param (r : ParamRef) (h : Heap) : Param :=
  match r with
  | CameraT => camera_tensor_T h
  | CameraQ => camera_tensor_q h
  | _ => get_scene r (gaussians h)
  end.

Definition set_scene (r : ParamRef) (p : Param) (g : GaussianModel)
  : GaussianModel :=
  match r with
  | Xyz => mkGaussians p (_features_dc g) (_features_rest g) (_opacity g)
                       (_scaling g) (_rotation g)
  | FeaturesDc => mkGaussians (_xyz g) p (_features_rest g) (_opacity g)
                              (_scaling g) (_rotation g)
  | FeaturesRest => mkGaussians (_xyz g) (_features_dc g) p (_opacity g)
                                (_scaling g) (_rotation g)
  | Opacity => mkGaussians (_xyz g) (_features_dc g) (_features_rest g) p
                           (_scaling g) (_rotation g)
  | Scaling => mkGaussians (_xyz g) (_features_dc g) (_features_rest g)
                           (_opacity g) p (_rotation g)
  | Rotation => mkGaussians (_xyz g) (_features_dc g) (_features_rest g)
                            (_opacity g) (_scaling g) p
  | _ => g
  end.

Definition set_param (r : ParamRef) (p : Param) (h : Heap) : Heap :=
  match r with
  | CameraT => mkHeap (gaussians h) p (camera_tensor_q h)
  | CameraQ => mkHeap (gaussians h) (camera_tensor_T h) p
  | _ => mkHeap (set_scene r p (gaussians h))
                (camera_tensor_T h) (camera_tensor_q h)
  end.

(** [torch.cat] of two one-dimensional tensors, and the slices [t[:n]]
    and [t[-n:]] along the first axis ([camera_pose[:4]],
    [camera_pose[-3:]], [original_image[0:3, :, :]]). *)
Definition torch_cat (a b : Tensor) : Tensor := a ++ b.
Definition slice_to {A} (n : nat) (t : list A) : list A := firstn n t.
Definition slice_last {A} (n : nat) (t : list A) : list A :=
  skipn (List.length t - n) t.

(* ------------------------------------------------------------------ *)
(** ** Paths and the event log *)

(** A path is the list of the components handed to [os.path.join]. *)
Definition Path := list string.

Definition str_of_Z (z : Z) : string := NilZero.string_of_int (Z.to_int z).
Definition str_of_nat (n : nat) : string :=
  NilZero.string_of_uint (Nat.to_uint n).

Fixpoint zeros (n : nat) : string :=
  match n with
  | O => EmptyString
  | S k => String "0" (zeros k)
  end.

(** ["{0:05d}".format(idx)] *)
Definition fmt_05d (idx : nat) : string :=
  let s := str_of_nat idx in
  (zeros (5 - String.length s) ++ s)%string.

(** ["ours_{}".format(iteration)] *)
Definition ours_dir (iteration : Z) : string :=
  ("ours_" ++ str_of_Z iteration)%string.

Inductive Event :=
| EvMakedirs (p : Path)
| EvRender (v : View) (camera_pose : Tensor)
| EvLoss (loss : float)
| EvBackward
| EvOptimizerStep
| EvZeroGrad
| EvSchedulerStep
| EvSaveImage (img : Image) (p : Path)
| EvPrint (s : string)
| EvJsonDump (fps : float) (p : Path)
| EvSaveTime (mp label : string)
| EvLoad (p : Path)
| EvReconstructionOptim (views : list View) (iters : Z)
| EvReconstruction (views : list View)
| EvExportImage (p : Path)
| EvSetActiveShDegree (d : Z)
| EvExtractMeshUnbounded (resolution : Z)
| EvExtractMeshBounded (voxel sdf depth : float)
| EvWriteMesh (p : Path)
| EvPostProcessMesh (cluster_to_keep : Z)
| EvCreateVideos (dir : Path) (num_frames : nat).

Definition Log := list Event.

Inductive Exn :=
| UnboundLocalError (var : string)
| ZeroDivisionError
| OverflowError
| FileNotFoundError (p : Path).

Inductive Outcome (A : Type) :=
| Ok (a : A)
| Raise (e : Exn).
Arguments Ok {A} a.
Arguments Raise {A} e.

(* ------------------------------------------------------------------ *)
(** ** The collaborators *)

Record AdamState := mkAdamState {
  exp_avg : Tensor;
  exp_avg_sq : Tensor;
  step_count : nat
}.

Class Backend := {
  (** [utils.pose_utils.get_tensor_from_camera] and [Tensor.transpose(0, 1)] *)
  get_tensor_from_camera : Matrix -> Tensor;
  transpose_0_1 : Matrix -> Matrix;
  (** [render(view, gaussians, pipeline, background, camera_pose=.)["render"]];
      pipeline and background are the same in every call of one run, and
      the renderer reads the scene without changing it *)
  render : View -> GaussianModel -> Tensor -> Image;
  (** [utils.loss_utils.l1_loss_mask(network_output, gt, mask)] *)
  l1_loss_mask : Image -> Image -> Image -> float;
  (** the gradient of the loss of one forward pass with respect to a leaf *)
  autograd : ParamRef -> View -> GaussianModel -> Tensor -> Tensor;
  grad_accumulate : Tensor -> Tensor -> Tensor;
  (** one Adam update of one tensor: betas, weight decay, state, learning
      rate, data, gradient *)
  adam_update : float * float -> float -> AdamState -> float -> Tensor ->
                Tensor -> Tensor * AdamState;
  (** the learning rate [CosineAnnealingLR] computes at an epoch: current
      rate, base rate, [T_max], [eta_min], epoch *)
  cosine_annealing : float -> float -> Z -> float -> nat -> float
}.

(* ------------------------------------------------------------------ *)
(** ** torch: autograd, Adam and the cosine schedule *)

Record ParamGroup := mkGroup {
  params : list ParamRef;
  lr : float
}.

Record Optimizer := mkOptimizer {
  param_groups : list ParamGroup;
  betas : float * float;
  weight_decay : float;
  opt_state : list (ParamRef * AdamState)
}.

Record Scheduler := mkScheduler {
  T_max : Z;
  eta_min : float;
  base_lrs : list float;
  last_epoch : nat
}.

Fixpoint lookup_state (st : list (ParamRef * AdamState)) (r : ParamRef)
  : option AdamState :=
  match st with
  | [] => None
  | (r', s) :: rest => if ParamRef_eqb r r' then Some s else lookup_state rest r
  end.

Fixpoint update_state (st : list (ParamRef * AdamState)) (r : ParamRef)
  (s : AdamState) : list (ParamRef * AdamState) :=
  match st with
  | [] => [(r, s)]
  | (r', s') :: rest =>
      if ParamRef_eqb r r' then (r, s) :: rest
      else (r', s') :: update_state rest r s
  end.

Definition zeros_like (t : Tensor) : Tensor := map (fun _ => zero) t.

(** [torch.optim.Adam(groups, betas=., weight_decay=.)] *)
Definition Adam (groups : list ParamGroup) (b : float * float) (wd : float)
  : Optimizer := mkOptimizer groups b wd [].

(** [CosineAnnealingLR(optimizer, T_max=., eta_min=.)] *)
Definition CosineAnnealingLR (opt : Optimizer) (tmax : Z) (emin : float)
  : Scheduler := mkScheduler tmax emin (map lr (param_groups opt)) 0.

Definition registered (opt : Optimizer) : list ParamRef :=
  flat_map params (param_groups opt).

(** Mask of the pixels strictly above the threshold:
    [(rendering > black_hole_threshold).float()] *)
Definition black_hole_threshold : float := zero.

Definition mask_pixel (thr x : float) : float :=
  if gtb x thr then one else zero.

Definition threshold_mask (thr : float) (rendering : Image) : Image :=
  map (map (mask_pixel thr)) rendering.

Section Torch.

Context {B : Backend}.

(** [loss.backward()]: every leaf that requires a gradient receives one,
    added to the gradient it already holds. *)
Definition backward_leaf (v : View) (g : GaussianModel) (pose : Tensor)
  (h : Heap) (r : ParamRef) : Heap :=
  let p := get_param r h in
  if requires_grad p then
    let d := autograd r v g pose in
    let total := match grad p with
                 | None => d
                 | Some old => grad_accumulate old d
                 end in
    set_param r (with_grad (Some total) p) h
  else h.

Definition backward (v : View) (pose : Tensor) (h : Heap) : Heap :=
  fold_left (backward_leaf v (gaussians h) pose) all_refs h.

(** [optimizer.step()]: the registered tensors that hold a gradient are
    updated in place, the others are skipped. *)
Definition step_param (b : float * float) (wd rate : float)
  (acc : list (ParamRef * AdamState) * Heap) (r : ParamRef)
  : list (ParamRef * AdamState) * Heap :=
  let p := get_param r (snd acc) in
  match grad p with
  | None => acc
  | Some g =>
      let s := match lookup_state (fst acc) r with
               | Some s => s
               | None => mkAdamState (zeros_like (data p))
                                     (zeros_like (data p)) 0
               end in
      let res := adam_update b wd s rate (data p) g in
      (update_state (fst acc) r (snd res),
       set_param r (with_data (fst res) p) (snd acc))
  end.

Definition step_group (b : float * float) (wd : float)
  (acc : list (ParamRef * AdamState) * Heap) (grp : ParamGroup) :=
  fold_left (step_param b wd (lr grp)) (params grp) acc.

Definition optimizer_step (opt : Optimizer) (h : Heap) : Optimizer * Heap :=
  let res := fold_left (step_group (betas opt) (weight_decay opt))
                       (param_groups opt) (opt_state opt, h) in
  (mkOptimizer (param_groups opt) (betas opt) (weight_decay opt) (fst res),
   snd res).

(** [optimizer.zero_grad(set_to_none=True)] *)
Definition zero_grad (opt : Optimizer) (h : Heap) : Heap :=
  fold_left (fun h r => set_param r (with_grad None (get_param r h)) h)
            (registered opt) h.

(** [scheduler.step()] *)
Definition scheduler_step (sch : Scheduler) (opt : Optimizer)
  : Scheduler * Optimizer :=
  let e := S (last_epoch sch) in
  let groups :=
    map (fun gb : ParamGroup * float =>
           mkGroup (params (fst gb))
                   (cosine_annealing (lr (fst gb)) (snd gb)
                                     (T_max sch) (eta_min sch) e))
        (combine (param_groups opt) (base_lrs sch)) in
  (mkScheduler (T_max sch) (eta_min sch) (base_lrs sch) e,
   mkOptimizer groups (betas opt) (weight_decay opt) (opt_state opt)).

End Torch.

(* ------------------------------------------------------------------ *)
(** ** render_set_optimize: the refinement of one view *)

(** The best candidate seen so far, with the first loss kept for the
    progress bar. *)
Record Tracker := mkTracker {
  candidate_q : Tensor;
  candidate_T : Tensor;
  current_min_loss : float;
  initial_loss : option float
}.

Record LoopSt := mkLoopSt {
  heap : Heap;
  pose_optimizer : Optimizer;
  scheduler : Scheduler;
  tracker : Tracker;
  log : Log
}.

(** [float(1e20)] *)
Definition float_1e20 : float := of_Z (10 ^ 20).

(** [for iteration in range(num_iter)] runs over these indices. *)
Definition range (n : Z) : list nat := seq 0 (Z.to_nat n).

Section Refinement.

Context {B : Backend}.

(** The pose the live optimizer state denotes:
    [torch.cat([camera_tensor_q, camera_tensor_T])] *)
Definition live_pose (h : Heap) : Tensor :=
  torch_cat (data (camera_tensor_q h)) (data (camera_tensor_T h)).

Definition step_rendering (v : View) (s : LoopSt) : Image :=
  render v (gaussians (heap s)) (live_pose (heap s)).

(** The loss of the iteration that starts in state [s]. *)
Definition step_loss (v : View) (gt : Image) (s : LoopSt) : float :=
  let rendering := step_rendering v s in
  let mask := threshold_mask black_hole_threshold rendering in
  l1_loss_mask rendering gt mask.

(** What one pass, started in state [s], appends to the log. *)
Definition pass_events (v : View) (gt : Image) (s : LoopSt) : list Event :=
  [EvRender v (live_pose (heap s)); EvLoss (step_loss v gt s); EvBackward;
   EvOptimizerStep; EvZeroGrad; EvSchedulerStep].

(** The tensors after [loss.backward()], [pose_optimizer.step()] and
    [pose_optimizer.zero_grad(set_to_none=True)]. *)
Definition stepped (v : View) (s : LoopSt) : Optimizer * Heap :=
  let h1 := backward v (live_pose (heap s)) (heap s) in
  let oh := optimizer_step (pose_optimizer s) h1 in
  (fst oh, zero_grad (fst oh) (snd oh)).

(** [if iteration == 0: initial_loss = loss.item()] *)
Definition capture_initial (iteration : nat) (loss : float) (t : Tracker)
  : Tracker :=
  if Nat.eqb iteration 0
  then mkTracker (candidate_q t) (candidate_T t) (current_min_loss t)
                 (Some loss)
  else t.

(** [if loss < current_min_loss: ...] with the two [clone().detach()] *)
Definition track (loss : float) (h : Heap) (t : Tracker) : Tracker :=
  if ltb loss (current_min_loss t)
  then mkTracker (data (camera_tensor_q h)) (data (camera_tensor_T h))
                 loss (initial_loss t)
  else t.

(** One pass through the body of the inner loop. *)
Definition refine_step (v : View) (gt : Image) (s : LoopSt)
  (iteration : nat) : LoopSt :=
  let pose := live_pose (heap s) in
  let loss := step_loss v gt s in
  let oh := stepped v s in
  let t := track loss (snd oh)
                 (capture_initial iteration loss (tracker s)) in
  let so := scheduler_step (scheduler s) (fst oh) in
  mkLoopSt (snd oh) (snd so) (fst so) t
           (log s ++ [EvRender v pose; EvLoss loss; EvBackward;
                      EvOptimizerStep; EvZeroGrad; EvSchedulerStep]).

(** The state after the first [k] passes. *)
Definition after (v : View) (gt : Image) (s : LoopSt) (k : nat) : LoopSt :=
  fold_left (refine_step v gt) (seq 0 k) s.

Definition refine_loop (v : View) (gt : Image) (num_iter : Z)
  (s : LoopSt) : LoopSt :=
  fold_left (refine_step v gt) (range num_iter) s.

(** Everything between the head of the outer loop and the inner loop. *)
Definition refine_init (v : View) (g : GaussianModel) (num_iter : Z)
  (l : Log) : LoopSt :=
  let camera_pose :=
    get_tensor_from_camera (transpose_0_1 (world_view_transform v)) in
  let cT := requires_grad_ true (mkParam (slice_last 3 camera_pose) false None) in
  let cq := requires_grad_ true (mkParam (slice_to 4 camera_pose) false None) in
  let opt := Adam [mkGroup [CameraT] (lit 3 1000);
                   mkGroup [CameraQ] (lit 1 1000)]
                  (lit 9 10, lit 999 1000) (lit 1 10000) in
  let sch := CosineAnnealingLR opt num_iter (lit 1 10000) in
  mkLoopSt (mkHeap g cT cq) opt sch
           (mkTracker (data cq) (data cT) float_1e20 None) l.

End Refinement.

(* ------------------------------------------------------------------ *)
(** ** The command line *)

Record Args := mkArgs {
  model_path : string;
  surf : bool;
  eval : bool;
  skip_train : bool;
  skip_test : bool;
  skip_mesh : bool;
  infer_video : bool;
  arg_render_path : bool;
  unbounded : bool;
  test_fps : bool;
  optim_test_pose_iter : Z;
  n_views : Z;
  mesh_res : Z;
  num_cluster : Z;
  voxel_size : float;
  depth_trunc : float;
  sdf_trunc : float
}.

(* ------------------------------------------------------------------ *)
(** ** The FPS probe at the end of render_set_optimize *)

Module Probe.

(** [list.sort()] on durations: a stable ascending sort, which compares
    with [<] only.  (It is the order Python gives as long as no duration
    is a NaN.) *)
Fixpoint insert (x : float) (l : list float) : list float :=
  match l with
  | [] => [x]
  | y :: r => if ltb y x then y :: insert x r else x :: y :: r
  end.

Fixpoint sort (l : list float) : list float :=
  match l with
  | [] => []
  | x :: r => insert x (sort r)
  end.

(** [l[a:b]] for [0 <= a <= b] *)
Definition slice (a b : nat) (l : list float) : list float :=
  firstn (b - a) (skipn a l).

(** [sum(l)]: the durations are added to 0 one after the other, every
    addition rounded to binary64 (the loop of CPython up to 3.11; later
    versions carry a correction term along). *)
Definition sum (l : list float) : float := fold_left add l zero.

(** [x / y] on floats, a [ZeroDivisionError] when [y] is zero *)
Definition py_div (x y : float) : Outcome float :=
  if is_zero y then Raise ZeroDivisionError else Ok (div x y).

Definition bind {A C} (m : Outcome A) (f : A -> Outcome C) : Outcome C :=
  match m with
  | Ok a => f a
  | Raise e => Raise e
  end.

(** The three lines after the timing loop:
    [fps_list.sort(); fps_list = fps_list[100:900];
     fps = 1 / (sum(fps_list) / len(fps_list))] *)
Definition trimmed (fps_list : list float) : list float :=
  slice 100 900 (sort fps_list).

Definition fps_of (fps_list : list float) : Outcome float :=
  let kept := trimmed fps_list in
  bind (py_div (sum kept) (of_Z (Z.of_nat (List.length kept))))
       (fun mean => py_div one mean).


End Probe.

(* ------------------------------------------------------------------ *)
(** ** render_set_optimize *)

(** What the function body holds between two views and after the loop.
    [rs_view] and [rs_optimal_pose] are the local variables [view] and
    [optimal_pose]: unbound until the first view has been processed. *)
Record RunSt := mkRunSt {
  rs_gaussians : GaussianModel;
  rs_view : option View;
  rs_optimal_pose : option Tensor;
  rs_log : Log
}.

Definition renders_dir (mp name : string) (iteration : Z) : Path :=
  [mp; name; ours_dir iteration; "renders"%string].
Definition gt_dir (mp name : string) (iteration : Z) : Path :=
  [mp; name; ours_dir iteration; "gt"%string].

Definition png (stem : string) : string := (stem ++ ".png")%string.

(** The six calls [gaussians._x.requires_grad_(False)]. *)
Definition freeze (g : GaussianModel) : GaussianModel :=
  mkGaussians (requires_grad_ false (_xyz g))
              (requires_grad_ false (_features_dc g))
              (requires_grad_ false (_features_rest g))
              (requires_grad_ false (_opacity g))
              (requires_grad_ false (_scaling g))
              (requires_grad_ false (_rotation g)).

Section RenderSetOptimize.

Context {B : Backend}.
Variable args : Args.

(** The body of the outer loop, for one view. *)
Definition refine_view (mp name : string) (iteration : Z)
  (rs : RunSt) (v : View) : RunSt :=
  let num_iter := optim_test_pose_iter args in
  let s0 := refine_init v (rs_gaussians rs) num_iter (rs_log rs) in
  let gt := slice_to 3 (original_image v) in
  let s := refine_loop v gt num_iter s0 in
  let cq := candidate_q (tracker s) in
  let cT := candidate_T (tracker s) in
  let optimal_pose := torch_cat cq cT in
  let g := gaussians (heap s) in
  let rendering_opt := render v g optimal_pose in
  mkRunSt g (Some v) (Some optimal_pose)
          (log s ++
           [EvRender v optimal_pose;
            EvSaveImage rendering_opt
              (renders_dir mp name iteration ++ [png (image_name v)]);
            EvSaveImage gt
              (gt_dir mp name iteration ++ [png (image_name v)])]).

(** The duration the probe records for trial [i]: [end - start] on the
    two floats [perf_counter()] returned. *)
Definition duration (perf_counter : nat -> float) (i : nat) : float :=
  sub (perf_counter (2 * i + 1)%nat) (perf_counter (2 * i)%nat).

(** One trial of the timing loop.  [perf_counter k] is the [k]-th clock
    reading of the probe; reading the unbound [view] raises. *)
Definition fps_trial (perf_counter : nat -> float) (rs : RunSt)
  (acc : Outcome (list float * Log)) (i : nat)
  : Outcome (list float * Log) :=
  Probe.bind acc (fun fl =>
    let start := perf_counter (2 * i)%nat in
    match rs_view rs with
    | None => Raise (UnboundLocalError "view")
    | Some v =>
        match rs_optimal_pose rs with
        | None => Raise (UnboundLocalError "optimal_pose")
        | Some p =>
            let end_ := perf_counter (2 * i + 1)%nat in
            Ok (fst fl ++ [sub end_ start], snd fl ++ [EvRender v p])
        end
    end).

(** [if args.test_fps: ...] *)
Definition fps_block (mp : string) (perf_counter : nat -> float)
  (rs : RunSt) : Outcome (RunSt * option float) :=
  if test_fps args then
    let l0 := rs_log rs ++ [EvPrint ">>> Calculate FPS: "] in
    Probe.bind
      (fold_left (fps_trial perf_counter rs) (seq 0 1000) (Ok ([], l0)))
      (fun fl =>
         Probe.bind (Probe.fps_of (fst fl)) (fun fps =>
           Ok (mkRunSt (rs_gaussians rs) (rs_view rs) (rs_optimal_pose rs)
                 (snd fl ++ [EvPrint ">>> FPS = ";
                             EvJsonDump fps [mp; "total_fps.json"%string]]),
               Some fps)))
  else Ok (rs, None).

(** The function up to the end of the outer loop. *)
Definition refine_all (mp name : string) (iteration : Z)
  (views : list View) (gaussians0 : GaussianModel) : RunSt :=
  let l0 := [EvMakedirs (renders_dir mp name iteration);
             EvMakedirs (gt_dir mp name iteration)] in
  let rs0 := mkRunSt (freeze gaussians0) None None l0 in
  fold_left (refine_view mp name iteration) views rs0.

Definition render_set_optimize (mp name : string) (iteration : Z)
  (views : list View) (gaussians0 : GaussianModel)
  (perf_counter : nat -> float) : Outcome (RunSt * option float) :=
  fps_block mp perf_counter (refine_all mp name iteration views gaussians0).

End RenderSetOptimize.

(* ------------------------------------------------------------------ *)
(** ** render_set: the plain evaluation render *)

Section RenderSet.

Context {B : Backend}.

(** What [render_set] does for the view at position [idx]. *)
Definition view_events (mp name : string) (iteration : Z)
  (g : GaussianModel) (iv : nat * View) : list Event :=
  let camera_pose :=
    get_tensor_from_camera (transpose_0_1 (world_view_transform (snd iv))) in
  [EvRender (snd iv) camera_pose;
   EvSaveImage (render (snd iv) g camera_pose)
     (renders_dir mp name iteration ++ [png (fmt_05d (fst iv))])]
  ++ (if String.eqb name "interp" then []
      else [EvSaveImage (slice_to 3 (original_image (snd iv)))
              (gt_dir mp name iteration ++ [png (fmt_05d (fst iv))])]).

Definition render_one (mp name : string) (iteration : Z)
  (g : GaussianModel) (l : Log) (iv : nat * View) : Log :=
  let idx := fst iv in
  let v := snd iv in
  let camera_pose :=
    get_tensor_from_camera (transpose_0_1 (world_view_transform v)) in
  let rendering := render v g camera_pose in
  let gt := slice_to 3 (original_image v) in
  let l1 := l ++ [EvRender v camera_pose;
                  EvSaveImage rendering
                    (renders_dir mp name iteration ++ [png (fmt_05d idx)])] in
  if negb (String.eqb name "interp")
  then l1 ++ [EvSaveImage gt (gt_dir mp name iteration ++ [png (fmt_05d idx)])]
  else l1.

(** [enumerate(views)] *)
Definition enumerate (views : list View) : list (nat * View) :=
  combine (seq 0 (List.length views)) views.

Definition render_set (mp name : string) (iteration : Z)
  (views : list View) (g : GaussianModel) : Log :=
  fold_left (render_one mp name iteration g) (enumerate views)
    [EvMakedirs (renders_dir mp name iteration);
     EvMakedirs (gt_dir mp name iteration)].

End RenderSet.

(* ------------------------------------------------------------------ *)
(** ** render_sets: the dispatch *)

Record Scene := mkScene {
  getTrainCameras : list View;
  getTestCameras : list View;
  loaded_iter : Z
}.

(** The pose array [np.load] finds on disk, if any. *)
Record Files := mkFiles {
  pose_optimized_npy : option (list Matrix)
}.

Class Exporter := {
  (** [scene.dataset_readers.loadCameras] *)
  loadCameras : list Matrix -> list View -> list View;
  (** [gaussExtractor.radius] once the extractor has reconstructed these
      views *)
  extractor_radius : list View -> float;
  (** [utils.render_utils.generate_path(viewpoint_stack, n_frames=.)] *)
  generate_path : list View -> nat -> list View
}.

(** Statements of [render_sets] run in an error monad over the event log. *)
Definition Orch (A : Type) : Type := Log -> Outcome (A * Log).

Definition oret {A} (a : A) : Orch A := fun l => Ok (a, l).
Definition obind {A C} (m : Orch A) (f : A -> Orch C) : Orch C :=
  fun l => match m l with
           | Ok (a, l') => f a l'
           | Raise e => Raise e
           end.
Definition emit (es : list Event) : Orch unit := fun l => Ok (tt, l ++ es).
Definition raise {A} (e : Exn) : Orch A := fun _ => Raise e.
Definition when (b : bool) (m : Orch unit) : Orch unit :=
  if b then m else oret tt.

Notation "x <- m ;; k" := (obind m (fun x => k))
  (at level 61, m at next level, right associativity).
Notation "m ;;; k" := (obind m (fun _ => k))
  (at level 61, right associativity).

(** [np.load(path)] *)
Definition np_load (p : Path) (content : option (list Matrix))
  : Orch (list Matrix) :=
  match content with
  | Some a => emit [EvLoad p] ;;; oret a
  | None => raise (FileNotFoundError p)
  end.

(** Reading a local variable that may not have been assigned. *)
Definition read_local {A} (name : string) (x : option A) : Orch A :=
  match x with
  | Some a => oret a
  | None => raise (UnboundLocalError name)
  end.

(** [x / n] for a Python float [x] and a Python int [n]: the int is
    converted to a float first, and a zero divisor raises *)
Definition truediv_int (x : float) (n : Z) : Outcome float :=
  match of_Z n with
  | S754_infinity _ => Raise OverflowError
  | S754_zero _ => Raise ZeroDivisionError
  | d => Ok (div x d)
  end.

(** The three assignments in front of [extract_mesh_bounded]; the result
    is [(voxel_size, sdf_trunc, depth_trunc)]. *)
Definition bounded_params (radius : float) (a : Args)
  : Outcome (float * float * float) :=
  let depth_trunc' :=
    if ltb (depth_trunc a) zero then mul radius (of_Z 2) else depth_trunc a in
  Probe.bind
    (if ltb (voxel_size a) zero
     then truediv_int depth_trunc' (mesh_res a)
     else Ok (voxel_size a))
    (fun voxel_size' =>
       let sdf_trunc' :=
         if ltb (sdf_trunc a) zero then mul (of_Z 5) voxel_size'
         else sdf_trunc a in
       Ok (voxel_size', sdf_trunc', depth_trunc')).

Definition lift {A} (o : Outcome A) : Orch A :=
  fun l => match o with Ok a => Ok (a, l) | Raise e => Raise e end.

Definition pose_dir (a : Args) (iteration : Z) (file : string) : Path :=
  [model_path a; "pose"%string; ours_dir iteration; file].

Section RenderSets.

Context {X : Exporter}.
Variable args : Args.
Variable scene : Scene.
Variable files : Files.

Definition train_dir : Path :=
  [model_path args; "train"%string; ours_dir (loaded_iter scene)].
Definition test_dir : Path :=
  [model_path args; "test"%string; ours_dir (loaded_iter scene)].
Definition traj_dir : Path :=
  [model_path args; "traj"%string; ours_dir (loaded_iter scene)].

(** [if args.eval: ...] of the surface branch *)
Definition export_test : Orch unit :=
  when (negb (skip_test args)
        && (0 <? Z.of_nat (List.length (getTestCameras scene)))%Z)
    (emit [EvPrint "export rendered testing images ...";
           EvMakedirs test_dir;
           EvReconstructionOptim (getTestCameras scene)
                                 (optim_test_pose_iter args);
           EvSaveTime (model_path args) "[5] render_test";
           EvExportImage test_dir]).

(** [if not args.skip_train: ...]; returns the local [optimized_pose] *)
Definition export_train (iteration : Z) : Orch (option (list Matrix)) :=
  if negb (skip_train args) then
    emit [EvPrint "export training images ..."; EvMakedirs train_dir] ;;;
    optimized_pose <-
      np_load (pose_dir args iteration "pose_optimized.npy")
              (pose_optimized_npy files) ;;
    emit [EvReconstructionOptim
            (loadCameras optimized_pose (getTrainCameras scene)) 0;
          EvExportImage train_dir] ;;;
    oret (Some optimized_pose)
  else oret None.

(** [if not args.skip_mesh: ...] *)
Definition export_mesh (optimized_pose : option (list Matrix)) : Orch unit :=
  when (negb (skip_mesh args))
    (emit [EvPrint "export mesh ..."; EvMakedirs train_dir;
           EvSetActiveShDegree 0] ;;;
     poses <- read_local "optimized_pose" optimized_pose ;;
     let viewpoint_stack := loadCameras poses (getTrainCameras scene) in
     emit [EvReconstructionOptim viewpoint_stack 0] ;;;
     name <-
       (if unbounded args then
          emit [EvExtractMeshUnbounded (mesh_res args)] ;;;
          oret "fuse_unbounded"%string
        else
          p <- lift (bounded_params (extractor_radius viewpoint_stack) args) ;;
          emit [EvExtractMeshBounded (fst (fst p)) (snd (fst p)) (snd p)] ;;;
          oret "fuse"%string) ;;
     emit [EvWriteMesh (train_dir ++ [(name ++ ".ply")%string]);
           EvPrint "mesh saved";
           EvPostProcessMesh (num_cluster args);
           EvWriteMesh (train_dir ++ [(name ++ "_post.ply")%string]);
           EvPrint "mesh post processed saved"]).

(** [if args.render_path: ...] *)
Definition export_traj (optimized_pose : option (list Matrix)) : Orch unit :=
  when (arg_render_path args)
    (emit [EvPrint "render videos ..."; EvMakedirs traj_dir] ;;;
     poses <- read_local "optimized_pose" optimized_pose ;;
     let viewpoint_stack := loadCameras poses (getTrainCameras scene) in
     emit [EvReconstruction (generate_path viewpoint_stack 240);
           EvExportImage traj_dir;
           EvCreateVideos traj_dir 240]).

(** [render_sets] when [args.surf] is set: the [else] branch of
    [if not args.surf].  (The other branch hands the train, test and
    interpolated cameras to [render_set] and [render_set_optimize]
    above.) *)
Definition render_sets_surf (iteration : Z) : Orch unit :=
  optimized_pose <-
    (if eval args then export_test ;;; oret None
     else
       op <- export_train iteration ;;
       export_mesh op ;;;
       oret op) ;;
  export_traj optimized_pose.

End RenderSets.

(* ------------------------------------------------------------------ *)
(** ** Predicates on states and logs *)

(** No scene tensor asks for a gradient. *)
Definition frozen (g : GaussianModel) : Prop :=
  forall r, is_scene_ref r = true -> requires_grad (get_scene r g) = false.

(** The optimizer holds camera tensors only. *)
Definition camera_only (opt : Optimizer) : Prop :=
  Forall (fun r => is_scene_ref r = false) (registered opt).

Definition is_render (e : Event) : bool :=
  match e with EvRender _ _ => true | _ => false end.
Definition is_loss (e : Event) : bool :=
  match e with EvLoss _ => true | _ => false end.
Definition is_backward (e : Event) : bool :=
  match e with EvBackward => true | _ => false end.
Definition is_optimizer_step (e : Event) : bool :=
  match e with EvOptimizerStep => true | _ => false end.
Definition is_scheduler_step (e : Event) : bool :=
  match e with EvSchedulerStep => true | _ => false end.
Definition is_save (e : Event) : bool :=
  match e with EvSaveImage _ _ => true | _ => false end.

Definition count (p : Event -> bool) (l : Log) : nat :=
  List.length (filter p l).

(** An image saved directly inside directory [dir]. *)
Definition is_save_in (dir : Path) (e : Event) : bool :=
  match e with
  | EvSaveImage _ p =>
      if list_eq_dec string_dec (removelast p) dir then true else false
  | _ => false
  end.

(* ------------------------------------------------------------------ *)
(** ** A scripted backend, to run the functions on concrete inputs *)

Module Scripted.

(** The first coordinate of the pose walks 3, 1, 2, 5, 5, ...; any other
    start (a NaN too) jumps to 5, 2 or 1 by the same rule. *)
Definition next (x : float) : float :=
  if gtb x (of_Z 2) then of_Z 1
  else if ltb x (of_Z 2) then of_Z 2
  else of_Z 5.

(** The image is the pose itself, the loss its first pixel, the gradient
    the next pose and the update takes the gradient as the new value. *)
#[export] Instance backend : Backend := {|
  get_tensor_from_camera := fun m => hd [] m;
  transpose_0_1 := fun m => m;
  render := fun _ _ pose => [pose];
  l1_loss_mask := fun rendering _ _ => hd nan (hd [] rendering);
  autograd := fun r _ _ pose =>
    match r with
    | CameraQ => map next (slice_to 4 pose)
    | CameraT => slice_last 3 pose
    | _ => [one]
    end;
  grad_accumulate := fun old d => d;
  adam_update := fun _ _ s _ _ g => (g, s);
  cosine_annealing := fun rate _ _ _ _ => rate
|}.

#[export] Instance exporter : Exporter := {|
  loadCameras := fun _ views => views;
  extractor_radius := fun _ => of_Z 2;
  generate_path := fun views _ => views
|}.

Definition pose_from (x : float) : Tensor :=
  [x; zero; zero; one; zero; zero; zero].

Definition view_from (name : string) (x : float) : View :=
  mkView name [[one]; [one]; [one]] [pose_from x].

Definition view3 : View := view_from "a" (of_Z 3).
Definition view_nan : View := view_from "n" nan.

Definition leaf (x : Z) : Param := mkParam [of_Z x] true None.
Definition scene0 : GaussianModel :=
  mkGaussians (leaf 1) (leaf 2) (leaf 3) (leaf 4) (leaf 5) (leaf 6).

Definition run0 : RunSt := mkRunSt (freeze scene0) None None [].

Definition base_args : Args :=
  mkArgs "out" false false false false false false false false false
         3 3 1024 50 (S754_finite true 4503599627370496 (-52))
         (S754_finite true 4503599627370496 (-52))
         (S754_finite true 4503599627370496 (-52)).

(** the same command line with [--test_fps] *)
Definition probe_args : Args :=
  mkArgs "out" false false false false false false false false true
         3 3 1024 50 (S754_finite true 4503599627370496 (-52))
         (S754_finite true 4503599627370496 (-52))
         (S754_finite true 4503599627370496 (-52)).

(** [--surf --eval], and a scene whose test split is empty *)
Definition eval_args : Args :=
  mkArgs "out" true true false false false false false false false
         3 3 1024 50 (S754_finite true 4503599627370496 (-52))
         (S754_finite true 4503599627370496 (-52))
         (S754_finite true 4503599627370496 (-52)).

Definition scene_without_test : Scene := mkScene [view3] [] 7.

End Scripted.

(* ------------------------------------------------------------------ *)
(** ** Further vocabulary for runs and logs *)

(** Two loop states that agree on everything but the log. *)
Definition same_state (s s' : LoopSt) : Prop :=
  heap s = heap s'
  /\ pose_optimizer s = pose_optimizer s'
  /\ scheduler s = scheduler s'
  /\ tracker s = tracker s'.

(** The paths a log writes images to, in the order of writing. *)
Definition saved_paths (l : Log) : list Path :=
  flat_map (fun e => match e with EvSaveImage _ p => [p] | _ => [] end) l.

(** The body of the outer loop run for one view on its own: scene [g], no
    view seen before, empty log. *)
Definition solo_view {B : Backend} (args : Args) (mp name : string)
  (iteration : Z) (g : GaussianModel) (v : View) : RunSt :=
  refine_view args mp name iteration (mkRunSt g None None []) v.

(** The camera tensors as every pass must find them: no gradient left
    over, gradient tracking on, and the optimizer and its schedule still
    built over the translation group and the rotation group. *)
Definition pose_ready (s : LoopSt) : Prop :=
  grad (camera_tensor_T (heap s)) = None
  /\ grad (camera_tensor_q (heap s)) = None
  /\ requires_grad (camera_tensor_T (heap s)) = true
  /\ requires_grad (camera_tensor_q (heap s)) = true
  /\ map params (param_groups (pose_optimizer s)) = [[CameraT]; [CameraQ]]
  /\ List.length (base_lrs (scheduler s)) = 2%nat.

(** Reading a string of decimal digits back as a number, leading zeros
    allowed: what [int(s)] gives on such a string. *)
Definition parse_index (s : string) : option nat :=
  option_map Nat.of_uint (NilEmpty.uint_of_string s).

(* ------------------------------------------------------------------ *)
(** ** images_to_video *)

(** The tuple handed to [filename.endswith]. *)
Definition image_suffixes : list string :=
  [".png"; ".jpg"; ".jpeg"; ".JPG"; ".PNG"]%string.

(** [s.endswith(suffix)] for one suffix *)
Definition endswith (s suffix : string) : bool :=
  let n := String.length s in
  let m := String.length suffix in
  (m <=? n)%nat && String.eqb (substring (n - m) m s) suffix.

(** [filename.endswith((".png", ".jpg", ".jpeg", ".JPG", ".PNG"))] *)
Definition is_image_file (filename : string) : bool :=
  existsb (endswith filename) image_suffixes.

(** [sorted(names)]: strings in ascending order, compared character by
    character by code. *)
Fixpoint insert_by {A} (le : A -> A -> bool) (x : A) (l : list A) : list A :=
  match l with
  | [] => [x]
  | y :: r => if le x y then x :: y :: r else y :: insert_by le x r
  end.

Fixpoint sort_by {A} (le : A -> A -> bool) (l : list A) : list A :=
  match l with
  | [] => []
  | x :: r => insert_by le x (sort_by le r)
  end.

Definition sorted_names (names : list string) : list string :=
  sort_by String.leb names.

Inductive VideoEvent :=
| VeImread (p : Path)
| VeMimwrite (out : Path) (frames : list Path) (fps : Z).

(** The files [images_to_video] reads, in the order it reads them:
    [listing] is what [os.listdir(image_folder)] returns. *)
Definition video_frames (listing : list string) : list string :=
  filter is_image_file (sorted_names listing).

Definition images_to_video (listing : list string)
  (image_folder output_video_path : Path) (fps : Z) : list VideoEvent :=
  let paths := map (fun filename => image_folder ++ [filename])
                   (video_frames listing) in
  map VeImread paths ++ [VeMimwrite output_video_path paths fps].

(** The digits behind [fmt_05d n]: those of [n], with zeros in front up to
    five. *)
Definition padded (n : nat) : Decimal.uint :=
  Nat.iter (5 - Decimal.nb_digits (Nat.to_uint n)) Decimal.D0 (Nat.to_uint n).

(** The names of the files a log writes, without their directories. *)
Definition saved_names (l : Log) : list string :=
  map (fun p => last p EmptyString) (saved_paths l).

(** Command lines of the surface branch, for concrete runs. *)
Module Samples.

(** [--surf --eval --render_path] *)
Definition eval_path_args : Args :=
  mkArgs "out" true true false false false false true false false
         3 3 1024 50 (S754_finite true 4503599627370496 (-52))
         (S754_finite true 4503599627370496 (-52))
         (S754_finite true 4503599627370496 (-52)).

(** [--surf] alone *)
Definition surf_args : Args :=
  mkArgs "out" true false false false false false false false false
         3 3 1024 50 (S754_finite true 4503599627370496 (-52))
         (S754_finite true 4503599627370496 (-52))
         (S754_finite true 4503599627370496 (-52)).

(** a model directory without [pose_optimized.npy] *)
Definition no_pose_file : Files := mkFiles None.



End Samples.

(* ------------------------------------------------------------------ *)
(** ** save_interpolate_pose *)

(** Camera poses as arrays of fixed shape: the 4 x 4 poses held by
    [pose_optimized.npy] and the 3 x 4 poses
    [generate_interpolated_path] returns. *)
Module Np.

Record Row := mkRow { c0 : float; c1 : float; c2 : float; c3 : float }.
Record Pose34 := mkPose34 { p0 : Row; p1 : Row; p2 : Row }.
Record Pose44 := mkPose44 { r0 : Row; r1 : Row; r2 : Row; r3 : Row }.

(** [np.eye(4)] *)
Definition eye4 : Pose44 :=
  mkPose44 (mkRow one zero zero zero) (mkRow zero one zero zero)
           (mkRow zero zero one zero) (mkRow zero zero zero one).

(** [a[:3, :].reshape(1, 3, 4)] is the array holding this one pose *)
Definition top3 (a : Pose44) : Pose34 := mkPose34 (r0 a) (r1 a) (r2 a).

(** [v[:3, :3] = p[:3, :3]] *)
Definition set_row_3 (v p : Row) : Row := mkRow (c0 p) (c1 p) (c2 p) (c3 v).
Definition set_block_3_3 (v : Pose44) (p : Pose34) : Pose44 :=
  mkPose44 (set_row_3 (r0 v) (p0 p)) (set_row_3 (r1 v) (p1 p))
           (set_row_3 (r2 v) (p2 p)) (r3 v).

(** [v[:3, 3] = p[:3, 3]] *)
Definition set_row_last (v p : Row) : Row :=
  mkRow (c0 v) (c1 v) (c2 v) (c3 p).
Definition set_column_3 (v : Pose44) (p : Pose34) : Pose44 :=
  mkPose44 (set_row_last (r0 v) (p0 p)) (set_row_last (r1 v) (p1 p))
           (set_row_last (r2 v) (p2 p)) (r3 v).

Definition row_list (r : Row) : Tensor := [c0 r; c1 r; c2 r; c3 r].

(** the pose as the nested list the camera loader takes *)
Definition to_matrix (a : Pose44) : Matrix :=
  [row_list (r0 a); row_list (r1 a); row_list (r2 a); row_list (r3 a)].

End Np.

(** What the rest of [render.py] can raise beyond [Exn]. *)
Inductive PyExn :=
| Builtin (e : Exn)
| ValueError
| IndexError
| CollaboratorError (who : string).

Inductive Result (A : Type) :=
| Done (a : A)
| Failed (e : PyExn).
Arguments Done {A} a.
Arguments Failed {A} e.

Class PoseTools := {
  (** [utils.camera_utils.generate_interpolated_path(poses=., n_interp=.)];
      [None] when the call raises *)
  generate_interpolated_path :
    list Np.Pose44 -> Z -> option (list Np.Pose34)
}.

(** What a run outside the surface branch does, in order. *)
Inductive Action :=
| Run (e : Event)
| Visualizer (poses : list Np.Pose44) (colours : list string) (p : Path)
| NpSave (p : Path) (poses : list Np.Pose44)
| Video (e : VideoEvent).

(** The pose arrays on disk, the folders that exist with their entries,
    and what has been done so far. *)
Record World := mkWorld {
  npy : Path -> option (list Np.Pose44);
  dirs : Path -> option (list string);
  trace : list Action
}.

Definition path_eqb (p q : Path) : bool :=
  if list_eq_dec string_dec p q then true else false.

Definition Plain (A : Type) : Type := World -> Result (A * World).

Definition pret {A} (a : A) : Plain A := fun w => Done (a, w).
Definition pbind {A C} (m : Plain A) (f : A -> Plain C) : Plain C :=
  fun w => match m w with
           | Done (a, w') => f a w'
           | Failed e => Failed e
           end.
Definition act (es : list Action) : Plain unit :=
  fun w => Done (tt, mkWorld (npy w) (dirs w) (trace w ++ es)).
Definition pwhen (b : bool) (m : Plain unit) : Plain unit :=
  if b then m else pret tt.
Definition lift_result {A} (r : Result A) : Plain A :=
  fun w => match r with Done a => Done (a, w) | Failed e => Failed e end.
Definition lift_outcome {A} (o : Outcome A) : Plain A :=
  fun w => match o with Ok a => Done (a, w) | Raise e => Failed (Builtin e) end.

Declare Scope plain_scope.
Delimit Scope plain_scope with plain.
Bind Scope plain_scope with Plain.
Notation "x <- m ;; k" := (pbind m (fun x => k))
  (at level 61, m at next level, right associativity) : plain_scope.
Notation "m ;;; k" := (pbind m (fun _ => k))
  (at level 61, right associativity) : plain_scope.

(** [np.load(path)] of a pose array *)
Definition load_poses (p : Path) : Plain (list Np.Pose44) :=
  fun w => match npy w p with
           | Some a => Done (a, mkWorld (npy w) (dirs w)
                                   (trace w ++ [Run (EvLoad p)]))
           | None => Failed (Builtin (FileNotFoundError p))
           end.

(** [np.save(path, a)] *)
Definition save_poses (p : Path) (a : list Np.Pose44) : Plain unit :=
  fun w => Done (tt, mkWorld (fun q => if path_eqb q p then Some a
                                       else npy w q)
                       (dirs w) (trace w ++ [NpSave p a])).

(** [a / b] on two Python ints.  Both are turned into floats and divided,
    which is the quotient Python computes whenever both are below [2^53]
    in size. *)
Definition int_truediv (a b : Z) : Result float :=
  if (b =? 0)%Z then Failed (Builtin ZeroDivisionError)
  else Done (div (of_Z a) (of_Z b)).

(** [int(x)] on a Python float: towards zero *)
Definition py_int (x : float) : Result Z :=
  match x with
  | S754_zero _ => Done 0%Z
  | S754_finite s m e =>
      let a := Z.shiftl (Z.pos m) e in
      Done (if s then (- a)%Z else a)
  | S754_infinity _ => Failed (Builtin OverflowError)
  | S754_nan => Failed ValueError
  end.

Definition rbind {A C} (r : Result A) (f : A -> Result C) : Result C :=
  match r with
  | Done a => f a
  | Failed e => Failed e
  end.

(** [int(10 * 30 / n_views)] *)
Definition n_interp_of (n_views : Z) : Result Z :=
  rbind (int_truediv (10 * 30) n_views) py_int.

(** [check] holds on the [fuel] integers from [start] on. *)
Fixpoint holds_from (check : Z -> bool) (start : Z) (fuel : nat) : bool :=
  match fuel with
  | O => true
  | S k => check start && holds_from check (start + 1) k
  end.

(** [np.concatenate(arrays, axis=0)]: no array at all is an error *)
Definition np_concatenate {A} (arrays : list (list A)) : Result (list A) :=
  match arrays with
  | [] => Failed ValueError
  | _ => Done (List.concat arrays)
  end.

(** [a[-1]] *)
Definition index_last {A} (a : list A) : Result A :=
  match rev a with
  | [] => Failed IndexError
  | x :: _ => Done x
  end.

(** [a[i : i + 2]] *)
Definition slice_pair {A} (i : nat) (a : list A) : list A :=
  firstn 2 (skipn i a).

Definition pose_file (mp : string) (iter : Z) (file : string) : Path :=
  [mp; "pose"%string; ours_dir iter; file].

Section SaveInterpolatePose.

Context {T : PoseTools}.

(** The loop [for i in range(n_views - 1)], over the indices [idxs]. *)
Fixpoint interpolate_segments (org_pose : list Np.Pose44) (n_interp : Z)
  (idxs : list nat) : Result (list (list Np.Pose34)) :=
  match idxs with
  | [] => Done []
  | i :: rest =>
      match generate_interpolated_path (slice_pair i org_pose) n_interp with
      | None => Failed (CollaboratorError "generate_interpolated_path")
      | Some tmp_inter_pose =>
          match interpolate_segments org_pose n_interp rest with
          | Done segs => Done (tmp_inter_pose :: segs)
          | Failed e => Failed e
          end
      end
  end.

(** The body of [for p in all_inter_pose]. *)
Definition to_view (p : Np.Pose34) : Np.Pose44 :=
  Np.set_column_3 (Np.set_block_3_3 Np.eye4 p) p.

Definition save_interpolate_pose (mp : string) (iter n_views : Z)
  : Plain unit :=
  (org_pose <- load_poses (pose_file mp iter "pose_optimized.npy") ;;
   act [Visualizer org_pose (map (fun _ => "green"%string) org_pose)
          (pose_file mp iter "poses_optimized.png")] ;;;
   n_interp <- lift_result (n_interp_of n_views) ;;
   segments <- lift_result
     (interpolate_segments org_pose n_interp (range (n_views - 1))) ;;
   joined <- lift_result (np_concatenate segments) ;;
   last_pose <- lift_result (index_last org_pose) ;;
   let all_inter_pose := joined ++ [Np.top3 last_pose] in
   let inter_pose := map to_view all_inter_pose in
   act [Visualizer inter_pose (map (fun _ => "blue"%string) inter_pose)
          (pose_file mp iter "poses_interpolated.png")] ;;;
   save_poses (pose_file mp iter "pose_interpolated.npy") inter_pose)%plain.

End SaveInterpolatePose.

(* ------------------------------------------------------------------ *)
(** ** render_sets without --surf *)

(** The file an action writes, if it writes one.  ([save_time] keeps its
    own file under the model directory; it is not followed here.) *)
Definition written_file (a : Action) : option Path :=
  match a with
  | Run (EvSaveImage _ p) => Some p
  | Run (EvJsonDump _ p) => Some p
  | Visualizer _ _ p => Some p
  | NpSave p _ => Some p
  | Video (VeMimwrite out _ _) => Some out
  | _ => None
  end.

(** The folder [makedirs] is asked for, with all its parents. *)
Definition made_dir (a : Action) : option Path :=
  match a with
  | Run (EvMakedirs p) => Some p
  | _ => None
  end.

Definition is_prefix (dir p : Path) : bool :=
  path_eqb (firstn (List.length dir) p) dir.

(** The entry an action adds to folder [dir]. *)
Definition entry_of (dir : Path) (a : Action) : list string :=
  match written_file a, made_dir a with
  | Some p, _ =>
      if path_eqb (removelast p) dir then [last p EmptyString] else []
  | None, Some p =>
      if (List.length dir <? List.length p)%nat && is_prefix dir p
      then [nth (List.length dir) p EmptyString] else []
  | None, None => []
  end.

Definition makes (dir : Path) (a : Action) : bool :=
  match made_dir a with
  | Some p => is_prefix dir p
  | None => false
  end.

(** What [os.listdir(dir)] finds after the actions [t], in a directory
    tree that started as [before]; [None] when the folder does not
    exist. *)
Definition listdir_after (before : Path -> option (list string))
  (t : list Action) (dir : Path) : option (list string) :=
  let added := flat_map (entry_of dir) t in
  match before dir with
  | Some old => Some (nodup string_dec (old ++ added))
  | None =>
      if existsb (makes dir) t then Some (nodup string_dec added) else None
  end.

(** [os.listdir(dir)] *)
Definition os_listdir (dir : Path) : Plain (list string) :=
  fun w => match listdir_after (dirs w) (trace w) dir with
           | Some names => Done (names, w)
           | None => Failed (Builtin (FileNotFoundError dir))
           end.

Section RenderSetsPlain.

Context {B : Backend} {X : Exporter} {T : PoseTools}.
Variable args : Args.
Variable scene : Scene.
Variable perf_counter : nat -> float.

(** The folder the video is assembled from, and the video. *)
Definition image_folder (iteration : Z) : Path :=
  [model_path args; "interp"%string; ours_dir iteration; "renders"%string].
Definition output_video_file (iteration : Z) : Path :=
  [model_path args; "interp"%string; ours_dir iteration;
   ("interp_" ++ str_of_Z (n_views args) ++ "_view.mp4")%string].

(** [if not skip_train and not args.infer_video and not dataset.eval] *)
Definition renders_train : bool :=
  negb (skip_train args) && negb (infer_video args) && negb (eval args).

(** The first [if]/[else]; the result is the scene as the rest of the
    run finds it. *)
Definition train_or_test (iteration : Z) (gaussians : GaussianModel)
  : Plain GaussianModel :=
  (if renders_train then
     optimized_pose <- load_poses
       (pose_dir args iteration "pose_optimized.npy") ;;
     let viewpoint_stack :=
       loadCameras (map Np.to_matrix optimized_pose)
                   (getTrainCameras scene) in
     act (map Run (render_set (model_path args) "train" (loaded_iter scene)
                     viewpoint_stack gaussians)) ;;;
     pret gaussians
   else
     g <- (if negb (skip_test args) then
             r <- lift_outcome
               (render_set_optimize args (model_path args) "test"
                  (loaded_iter scene) (getTestCameras scene) gaussians
                  perf_counter) ;;
             act (map Run (rs_log (fst r))) ;;;
             pret (rs_gaussians (fst r))
           else pret gaussians) ;;
     act [Run (EvSaveTime (model_path args) "[4] render")] ;;;
     pret g)%plain.

(** [if args.infer_video and not dataset.eval: ...] *)
Definition interp_video (iteration : Z) (gaussians : GaussianModel)
  : Plain unit :=
  pwhen (infer_video args && negb (eval args))
    (save_interpolate_pose (model_path args) iteration (n_views args) ;;;
     interp_pose <- load_poses
       (pose_dir args iteration "pose_interpolated.npy") ;;
     let viewpoint_stack :=
       loadCameras (map Np.to_matrix interp_pose)
                   (getTrainCameras scene) in
     act (map Run (render_set (model_path args) "interp" (loaded_iter scene)
                     viewpoint_stack gaussians)) ;;;
     listing <- os_listdir (image_folder iteration) ;;
     act (map Video (images_to_video listing (image_folder iteration)
                       (output_video_file iteration) 30)))%plain.

(** [render_sets] when [args.surf] is not set. *)
Definition render_sets_plain (iteration : Z) (gaussians : GaussianModel)
  : Plain unit :=
  (g <- train_or_test iteration gaussians ;;
   interp_video iteration g)%plain.

End RenderSetsPlain.

(** Which parts of a trace there are. *)
Definition run_log (t : list Action) : Log :=
  flat_map (fun a => match a with Run e => [e] | _ => [] end) t.
Definition video_log (t : list Action) : list VideoEvent :=
  flat_map (fun a => match a with Video e => [e] | _ => [] end) t.
Definition saved_arrays (t : list Action) : list (Path * list Np.Pose44) :=
  flat_map (fun a => match a with NpSave p a => [(p, a)] | _ => [] end) t.

(** What a log adds to folder [dir], and whether it creates it. *)
Definition entries (dir : Path) (l : Log) : list string :=
  flat_map (entry_of dir) (map Run l).
Definition creates (dir : Path) (l : Log) : bool :=
  existsb (makes dir) (map Run l).

(** The images a trace saves directly inside folder [dir]. *)
Definition in_dir (dir p : Path) : bool := path_eqb (removelast p) dir.
Definition saved_in (dir : Path) (t : list Action) : list Path :=
  filter (in_dir dir) (saved_paths (run_log t)).

(** Fixed interpolation tools and worlds, for concrete runs. *)
Module PlainSamples.

(** Every segment holds [n_interp] copies of the first pose of the pair,
    and a pair of fewer than two poses is refused. *)
#[export] Instance tools : PoseTools := {|
  generate_interpolated_path := fun poses n_interp =>
    match poses with
    | a :: _ :: _ => Some (repeat (Np.top3 a) (Z.to_nat n_interp))
    | _ => None
    end
|}.

Definition pose_at (x : Z) : Np.Pose44 :=
  Np.mkPose44 (Np.mkRow one zero zero (of_Z x))
              (Np.mkRow zero one zero zero)
              (Np.mkRow zero zero one zero)
              (Np.mkRow zero zero zero one).

(** a model directory holding three optimized poses under [ours_7] *)
Definition world3 : World :=
  mkWorld (fun p => if path_eqb p ["out"; "pose"; "ours_7";
                                   "pose_optimized.npy"]%string
                    then Some [pose_at 1; pose_at 2; pose_at 3] else None)
          (fun _ => None) [].

(** the world a call leaves, when it returns *)
Definition world_after (r : Result (unit * World)) : World :=
  match r with
  | Done (_, w) => w
  | Failed _ => mkWorld (fun _ => None) (fun _ => None) []
  end.

Definition world3_interpolated : World :=
  world_after (save_interpolate_pose "out" 7 3 world3).

(** the same poses under [ours_-1] *)
Definition world_default : World :=
  mkWorld (fun p => if path_eqb p ["out"; "pose"; "ours_-1";
                                   "pose_optimized.npy"]%string
                    then Some [pose_at 1; pose_at 2; pose_at 3] else None)
          (fun _ => None) [].

(** [--infer_video --skip_test --n_views 3] *)
Definition video_args : Args :=
  mkArgs "out" false false false true false true false false false
         3 3 1024 50 (S754_finite true 4503599627370496 (-52))
         (S754_finite true 4503599627370496 (-52))
         (S754_finite true 4503599627370496 (-52)).

Definition scene7 : Scene :=
  mkScene [Scripted.view3; Scripted.view3] [Scripted.view3] 7.

Definition clock (k : nat) : float := of_Z (Z.of_nat k).

(** the world after the video run of iteration 7 *)
Definition world3_video : World :=
  world_after (render_sets_plain (B := Scripted.backend)
                 (X := Scripted.exporter) video_args scene7 clock 7
                 Scripted.scene0 world3).

End PlainSamples.

(* ------------------------------------------------------------------ *)
(** ** The masked L1 loss, in the words of the specification *)

(** [utils/loss_utils.py] is not among the sources of this development.
    The loss the specification names, a masked L1 loss between the
    rendering and the ground truth, is written out here: the absolute
    differences, each multiplied by its mask entry, are summed and the
    sum is divided by the sum of the mask. *)
Definition masked_abs (x g m : float) : float := abs (mul (sub x g) m).

Definition tensor_terms (x g m : Tensor) : list float :=
  map (fun t => masked_abs (fst (fst t)) (snd (fst t)) (snd t))
      (combine (combine x g) m).

Definition image_terms (X G M : Image) : list float :=
  flat_map (fun t => tensor_terms (fst (fst t)) (snd (fst t)) (snd t))
           (combine (combine X G) M).

Definition masked_l1 (network_output gt mask : Image) : float :=
  div (fold_left add (image_terms network_output gt mask) zero)
      (fold_left add (List.concat mask) zero).

(** The backend computes its loss that way. *)
Definition loss_is_masked_l1 (B : Backend) : Prop :=
  forall network_output gt mask,
    l1_loss_mask network_output gt mask = masked_l1 network_output gt mask.

(** Two ground truths of one shape that agree wherever the rendering is
    above the threshold; where it is not, the difference to the rendering
    is a finite number for both. *)
Definition pixel_agrees (x g g' : float) : Prop :=
  if gtb x black_hole_threshold then g = g'
  else is_finite (sub x g) = true /\ is_finite (sub x g') = true.

Definition tensor_agrees (x g g' : Tensor) : Prop :=
  List.length g = List.length g'
  /\ Forall (fun t => pixel_agrees (fst t) (fst (snd t)) (snd (snd t)))
            (combine x (combine g g')).

Definition image_agrees (X G G' : Image) : Prop :=
  List.length G = List.length G'
  /\ Forall (fun t => tensor_agrees (fst t) (fst (snd t)) (snd (snd t)))
            (combine X (combine G G')).

(** The scripted backend with the masked L1 loss in the place of its
    loss, and two ground truths for its rendering of [Scripted.view3]. *)
Module MaskedLoss.

Definition backend : Backend := {|
  get_tensor_from_camera := get_tensor_from_camera (Backend := Scripted.backend);
  transpose_0_1 := transpose_0_1 (Backend := Scripted.backend);
  render := render (Backend := Scripted.backend);
  l1_loss_mask := masked_l1;
  autograd := autograd (Backend := Scripted.backend);
  grad_accumulate := grad_accumulate (Backend := Scripted.backend);
  adam_update := adam_update (Backend := Scripted.backend);
  cosine_annealing := cosine_annealing (Backend := Scripted.backend)
|}.

Definition gt_a : Image :=
  [[of_Z 5; of_Z 5; of_Z 5; of_Z 5; of_Z 5; of_Z 5; of_Z 5]].
Definition gt_b : Image :=
  [[of_Z 5; of_Z 9; of_Z 8; of_Z 5; of_Z 7; of_Z 6; of_Z 4]].

End MaskedLoss.

(*ANCHOR-NEW-DEFS*)
(* ------------------------------------------------------------------ *)
(** ** Facts on IEEE comparisons *)

Module FloatFacts.

Ltac cmp_cases :=
  repeat match goal with
  | H : context [Z.compare ?a ?b] |- _ =>
      destruct (Z.compare_spec a b); simpl in H
  | H : context [Pos.compare ?a ?b] |- _ =>
      destruct (Pos.compare_spec a b); simpl in H
  | |- context [Z.compare ?a ?b] => destruct (Z.compare_spec a b); simpl
  | |- context [Pos.compare ?a ?b] => destruct (Pos.compare_spec a b); simpl
  end.

Ltac float_cases x :=
  let s := fresh "s" in
  destruct x as [s | s | | s ? ?]; try destruct s.

Lemma compare_antisym (x y : float) :
  SFcompare y x = option_map CompOpp (SFcompare x y).
Proof.
  float_cases x; float_cases y; simpl; try reflexivity.
  all: change (Pos.compare_cont Eq ?a ?b) with (Pos.compare a b).
  all: match goal with
       | |- context [Z.compare ?a ?b] => rewrite (Z.compare_antisym b a)
       end.
  all: match goal with
       | |- context [Pos.compare ?a ?b] => rewrite (Pos.compare_antisym b a)
       end.
  all: repeat match goal with
       | |- context [Z.compare ?a ?b] => destruct (Z.compare a b); simpl
       | |- context [Pos.compare ?a ?b] => destruct (Pos.compare a b); simpl
       end; reflexivity.
Qed.

Lemma leb_trans (x y z : float) :
  leb x y = true -> leb y z = true -> leb x z = true.
Proof.
  unfold leb, SFleb.
  float_cases x; float_cases y; float_cases z; simpl;
    try discriminate; try reflexivity.
  all: change (Pos.compare_cont Eq ?a ?b) with (Pos.compare a b).
  all: intros H1 H2; cmp_cases; subst;
    try discriminate; try reflexivity; try lia.
Qed.

Lemma leb_refl (x : float) : is_nan x = false -> leb x x = true.
Proof.
  unfold leb, SFleb.
  float_cases x; simpl; try discriminate; try reflexivity.
  all: intros _; rewrite Z.compare_refl.
  all: change (Pos.compare_cont Eq ?a ?b) with (Pos.compare a b).
  all: rewrite Pos.compare_refl; reflexivity.
Qed.

Lemma ltb_leb (x y : float) : ltb x y = true -> leb x y = true.
Proof.
  unfold ltb, leb, SFltb, SFleb.
  destruct (SFcompare x y) as [[ | | ] | ]; congruence.
Qed.

(** A strict comparison that succeeds has numbers on both sides. *)
Lemma ltb_not_nan (x y : float) :
  ltb x y = true -> is_nan x = false /\ is_nan y = false.
Proof.
  unfold ltb, SFltb.
  destruct x, y; simpl; try discriminate; auto.
Qed.

(** On numbers the order is total: what is not below is above or equal. *)
Lemma not_ltb_leb (x y : float) :
  is_nan x = false -> is_nan y = false -> ltb x y = false -> leb y x = true.
Proof.
  unfold ltb, leb, SFltb, SFleb. intros Hx Hy.
  rewrite (compare_antisym x y).
  destruct (SFcompare x y) as [[ | | ] | ] eqn:E; simpl; try congruence.
  destruct x, y; simpl in *; try discriminate;
    repeat match goal with
    | b : bool |- _ => destruct b
    end; discriminate.
Qed.

(** An equal pair is not strictly ordered: the case of a tie. *)
Lemma eqb_not_ltb (x y : float) : SFeqb x y = true -> ltb x y = false.
Proof.
  unfold ltb, SFltb, SFeqb.
  destruct (SFcompare x y) as [[ | | ] | ]; congruence.
Qed.

Lemma leb_not_ltb (x y : float) : leb x y = true -> ltb y x = false.
Proof.
  unfold ltb, leb, SFltb, SFleb. rewrite (compare_antisym x y).
  destruct (SFcompare x y) as [[ | | ] | ]; simpl; congruence.
Qed.

Lemma nan_not_leb (x : float) : leb x nan = false.
Proof. unfold leb, SFleb. destruct x; reflexivity. Qed.

End FloatFacts.

(* ------------------------------------------------------------------ *)
(** ** The best-candidate tracker *)

Section TrackerFacts.

Context {B : Backend}.
Variables (v : View) (gt : Image).

Lemma after_S (s : LoopSt) (k : nat) :
  after v gt s (S k) = refine_step v gt (after v gt s k) k.
Proof.
  unfold after. rewrite seq_S, fold_left_app. reflexivity.
Qed.

Lemma refine_loop_after (n : Z) (s : LoopSt) :
  refine_loop v gt n s = after v gt s (Z.to_nat n).
Proof. reflexivity. Qed.

Lemma capture_initial_min (i : nat) (x : float) (t : Tracker) :
  current_min_loss (capture_initial i x t) = current_min_loss t
  /\ candidate_q (capture_initial i x t) = candidate_q t
  /\ candidate_T (capture_initial i x t) = candidate_T t.
Proof. unfold capture_initial. destruct (Nat.eqb i 0); auto. Qed.

(** The tracker after one pass, when the loss improves on the minimum. *)
Lemma step_improves (s : LoopSt) (i : nat) :
  ltb (step_loss v gt s) (current_min_loss (tracker s)) = true ->
  let s' := refine_step v gt s i in
  current_min_loss (tracker s') = step_loss v gt s
  /\ candidate_q (tracker s') = data (camera_tensor_q (heap s'))
  /\ candidate_T (tracker s') = data (camera_tensor_T (heap s')).
Proof.
  intros H. simpl. unfold track.
  destruct (capture_initial_min i (step_loss v gt s) (tracker s)) as [E _].
  rewrite E, H. simpl. auto.
Qed.

(** ... and when it does not. *)
Lemma step_keeps (s : LoopSt) (i : nat) :
  ltb (step_loss v gt s) (current_min_loss (tracker s)) = false ->
  let s' := refine_step v gt s i in
  current_min_loss (tracker s') = current_min_loss (tracker s)
  /\ candidate_q (tracker s') = candidate_q (tracker s)
  /\ candidate_T (tracker s') = candidate_T (tracker s).
Proof.
  intros H. simpl. unfold track.
  destruct (capture_initial_min i (step_loss v gt s) (tracker s))
    as [E Ec].
  rewrite E, H. rewrite E. exact (conj eq_refl Ec).
Qed.

(** The recorded minimum is a number as long as it started as one, and
    one pass never raises it. *)
Lemma step_min_number (s : LoopSt) (i : nat) :
  is_nan (current_min_loss (tracker s)) = false ->
  is_nan (current_min_loss (tracker (refine_step v gt s i))) = false.
Proof.
  intros Hn.
  destruct (ltb (step_loss v gt s) (current_min_loss (tracker s))) eqn:E.
  - destruct (step_improves s i E) as [-> _].
    exact (proj1 (FloatFacts.ltb_not_nan _ _ E)).
  - destruct (step_keeps s i E) as [-> _]. exact Hn.
Qed.

Lemma step_min_le (s : LoopSt) (i : nat) :
  is_nan (current_min_loss (tracker s)) = false ->
  leb (current_min_loss (tracker (refine_step v gt s i)))
      (current_min_loss (tracker s)) = true.
Proof.
  intros Hn.
  destruct (ltb (step_loss v gt s) (current_min_loss (tracker s))) eqn:E.
  - destruct (step_improves s i E) as [-> _].
    apply FloatFacts.ltb_leb, E.
  - destruct (step_keeps s i E) as [-> _].
    apply FloatFacts.leb_refl, Hn.
Qed.

(** Right after a pass the minimum is at most the loss of that pass,
    when that loss is a number. *)
Lemma step_min_le_loss (s : LoopSt) (i : nat) :
  is_nan (current_min_loss (tracker s)) = false ->
  is_nan (step_loss v gt s) = false ->
  leb (current_min_loss (tracker (refine_step v gt s i)))
      (step_loss v gt s) = true.
Proof.
  intros Hn Hl.
  destruct (ltb (step_loss v gt s) (current_min_loss (tracker s))) eqn:E.
  - destruct (step_improves s i E) as [-> _].
    apply FloatFacts.leb_refl, Hl.
  - destruct (step_keeps s i E) as [-> _].
    apply FloatFacts.not_ltb_leb; assumption.
Qed.

Lemma after_min_number (s : LoopSt) (k : nat) :
  is_nan (current_min_loss (tracker s)) = false ->
  is_nan (current_min_loss (tracker (after v gt s k))) = false.
Proof.
  intros Hn. induction k as [ | k IH]; [exact Hn | ].
  rewrite after_S. apply step_min_number, IH.
Qed.

Lemma after_min_antitone (s : LoopSt) (k d : nat) :
  is_nan (current_min_loss (tracker s)) = false ->
  leb (current_min_loss (tracker (after v gt s (d + k))))
      (current_min_loss (tracker (after v gt s k))) = true.
Proof.
  intros Hn. induction d as [ | d IH]; simpl.
  - apply FloatFacts.leb_refl, after_min_number, Hn.
  - rewrite after_S.
    eapply FloatFacts.leb_trans; [ | exact IH].
    apply step_min_le, after_min_number, Hn.
Qed.

Lemma after_min_le_loss (s : LoopSt) (k n : nat) :
  is_nan (current_min_loss (tracker s)) = false ->
  (k < n)%nat ->
  is_nan (step_loss v gt (after v gt s k)) = false ->
  leb (current_min_loss (tracker (after v gt s n)))
      (step_loss v gt (after v gt s k)) = true.
Proof.
  intros Hn Hk Hl.
  replace n with ((n - S k) + S k)%nat by lia.
  eapply FloatFacts.leb_trans.
  - apply after_min_antitone, Hn.
  - rewrite after_S. apply step_min_le_loss; [ | exact Hl].
    apply after_min_number, Hn.
Qed.

End TrackerFacts.

(** C1 (as amended).  In the refinement of one view the tracker starts at
    1e20 and changes only in a pass whose loss is strictly below the
    recorded minimum: it then takes that loss and a copy of the pose the
    optimizer has just produced; in every other pass, a tie included, the
    minimum and both candidate tensors stay as they are.  The recorded
    minimum therefore never increases from one pass to the next, and after
    any number of passes it is at most every loss observed so far that is a
    number, the first one in particular. *)
Theorem best_candidate_tracking {B : Backend}
  (v : View) (gt : Image) (g : GaussianModel) (num_iter : Z) (l : Log) :
  let s0 := refine_init v g num_iter l in
  let st := after v gt s0 in
  let loss := fun k => step_loss v gt (st k) in
  let best := fun k => current_min_loss (tracker (st k)) in
  refine_loop v gt num_iter s0 = st (Z.to_nat num_iter)
  /\ best 0%nat = float_1e20
  /\ (forall k, ltb (loss k) (best k) = true ->
        best (S k) = loss k
        /\ candidate_q (tracker (st (S k)))
           = data (camera_tensor_q (heap (st (S k))))
        /\ candidate_T (tracker (st (S k)))
           = data (camera_tensor_T (heap (st (S k)))))
  /\ (forall k, ltb (loss k) (best k) = false ->
        best (S k) = best k
        /\ candidate_q (tracker (st (S k))) = candidate_q (tracker (st k))
        /\ candidate_T (tracker (st (S k))) = candidate_T (tracker (st k)))
  /\ (forall k, SFeqb (loss k) (best k) = true ->
        best (S k) = best k
        /\ candidate_q (tracker (st (S k))) = candidate_q (tracker (st k))
        /\ candidate_T (tracker (st (S k))) = candidate_T (tracker (st k)))
  /\ (forall k, leb (best (S k)) (best k) = true)
  /\ (forall k n, (k < n)%nat -> is_nan (loss k) = false ->
        leb (best n) (loss k) = true)
  /\ (forall n, (0 < n)%nat -> is_nan (step_loss v gt s0) = false ->
        leb (best n) (step_loss v gt s0) = true).
Proof.
  intros s0 st loss best.
  assert (H0 : is_nan (current_min_loss (tracker s0)) = false)
    by reflexivity.
  split; [apply refine_loop_after | ].
  split; [reflexivity | ].
  split.
  { intros k H. unfold best, st. rewrite after_S.
    apply (step_improves v gt _ k H). }
  split.
  { intros k H. unfold best, st. rewrite after_S.
    apply (step_keeps v gt _ k H). }
  split.
  { intros k H. unfold best, st. rewrite after_S.
    apply (step_keeps v gt _ k), FloatFacts.eqb_not_ltb, H. }
  split.
  { intros k. unfold best, st. rewrite after_S.
    apply step_min_le, after_min_number, H0. }
  split.
  { intros k n Hk Hl. apply after_min_le_loss; assumption. }
  intros n Hn Hl.
  apply (after_min_le_loss v gt s0 0 n H0 Hn Hl).
Qed.

(** One pass over the scripted view: the first loss is 3, below 1e20. *)
Lemma best_candidate_tracking_witness :
  leb (current_min_loss
         (tracker (after (B := Scripted.backend) Scripted.view3 []
                     (refine_init (B := Scripted.backend) Scripted.view3
                        Scripted.scene0 1 []) 1)))
      (step_loss (B := Scripted.backend) Scripted.view3 []
         (refine_init (B := Scripted.backend) Scripted.view3
            Scripted.scene0 1 [])) = true.
Proof.
  apply (best_candidate_tracking (B := Scripted.backend)
           Scripted.view3 [] Scripted.scene0 1 []).
  - lia.
  - reflexivity.
Defined.

(** C1, as first stated, fails when the first loss is NaN: the comparison
    [loss < current_min_loss] is false, the tracker keeps 1e20, and 1e20 is
    not below or equal to NaN. *)
Lemma nan_first_loss_not_bounded :
  step_loss (B := Scripted.backend) Scripted.view_nan []
    (refine_init (B := Scripted.backend) Scripted.view_nan
       Scripted.scene0 1 []) = nan
  /\ current_min_loss
       (tracker (refine_loop (B := Scripted.backend) Scripted.view_nan [] 1
                   (refine_init (B := Scripted.backend) Scripted.view_nan
                      Scripted.scene0 1 [])))
     = float_1e20
  /\ leb (current_min_loss
            (tracker (refine_loop (B := Scripted.backend) Scripted.view_nan
                        [] 1
                        (refine_init (B := Scripted.backend)
                           Scripted.view_nan Scripted.scene0 1 []))))
         (step_loss (B := Scripted.backend) Scripted.view_nan []
            (refine_init (B := Scripted.backend) Scripted.view_nan
               Scripted.scene0 1 [])) = false.
Proof. repeat split; vm_compute; reflexivity. Qed.

(* ------------------------------------------------------------------ *)
(** ** Which pose the saved rendering uses *)

Section CandidateOrigin.

Context {B : Backend}.
Variables (v : View) (gt : Image) (s0 : LoopSt).
Hypothesis start_number : is_nan (current_min_loss (tracker s0)) = false.

Let st := after v gt s0.
Let loss := fun k => step_loss v gt (st k).
Let best := fun k => current_min_loss (tracker (st k)).

(** Either no pass has improved on the start and the candidate is still
    the one the loop started with, or the candidate is a copy of the live
    pose as the last improving pass left it. *)
Lemma candidate_origin (n : nat) :
  ((forall k, (k < n)%nat -> ltb (loss k) (best k) = false)
   /\ candidate_q (tracker (st n)) = candidate_q (tracker s0)
   /\ candidate_T (tracker (st n)) = candidate_T (tracker s0)
   /\ best n = current_min_loss (tracker s0))
  \/ (exists k, (k < n)%nat
      /\ ltb (loss k) (best k) = true
      /\ (forall j, (k < j < n)%nat -> ltb (loss j) (best j) = false)
      /\ candidate_q (tracker (st n))
         = data (camera_tensor_q (heap (st (S k))))
      /\ candidate_T (tracker (st n))
         = data (camera_tensor_T (heap (st (S k))))
      /\ best n = loss k).
Proof.
  unfold best, loss, st.
  induction n as [ | n IH].
  - left. repeat split; try reflexivity. intros k Hk. lia.
  - destruct (ltb (step_loss v gt (after v gt s0 n))
                  (current_min_loss (tracker (after v gt s0 n)))) eqn:E.
    + right. exists n.
      destruct (step_improves v gt _ n E) as (Hb & Hq & HT).
      rewrite after_S.
      repeat split; try assumption; try lia.
    + destruct (step_keeps v gt _ n E) as (Hb & Hq & HT).
      rewrite after_S.
      destruct IH as [(Hno & Iq & IT & Ib) | (k & Hk & Hi & Hno & Iq & IT & Ib)].
      * left. rewrite Hb, Hq, HT. repeat split; try assumption.
        intros k Hk. destruct (Nat.eq_dec k n) as [-> | Hne].
        -- exact E.
        -- apply Hno. lia.
      * right. exists k. rewrite Hb, Hq, HT.
        repeat split; try assumption; try lia.
        intros j Hj. destruct (Nat.eq_dec j n) as [-> | Hne].
        -- exact E.
        -- apply Hno. lia.
Qed.

(** No loss observed in the first [n] passes is strictly below the
    minimum recorded after them. *)
Lemma nothing_below_best (n j : nat) :
  (j < n)%nat -> ltb (loss j) (best n) = false.
Proof.
  intros Hj. unfold best, loss, st.
  destruct (is_nan (step_loss v gt (after v gt s0 j))) eqn:En.
  - match goal with |- ?c = false => destruct c eqn:E end;
      [ | reflexivity].
    apply FloatFacts.ltb_not_nan in E. destruct E as [E _]. congruence.
  - apply FloatFacts.leb_not_ltb.
    apply after_min_le_loss; assumption.
Qed.

End CandidateOrigin.

(** C2.  For every view the refined rendering that is saved is the render
    at the concatenation of [candidate_q] and [candidate_T] as the loop left
    them, and that pose is also what the variable [optimal_pose] holds.  The
    candidate is the pose the loop started from when no pass improved on
    1e20, and otherwise a copy of the live pose taken right after the
    optimizer step of the last pass whose loss was strictly below the
    recorded minimum; no loss observed during the run is strictly below the
    loss recorded with it.  It is not the final optimizer state: on the
    scripted view the losses are 3, 1, 2 and the saved pose differs from the
    pose the optimizer ends with. *)
Theorem saved_rendering_uses_best_candidate {B : Backend}
  (args : Args) (mp name : string) (iteration : Z) (rs : RunSt) (v : View) :
  let n := optim_test_pose_iter args in
  let gt := slice_to 3 (original_image v) in
  let s0 := refine_init v (rs_gaussians rs) n (rs_log rs) in
  let s := refine_loop v gt n s0 in
  let loss := fun k => step_loss v gt (after v gt s0 k) in
  let best := fun k => current_min_loss (tracker (after v gt s0 k)) in
  let best_pose :=
    torch_cat (candidate_q (tracker s)) (candidate_T (tracker s)) in
  let rs' := refine_view args mp name iteration rs v in
  rs_optimal_pose rs' = Some best_pose
  /\ rs_log rs' =
       log s ++
       [EvRender v best_pose;
        EvSaveImage (render v (gaussians (heap s)) best_pose)
          (renders_dir mp name iteration ++ [png (image_name v)]);
        EvSaveImage gt (gt_dir mp name iteration ++ [png (image_name v)])]
  /\ (((forall k, (k < Z.to_nat n)%nat -> ltb (loss k) (best k) = false)
       /\ best_pose = live_pose (heap s0))
      \/ (exists k, (k < Z.to_nat n)%nat
          /\ ltb (loss k) (best k) = true
          /\ (forall j, (k < j < Z.to_nat n)%nat ->
                ltb (loss j) (best j) = false)
          /\ best_pose = live_pose (heap (after v gt s0 (S k)))
          /\ current_min_loss (tracker s) = loss k))
  /\ (forall j, (j < Z.to_nat n)%nat ->
        ltb (loss j) (current_min_loss (tracker s)) = false)
  /\ rs_optimal_pose
       (refine_view (B := Scripted.backend) Scripted.base_args "out" "test"
          7 Scripted.run0 Scripted.view3)
     <> Some (live_pose
                (heap (refine_loop (B := Scripted.backend) Scripted.view3
                         (slice_to 3 (original_image Scripted.view3)) 3
                         (refine_init (B := Scripted.backend) Scripted.view3
                            (rs_gaussians Scripted.run0) 3
                            (rs_log Scripted.run0))))).
Proof.
  intros n gt s0 s loss best best_pose rs'.
  assert (H0 : is_nan (current_min_loss (tracker s0)) = false)
    by reflexivity.
  split; [reflexivity | ].
  split; [reflexivity | ].
  split.
  { unfold best_pose, s. rewrite refine_loop_after.
    destruct (candidate_origin v gt s0 (Z.to_nat n))
      as [(Hno & Iq & IT & _) | (k & Hk & Hi & Hno & Iq & IT & Ib)].
    - left. split; [exact Hno | ]. rewrite Iq, IT. reflexivity.
    - right. exists k. rewrite Iq, IT.
      repeat split; try assumption; apply Hno; assumption. }
  split.
  { intros j Hj. unfold s. rewrite refine_loop_after.
    apply (nothing_below_best v gt s0 H0 (Z.to_nat n) j Hj). }
  vm_compute. discriminate.
Qed.

(** The scripted view refined for three passes: pass 1 improves on pass 0. *)
Lemma saved_rendering_uses_best_candidate_witness :
  ltb (step_loss (B := Scripted.backend) Scripted.view3
         (slice_to 3 (original_image Scripted.view3))
         (after (B := Scripted.backend) Scripted.view3
            (slice_to 3 (original_image Scripted.view3))
            (refine_init (B := Scripted.backend) Scripted.view3
               (freeze Scripted.scene0) 3 []) 2))
      (current_min_loss
         (tracker
            (refine_loop (B := Scripted.backend) Scripted.view3
               (slice_to 3 (original_image Scripted.view3)) 3
               (refine_init (B := Scripted.backend) Scripted.view3
                  (freeze Scripted.scene0) 3 [])))) = false.
Proof.
  apply (saved_rendering_uses_best_candidate (B := Scripted.backend)
           Scripted.base_args "out" "test" 7 Scripted.run0 Scripted.view3).
  vm_compute. lia.
Defined.

(* ------------------------------------------------------------------ *)
(** ** The scene is frozen *)


Lemma freeze_frozen (g : GaussianModel) : frozen (freeze g).
Proof. intros r Hr. destruct r; try discriminate; reflexivity. Qed.

Lemma set_param_camera (r : ParamRef) (p : Param) (h : Heap) :
  is_scene_ref r = false -> gaussians (set_param r p h) = gaussians h.
Proof. destruct r; try discriminate; reflexivity. Qed.

Lemma fold_left_invariant {A E : Type} (f : A -> E -> A) (P : A -> Prop)
  (l : list E) (a : A) :
  P a -> (forall x e, In e l -> P x -> P (f x e)) -> P (fold_left f l a).
Proof.
  revert a. induction l as [ | e l IH]; intros a Ha Hf; simpl.
  - exact Ha.
  - apply IH.
    + apply Hf; [left; reflexivity | exact Ha].
    + intros x e' He'. apply Hf. right. exact He'.
Qed.

Section Frame.

Context {B : Backend}.

Lemma backward_leaf_scene (v : View) (g : GaussianModel) (pose : Tensor)
  (h : Heap) (r : ParamRef) :
  frozen (gaussians h) ->
  gaussians (backward_leaf v g pose h r) = gaussians h.
Proof.
  intros Hf. unfold backward_leaf.
  destruct (is_scene_ref r) eqn:Er.
  - assert (E : requires_grad (get_param r h) = false).
    { specialize (Hf r Er). destruct r; try discriminate; exact Hf. }
    rewrite E. reflexivity.
  - destruct (requires_grad (get_param r h)); [ | reflexivity].
    apply set_param_camera, Er.
Qed.

Lemma backward_scene (v : View) (pose : Tensor) (h : Heap) :
  frozen (gaussians h) -> gaussians (backward v pose h) = gaussians h.
Proof.
  intros Hf. unfold backward.
  apply (fold_left_invariant _ (fun x => gaussians x = gaussians h));
    [reflexivity | ].
  intros x r _ Hx. rewrite <- Hx.
  apply backward_leaf_scene. rewrite Hx. exact Hf.
Qed.

Lemma step_param_scene (b : float * float) (wd rate : float)
  (acc : list (ParamRef * AdamState) * Heap) (r : ParamRef) :
  is_scene_ref r = false ->
  gaussians (snd (step_param b wd rate acc r)) = gaussians (snd acc).
Proof.
  intros Hr. unfold step_param.
  destruct (grad (get_param r (snd acc))); [ | reflexivity].
  simpl. apply set_param_camera, Hr.
Qed.

Lemma optimizer_step_scene (opt : Optimizer) (h : Heap) :
  camera_only opt ->
  gaussians (snd (optimizer_step opt h)) = gaussians h.
Proof.
  intros Hc. unfold optimizer_step. simpl.
  apply (fold_left_invariant _
           (fun acc => gaussians (snd acc) = gaussians h));
    [reflexivity | ].
  intros acc grp Hgrp Hacc. unfold step_group.
  apply (fold_left_invariant _
           (fun acc => gaussians (snd acc) = gaussians h));
    [exact Hacc | ].
  intros acc' r Hr Hacc'. rewrite <- Hacc'.
  apply step_param_scene.
  unfold camera_only, registered in Hc.
  rewrite Forall_forall in Hc. apply Hc.
  apply in_flat_map. exists grp. split; assumption.
Qed.

Lemma optimizer_step_registered (opt : Optimizer) (h : Heap) :
  registered (fst (optimizer_step opt h)) = registered opt.
Proof. reflexivity. Qed.

Lemma zero_grad_scene (opt : Optimizer) (h : Heap) :
  camera_only opt -> gaussians (zero_grad opt h) = gaussians h.
Proof.
  intros Hc. unfold zero_grad.
  apply (fold_left_invariant _ (fun x => gaussians x = gaussians h));
    [reflexivity | ].
  intros x r Hr Hx. rewrite <- Hx.
  apply set_param_camera.
  unfold camera_only in Hc. rewrite Forall_forall in Hc. apply Hc, Hr.
Qed.

Lemma scheduler_step_camera_only (sch : Scheduler) (opt : Optimizer) :
  camera_only opt -> camera_only (snd (scheduler_step sch opt)).
Proof.
  unfold camera_only, registered. rewrite !Forall_forall.
  intros Hc r Hr. simpl in Hr.
  apply in_flat_map in Hr. destruct Hr as (grp & Hgrp & Hr).
  apply in_map_iff in Hgrp. destruct Hgrp as ((g0 & b0) & <- & Hin).
  simpl in Hr. apply Hc, in_flat_map. exists g0. split; [ | exact Hr].
  apply (in_combine_l _ _ _ _ Hin).
Qed.

(** One pass leaves the scene as it found it. *)
Lemma refine_step_scene (v : View) (gt : Image) (s : LoopSt) (i : nat) :
  frozen (gaussians (heap s)) -> camera_only (pose_optimizer s) ->
  gaussians (heap (refine_step v gt s i)) = gaussians (heap s)
  /\ camera_only (pose_optimizer (refine_step v gt s i)).
Proof.
  intros Hf Hc. unfold refine_step. cbn [heap pose_optimizer].
  unfold stepped. cbn [fst snd]. split.
  - rewrite zero_grad_scene by exact Hc.
    rewrite optimizer_step_scene by exact Hc.
    apply backward_scene, Hf.
  - apply scheduler_step_camera_only. exact Hc.
Qed.

Lemma after_scene (v : View) (gt : Image) (s : LoopSt) (k : nat) :
  frozen (gaussians (heap s)) -> camera_only (pose_optimizer s) ->
  gaussians (heap (after v gt s k)) = gaussians (heap s)
  /\ camera_only (pose_optimizer (after v gt s k)).
Proof.
  intros Hf Hc. induction k as [ | k [IHg IHc]].
  - split; [reflexivity | exact Hc].
  - rewrite after_S.
    destruct (refine_step_scene v gt (after v gt s k) k) as [Eg Ec];
      [rewrite IHg; exact Hf | exact IHc | ].
    split; [rewrite Eg; exact IHg | exact Ec].
Qed.

Lemma refine_init_camera_only (v : View) (g : GaussianModel) (n : Z)
  (l : Log) : camera_only (pose_optimizer (refine_init v g n l)).
Proof. repeat constructor. Qed.

Lemma refine_view_scene (args : Args) (mp name : string) (iteration : Z)
  (rs : RunSt) (v : View) :
  frozen (rs_gaussians rs) ->
  rs_gaussians (refine_view args mp name iteration rs v) = rs_gaussians rs.
Proof.
  intros Hf. unfold refine_view. simpl. rewrite refine_loop_after.
  apply (after_scene v _ (refine_init v (rs_gaussians rs) _ (rs_log rs)));
    [exact Hf | apply refine_init_camera_only].
Qed.

Lemma refine_all_scene (args : Args) (mp name : string) (iteration : Z)
  (views : list View) (g : GaussianModel) :
  rs_gaussians (refine_all args mp name iteration views g) = freeze g.
Proof.
  unfold refine_all.
  apply (fold_left_invariant _ (fun rs => rs_gaussians rs = freeze g));
    [reflexivity | ].
  intros rs v _ Hrs. rewrite <- Hrs. apply refine_view_scene.
  rewrite Hrs. apply freeze_frozen.
Qed.

Lemma fps_block_scene (args : Args) (mp : string) (perf : nat -> float)
  (rs rs' : RunSt) (fps : option float) :
  fps_block args mp perf rs = Ok (rs', fps) ->
  rs_gaussians rs' = rs_gaussians rs.
Proof.
  unfold fps_block. destruct (test_fps args).
  - destruct (fold_left _ _ _) as [fl | e]; simpl; [ | discriminate].
    destruct (Probe.fps_of (fst fl)) as [x | e]; simpl; [ | discriminate].
    intros H. injection H as <- _. reflexivity.
  - intros H. injection H as <- _. reflexivity.
Qed.

End Frame.

(** C3.  [render_set_optimize] switches gradient tracking off on the six
    scene tensors before its loop and changes nothing else in them; the
    optimizer of every view is built over [camera_tensor_T] and
    [camera_tensor_q] only; and whatever the views and the collaborators,
    the scene after any number of passes, after the backward pass of any
    pass, at the end of the outer loop and in the value returned is the
    frozen scene it started with: same data, no gradient received. *)
Theorem scene_parameters_frozen {B : Backend}
  (args : Args) (mp name : string) (iteration : Z) (views : list View)
  (g : GaussianModel) :
  (forall r, is_scene_ref r = true ->
     requires_grad (get_scene r (freeze g)) = false
     /\ data (get_scene r (freeze g)) = data (get_scene r g)
     /\ grad (get_scene r (freeze g)) = grad (get_scene r g))
  /\ (forall v n l,
        registered (pose_optimizer (refine_init v (freeze g) n l))
        = [CameraT; CameraQ])
  /\ (forall v gt n l k,
        let s := after v gt (refine_init v (freeze g) n l) k in
        gaussians (heap s) = freeze g
        /\ gaussians (backward v (live_pose (heap s)) (heap s)) = freeze g
        /\ camera_only (pose_optimizer s))
  /\ rs_gaussians (refine_all args mp name iteration views g) = freeze g
  /\ (forall perf rs fps,
        render_set_optimize args mp name iteration views g perf
        = Ok (rs, fps) ->
        rs_gaussians rs = freeze g).
Proof.
  split.
  { intros r Hr. destruct r; try discriminate; repeat split. }
  split; [reflexivity | ].
  split.
  { intros v gt n l k s.
    destruct (after_scene v gt (refine_init v (freeze g) n l) k) as [Eg Ec];
      [apply freeze_frozen | apply refine_init_camera_only | ].
    fold s in Eg, Ec. split; [exact Eg | ]. split; [ | exact Ec].
    rewrite backward_scene; [exact Eg | ].
    rewrite Eg. apply freeze_frozen. }
  split; [apply refine_all_scene | ].
  intros perf rs fps H. unfold render_set_optimize in H.
  apply fps_block_scene in H. rewrite H. apply refine_all_scene.
Qed.

(** The scripted view refined for three passes, probe off. *)
Lemma scene_parameters_frozen_witness :
  rs_gaussians
    (refine_all (B := Scripted.backend) Scripted.base_args "out" "test" 7
       [Scripted.view3] Scripted.scene0)
  = freeze Scripted.scene0.
Proof.
  apply (proj2 (proj2 (proj2 (proj2
           (scene_parameters_frozen (B := Scripted.backend)
              Scripted.base_args "out" "test" 7 [Scripted.view3]
              Scripted.scene0))))
           (fun _ => zero) _ None).
  reflexivity.
Defined.

(* ------------------------------------------------------------------ *)
(** ** The masked loss *)

(** A suppressed pixel adds +0 to the sum, whatever its ground truth, as
    long as its difference to the rendering is a finite number. *)
Lemma masked_abs_suppressed (x g : float) :
  is_finite (sub x g) = true -> masked_abs x g zero = zero.
Proof.
  unfold masked_abs, abs, mul.
  destruct (sub x g) as [s | s | | s m e]; try discriminate; intros _;
    destruct s; reflexivity.
Qed.

Lemma tensor_terms_agree (x g g' : Tensor) :
  tensor_agrees x g g' ->
  tensor_terms x g (map (mask_pixel zero) x)
  = tensor_terms x g' (map (mask_pixel zero) x).
Proof.
  unfold tensor_agrees, tensor_terms.
  revert g g'. induction x as [ | a x IH]; intros g g' [Hl Hf];
    [reflexivity | ].
  destruct g as [ | b g], g' as [ | b' g']; try discriminate;
    [reflexivity | ].
  cbn [combine map fst snd] in *.
  apply Forall_cons_iff in Hf. destruct Hf as [Hp Hf]. cbn [fst snd] in Hp.
  f_equal.
  - unfold pixel_agrees, black_hole_threshold in Hp. unfold mask_pixel.
    destruct (gtb a zero); [rewrite Hp; reflexivity | ].
    destruct Hp as [H1 H2].
    rewrite !masked_abs_suppressed by assumption. reflexivity.
  - apply IH. split; [ | exact Hf]. cbn [List.length] in Hl. lia.
Qed.

Lemma image_terms_agree (X G G' : Image) :
  image_agrees X G G' ->
  image_terms X G (threshold_mask zero X)
  = image_terms X G' (threshold_mask zero X).
Proof.
  unfold image_agrees, image_terms, threshold_mask.
  revert G G'. induction X as [ | x X IH]; intros G G' [Hl Hf];
    [reflexivity | ].
  destruct G as [ | g G], G' as [ | g' G']; try discriminate;
    [reflexivity | ].
  cbn [combine map flat_map fst snd] in *.
  apply Forall_cons_iff in Hf. destruct Hf as [Hp Hf]. cbn [fst snd] in Hp.
  f_equal.
  - apply tensor_terms_agree, Hp.
  - apply IH. split; [ | exact Hf]. cbn [List.length] in Hl. lia.
Qed.

(** C4.  At every refinement step the loss is [l1_loss_mask] of the
    rendering, the ground truth and the mask of the rendering at threshold
    0.0.  The mask has the shape of the rendering; its entry is 1 exactly
    where the rendered value is strictly greater than 0.0 and 0 everywhere
    else, so a value rendered at zero (of either sign) has mask 0, as has
    a NaN.  What the mask suppresses is more than the values below the
    threshold: 0.0 itself is not below 0.0 and is suppressed.  For a
    backend whose [l1_loss_mask] is the masked L1 loss of the
    specification, the loss of the step is that masked L1 loss, a
    suppressed pixel contributes +0 to it, and the loss is the same for
    two ground truths that agree on the pixels rendered above 0.0: the
    pixels rendered at zero are excluded from the loss. *)
Theorem mask_is_strictly_positive_pixels {B : Backend}
  (v : View) (gt : Image) (s : LoopSt) :
  black_hole_threshold = zero
  /\ step_loss v gt s
     = l1_loss_mask (step_rendering v s) gt
         (threshold_mask zero (step_rendering v s))
  /\ (forall (img : Image) c i,
        nth i (nth c (threshold_mask zero img) []) zero
        = if (c <? List.length img)%nat
             && (i <? List.length (nth c img []))%nat
          then mask_pixel zero (nth i (nth c img []) zero)
          else zero)
  /\ (forall x, (mask_pixel zero x = one <-> gtb x zero = true)
                /\ (mask_pixel zero x = zero <-> gtb x zero = false))
  /\ (forall x, is_zero x = true -> mask_pixel zero x = zero)
  /\ mask_pixel zero nan = zero
  /\ (forall x, ltb x zero = true -> mask_pixel zero x = zero)
  /\ (ltb zero black_hole_threshold = false
      /\ mask_pixel black_hole_threshold zero = zero)
  /\ (loss_is_masked_l1 B ->
      step_loss v gt s
      = masked_l1 (step_rendering v s) gt
          (threshold_mask zero (step_rendering v s))
      /\ (forall x g,
            is_zero x = true -> is_finite g = true ->
            masked_abs x g (mask_pixel zero x) = zero)
      /\ (forall x g,
            gtb x zero = false -> is_finite (sub x g) = true ->
            masked_abs x g (mask_pixel zero x) = zero)
      /\ (forall gt',
            image_agrees (step_rendering v s) gt gt' ->
            step_loss v gt' s = step_loss v gt s)).
Proof.
  split; [reflexivity | ].
  split; [reflexivity | ].
  split.
  { intros img c i. unfold threshold_mask.
    destruct (c <? List.length img)%nat eqn:Ec; simpl.
    - apply Nat.ltb_lt in Ec.
      rewrite (nth_indep _ [] (map (mask_pixel zero) []))
        by (rewrite length_map; exact Ec).
      rewrite map_nth.
      destruct (i <? List.length (nth c img []))%nat eqn:Ei.
      + apply Nat.ltb_lt in Ei.
        rewrite (nth_indep _ zero (mask_pixel zero zero))
          by (rewrite length_map; exact Ei).
        apply map_nth.
      + apply Nat.ltb_ge in Ei. apply nth_overflow.
        rewrite length_map. exact Ei.
    - apply Nat.ltb_ge in Ec.
      rewrite (nth_overflow (map _ img)) by (rewrite length_map; exact Ec).
      destruct i; reflexivity. }
  split.
  { intros x. unfold mask_pixel.
    destruct (gtb x zero); split; split; intros H;
      try reflexivity; try discriminate. }
  split.
  { intros x Hx. destruct x; try discriminate; reflexivity. }
  split; [reflexivity | ].
  split.
  { intros x Hx. unfold mask_pixel, gtb.
    change (SFltb zero x) with (ltb zero x).
    rewrite (FloatFacts.leb_not_ltb x zero); [reflexivity | ].
    apply FloatFacts.ltb_leb, Hx. }
  split; [split; reflexivity | ].
  intros Hl. split; [unfold step_loss; apply Hl | ].
  split.
  { intros x g Hx Hg.
    destruct x as [sx | | | ]; try discriminate.
    change (mask_pixel zero (S754_zero sx)) with zero.
    apply masked_abs_suppressed.
    destruct g as [sg | | | sg mg eg]; try discriminate;
      destruct sx, sg; reflexivity. }
  split.
  { intros x g Hx Hf. unfold mask_pixel. rewrite Hx.
    apply masked_abs_suppressed, Hf. }
  intros gt' Ha. unfold step_loss, black_hole_threshold.
  rewrite !Hl. unfold masked_l1.
  rewrite (image_terms_agree _ _ _ Ha). reflexivity.
Qed.

(** The masked L1 loss of the scripted rendering [3; 0; 0; 1; 0; 0; 0]:
    two ground truths that differ where the rendering is 0 give the same
    loss. *)
Lemma mask_is_strictly_positive_pixels_witness :
  step_loss (B := MaskedLoss.backend) Scripted.view3 MaskedLoss.gt_b
    (refine_init (B := MaskedLoss.backend) Scripted.view3
       Scripted.scene0 1 [])
  = step_loss (B := MaskedLoss.backend) Scripted.view3 MaskedLoss.gt_a
      (refine_init (B := MaskedLoss.backend) Scripted.view3
         Scripted.scene0 1 []).
Proof.
  destruct (mask_is_strictly_positive_pixels (B := MaskedLoss.backend)
              Scripted.view3 MaskedLoss.gt_a
              (refine_init (B := MaskedLoss.backend) Scripted.view3
                 Scripted.scene0 1 []))
    as (_ & _ & _ & _ & _ & _ & _ & _ & H).
  destruct (H (fun r g m => eq_refl)) as (_ & _ & _ & Hg).
  apply Hg.
  vm_compute. repeat constructor.
Defined.

(* ------------------------------------------------------------------ *)
(** ** The iteration budget *)


Lemma count_app (p : Event -> bool) (a b : Log) :
  count p (a ++ b) = (count p a + count p b)%nat.
Proof. unfold count. rewrite filter_app, length_app. reflexivity. Qed.

Section Budget.

Context {B : Backend}.
Variables (v : View) (gt : Image).


Lemma refine_step_log (s : LoopSt) (i : nat) :
  log (refine_step v gt s i) = log s ++ pass_events v gt s.
Proof. reflexivity. Qed.

Lemma after_log (s : LoopSt) (k : nat) :
  log (after v gt s k)
  = log s ++ flat_map (fun i => pass_events v gt (after v gt s i)) (seq 0 k).
Proof.
  induction k as [ | k IH].
  - simpl. rewrite app_nil_r. reflexivity.
  - rewrite after_S, refine_step_log, IH, seq_S, flat_map_app.
    cbn [flat_map Nat.add]. rewrite app_nil_r, app_assoc. reflexivity.
Qed.

Lemma after_epoch (s : LoopSt) (k : nat) :
  last_epoch (scheduler (after v gt s k)) = (last_epoch (scheduler s) + k)%nat.
Proof.
  induction k as [ | k IH].
  - unfold after. simpl. lia.
  - rewrite after_S.
    change (last_epoch (scheduler (refine_step v gt (after v gt s k) k)))
      with (S (last_epoch (scheduler (after v gt s k)))).
    rewrite IH. lia.
Qed.

Lemma passes_count (p : Event -> bool) (c : nat) (s : LoopSt) (k : nat) :
  (forall s', count p (pass_events v gt s') = c) ->
  count p (flat_map (fun i => pass_events v gt (after v gt s i)) (seq 0 k))
  = (k * c)%nat.
Proof.
  intros Hc. generalize 0%nat as a.
  induction k as [ | k IH]; intros a; [reflexivity | ].
  cbn [seq flat_map]. rewrite count_app, Hc, IH. lia.
Qed.

End Budget.

(** C5.  Whatever the renderer, the loss and the optimizer compute, the
    inner loop makes exactly [num_iter] passes when [num_iter] is
    non-negative (none when it is negative, as [range] is then empty): the
    log grows by one block of render, loss, backward, optimizer step,
    gradient reset and scheduler step per pass, in this order, so each of
    these happens once per pass, and the scheduler ends [num_iter] epochs
    further.  No loss value can shorten or lengthen the run. *)
Theorem fixed_iteration_budget {B : Backend}
  (v : View) (gt : Image) (num_iter : Z) (s : LoopSt) :
  let n := Z.to_nat num_iter in
  let s' := refine_loop v gt num_iter s in
  List.length (range num_iter) = n
  /\ ((0 <= num_iter)%Z -> Z.of_nat n = num_iter)
  /\ ((num_iter < 0)%Z -> n = 0%nat /\ s' = s)
  /\ log s' = log s ++ flat_map (fun i => pass_events v gt (after v gt s i))
                                (seq 0 n)
  /\ count is_render (log s') = (count is_render (log s) + n)%nat
  /\ count is_loss (log s') = (count is_loss (log s) + n)%nat
  /\ count is_backward (log s') = (count is_backward (log s) + n)%nat
  /\ count is_optimizer_step (log s')
     = (count is_optimizer_step (log s) + n)%nat
  /\ count is_scheduler_step (log s')
     = (count is_scheduler_step (log s) + n)%nat
  /\ last_epoch (scheduler s') = (last_epoch (scheduler s) + n)%nat.
Proof.
  intros n s'.
  assert (Hlog := after_log v gt s n).
  split; [apply length_seq | ].
  split; [intros H; apply Z2Nat.id, H | ].
  split.
  { intros H. assert (E : n = 0%nat) by (unfold n; lia).
    split; [exact E | ]. unfold s'. rewrite refine_loop_after.
    fold n. rewrite E. reflexivity. }
  unfold s'. rewrite refine_loop_after. fold n.
  split; [exact Hlog | ].
  rewrite Hlog, !count_app.
  rewrite (passes_count v gt is_render 1), (passes_count v gt is_loss 1),
    (passes_count v gt is_backward 1),
    (passes_count v gt is_optimizer_step 1),
    (passes_count v gt is_scheduler_step 1) by reflexivity.
  rewrite Nat.mul_1_r.
  repeat split; try reflexivity. apply after_epoch.
Qed.

(** Three passes over the scripted view. *)
Lemma fixed_iteration_budget_witness :
  Z.of_nat (Z.to_nat 3) = 3%Z.
Proof.
  apply (proj1 (proj2
           (fixed_iteration_budget (B := Scripted.backend) Scripted.view3 []
              3 (refine_init (B := Scripted.backend) Scripted.view3
                   (freeze Scripted.scene0) 3 [])))).
  lia.
Defined.

(* ------------------------------------------------------------------ *)
(** ** The FPS probe and the loop variables it reads *)

Section ProbeState.

Context {B : Backend}.
Variable args : Args.
Variable perf_counter : nat -> float.


Lemma fps_trials_raise (rs : RunSt) (e : Exn) (l : list nat) :
  fold_left (fps_trial perf_counter rs) l (Raise e) = Raise e.
Proof. induction l as [ | i l IH]; [reflexivity | exact IH]. Qed.

Lemma fps_trials_unbound (rs : RunSt) (acc : list float * Log) (i : nat)
  (l : list nat) :
  rs_view rs = None ->
  fold_left (fps_trial perf_counter rs) (i :: l) (Ok acc)
  = Raise (UnboundLocalError "view").
Proof.
  intros H. simpl. rewrite H. apply fps_trials_raise.
Qed.

Lemma fps_trials_bound (rs : RunSt) (v : View) (p : Tensor) (l : list nat) :
  rs_view rs = Some v -> rs_optimal_pose rs = Some p ->
  forall ds lg,
    fold_left (fps_trial perf_counter rs) l (Ok (ds, lg))
    = Ok (ds ++ map (duration perf_counter) l, lg ++ map (fun _ => EvRender v p) l).
Proof.
  intros Hv Hp. induction l as [ | i l IH]; intros ds lg.
  - simpl. rewrite !app_nil_r. reflexivity.
  - simpl. rewrite Hv, Hp. rewrite IH. simpl.
    rewrite <- !app_assoc. reflexivity.
Qed.

Lemma refine_all_snoc (mp name : string) (iteration : Z) (rest : list View)
  (v : View) (g : GaussianModel) :
  refine_all args mp name iteration (rest ++ [v]) g
  = refine_view args mp name iteration
      (refine_all args mp name iteration rest g) v.
Proof. unfold refine_all. rewrite fold_left_app. reflexivity. Qed.

(** After a non-empty run both loop variables are bound. *)
Lemma fps_probe_needs_view_state (mp name : string) (iteration : Z)
  (rest : list View) (v : View) (g : GaussianModel) :
  exists p,
    rs_view (refine_all args mp name iteration (rest ++ [v]) g) = Some v
    /\ rs_optimal_pose (refine_all args mp name iteration (rest ++ [v]) g)
       = Some p.
Proof. rewrite refine_all_snoc. eexists. split; reflexivity. Qed.

End ProbeState.

(** C9.  With [args.test_fps] set, the probe reads the variables [view]
    and [optimal_pose] the outer loop left behind.  Called on no view at
    all, the function raises on the unbound [view] in its first trial and
    measures nothing.  Called on at least one view, the variables hold the
    last view and the pose refined for it, and every one of the 1000 trials
    renders that view at that pose.  A measurement therefore only ever comes
    out of a call that refined at least one view. *)
Theorem fps_probe_reads_last_view {B : Backend}
  (args : Args) (mp name : string) (iteration : Z) (views : list View)
  (g : GaussianModel) (perf_counter : nat -> float) :
  test_fps args = true ->
  (views = [] ->
     render_set_optimize args mp name iteration views g perf_counter
     = Raise (UnboundLocalError "view"))
  /\ (forall rest v, views = rest ++ [v] ->
        let rs := refine_all args mp name iteration views g in
        let before := refine_all args mp name iteration rest g in
        let p := torch_cat
                   (candidate_q (tracker
                      (refine_loop v (slice_to 3 (original_image v))
                         (optim_test_pose_iter args)
                         (refine_init v (rs_gaussians before)
                            (optim_test_pose_iter args) (rs_log before)))))
                   (candidate_T (tracker
                      (refine_loop v (slice_to 3 (original_image v))
                         (optim_test_pose_iter args)
                         (refine_init v (rs_gaussians before)
                            (optim_test_pose_iter args) (rs_log before))))) in
        rs_view rs = Some v
        /\ rs_optimal_pose rs = Some p
        /\ forall lg,
             fold_left (fps_trial perf_counter rs) (seq 0 1000) (Ok ([], lg))
             = Ok (map (duration perf_counter) (seq 0 1000),
                   lg ++ map (fun _ => EvRender v p) (seq 0 1000)))
  /\ (forall rs fps,
        render_set_optimize args mp name iteration views g perf_counter
        = Ok (rs, fps) ->
        views <> []).
Proof.
  intros Hfps.
  assert (Hempty :
    render_set_optimize args mp name iteration [] g perf_counter
    = Raise (UnboundLocalError "view")).
  { unfold render_set_optimize, fps_block. rewrite Hfps.
    change (seq 0 1000) with (0%nat :: seq 1 999).
    rewrite fps_trials_unbound by reflexivity. reflexivity. }
  split; [intros ->; exact Hempty | ].
  split.
  { intros rest v -> rs before p.
    assert (Hv : rs_view rs = Some v)
      by (unfold rs; rewrite refine_all_snoc; reflexivity).
    assert (Hp : rs_optimal_pose rs = Some p)
      by (unfold rs; rewrite refine_all_snoc; reflexivity).
    split; [exact Hv | ]. split; [exact Hp | ].
    intros lg.
    exact (fps_trials_bound perf_counter rs v p (seq 0 1000) Hv Hp [] lg). }
  intros rs fps H Hnil. subst views. rewrite Hempty in H. discriminate.
Qed.

(** The probe switched on and no view to refine. *)
Lemma fps_probe_reads_last_view_witness :
  render_set_optimize (B := Scripted.backend) Scripted.probe_args "out"
    "test" 7 [] Scripted.scene0 (fun k => of_Z (Z.of_nat k))
  = Raise (UnboundLocalError "view").
Proof.
  apply (fps_probe_reads_last_view (B := Scripted.backend)
           Scripted.probe_args "out" "test" 7 [] Scripted.scene0
           (fun k => of_Z (Z.of_nat k))).
  - reflexivity.
  - reflexivity.
Defined.

(* ------------------------------------------------------------------ *)
(** ** render_set: what is written where *)


Lemma is_save_in_same (dir : Path) (img : Image) (file : string) :
  is_save_in dir (EvSaveImage img (dir ++ [file])) = true.
Proof.
  unfold is_save_in. rewrite removelast_last.
  destruct (list_eq_dec string_dec dir dir); congruence.
Qed.

Lemma is_save_in_other (dir dir' : Path) (img : Image) (file : string) :
  dir' <> dir -> is_save_in dir (EvSaveImage img (dir' ++ [file])) = false.
Proof.
  intros H. unfold is_save_in. rewrite removelast_last.
  destruct (list_eq_dec string_dec dir' dir); congruence.
Qed.

Lemma renders_dir_not_gt_dir (mp name : string) (iteration : Z) :
  renders_dir mp name iteration <> gt_dir mp name iteration.
Proof. unfold renders_dir, gt_dir. intros H. discriminate. Qed.

Lemma count_flat_map {A} (p : Event -> bool) (f : A -> list Event)
  (c : nat) (l : list A) :
  (forall x, count p (f x) = c) ->
  count p (flat_map f l) = (List.length l * c)%nat.
Proof.
  intros H. induction l as [ | x l IH]; [reflexivity | ].
  cbn [flat_map List.length]. rewrite count_app, H, IH. lia.
Qed.

Section RenderSetFacts.

Context {B : Backend}.
Variables (mp name : string) (iteration : Z) (g : GaussianModel).


Lemma render_one_log (l : Log) (iv : nat * View) :
  render_one mp name iteration g l iv = l ++ view_events mp name iteration g iv.
Proof.
  unfold render_one, view_events.
  destruct (String.eqb name "interp"); simpl.
  - reflexivity.
  - rewrite <- app_assoc. reflexivity.
Qed.

Lemma render_fold_log (ivs : list (nat * View)) (l : Log) :
  fold_left (render_one mp name iteration g) ivs l
  = l ++ flat_map (view_events mp name iteration g) ivs.
Proof.
  revert l. induction ivs as [ | iv ivs IH]; intros l; simpl.
  - rewrite app_nil_r. reflexivity.
  - rewrite IH, render_one_log, <- app_assoc. reflexivity.
Qed.

Lemma enumerate_length (views : list View) :
  List.length (enumerate views) = List.length views.
Proof.
  unfold enumerate. rewrite length_combine, length_seq. apply Nat.min_id.
Qed.

Lemma view_events_renders (iv : nat * View) :
  count (is_save_in (renders_dir mp name iteration)) (view_events mp name iteration g iv) = 1%nat.
Proof.
  unfold view_events, count. cbn [app filter is_save_in].
  fold (is_save_in (renders_dir mp name iteration)
          (EvSaveImage
             (render (snd iv) g
                (get_tensor_from_camera
                   (transpose_0_1 (world_view_transform (snd iv)))))
             (renders_dir mp name iteration ++ [png (fmt_05d (fst iv))]))).
  rewrite is_save_in_same.
  destruct (String.eqb name "interp"); [reflexivity | ].
  cbn [filter].
  rewrite is_save_in_other; [reflexivity | ].
  intros H. symmetry in H. exact (renders_dir_not_gt_dir _ _ _ H).
Qed.

Lemma view_events_gt (iv : nat * View) :
  count (is_save_in (gt_dir mp name iteration)) (view_events mp name iteration g iv)
  = if String.eqb name "interp" then 0%nat else 1%nat.
Proof.
  unfold view_events, count. cbn [app filter is_save_in].
  fold (is_save_in (gt_dir mp name iteration)
          (EvSaveImage
             (render (snd iv) g
                (get_tensor_from_camera
                   (transpose_0_1 (world_view_transform (snd iv)))))
             (renders_dir mp name iteration ++ [png (fmt_05d (fst iv))]))).
  rewrite is_save_in_other by apply renders_dir_not_gt_dir.
  destruct (String.eqb name "interp"); [reflexivity | ].
  cbn [filter]. rewrite is_save_in_same. reflexivity.
Qed.

Lemma view_events_saves (iv : nat * View) :
  count is_save (view_events mp name iteration g iv)
  = if String.eqb name "interp" then 1%nat else 2%nat.
Proof.
  unfold view_events. destruct (String.eqb name "interp"); reflexivity.
Qed.

End RenderSetFacts.

(** C10.  [render_set] writes, for every view, one rendered image into the
    renders directory, under the zero-padded position of the view; it
    writes the matching ground-truth image into the gt directory for every
    view when the split is not named "interp", and writes nothing there
    when it is: for the interpolated split the only images written are the
    renderings. *)
Theorem render_set_skips_gt_for_interp {B : Backend}
  (mp name : string) (iteration : Z) (views : list View)
  (g : GaussianModel) :
  let l := render_set mp name iteration views g in
  l = [EvMakedirs (renders_dir mp name iteration);
       EvMakedirs (gt_dir mp name iteration)]
      ++ flat_map (view_events mp name iteration g) (enumerate views)
  /\ count (is_save_in (renders_dir mp name iteration)) l = List.length views
  /\ (name <> "interp"%string ->
      count (is_save_in (gt_dir mp name iteration)) l = List.length views
      /\ count is_save l = (2 * List.length views)%nat)
  /\ (name = "interp"%string ->
      count (is_save_in (gt_dir mp name iteration)) l = 0%nat
      /\ count is_save l = List.length views).
Proof.
  intros l.
  assert (E : l = [EvMakedirs (renders_dir mp name iteration);
                   EvMakedirs (gt_dir mp name iteration)]
                  ++ flat_map (view_events mp name iteration g)
                              (enumerate views))
    by apply render_fold_log.
  split; [exact E | ].
  rewrite E, !count_app.
  split.
  { rewrite (count_flat_map _ _ 1) by apply view_events_renders.
    rewrite enumerate_length. change (count _ [_; _]) with 0%nat. lia. }
  split.
  - intros Hn. apply String.eqb_neq in Hn.
    rewrite (count_flat_map (is_save_in _) _ 1)
      by (intros x; rewrite view_events_gt, Hn; reflexivity).
    rewrite (count_flat_map is_save _ 2)
      by (intros x; rewrite view_events_saves, Hn; reflexivity).
    rewrite enumerate_length.
    change (count (is_save_in (gt_dir mp name iteration)) [_; _]) with 0%nat.
    change (count is_save [_; _]) with 0%nat. lia.
  - intros Hn. apply String.eqb_eq in Hn.
    rewrite (count_flat_map (is_save_in _) _ 0)
      by (intros x; rewrite view_events_gt, Hn; reflexivity).
    rewrite (count_flat_map is_save _ 1)
      by (intros x; rewrite view_events_saves, Hn; reflexivity).
    rewrite enumerate_length.
    change (count (is_save_in (gt_dir mp name iteration)) [_; _]) with 0%nat.
    change (count is_save [_; _]) with 0%nat. lia.
Qed.

(** Two views of the interpolated split: two renderings, no ground truth. *)
Lemma render_set_skips_gt_for_interp_witness :
  count (is_save_in (gt_dir "out" "interp" 7))
        (render_set (B := Scripted.backend) "out" "interp" 7
           [Scripted.view3; Scripted.view_nan] Scripted.scene0) = 0%nat
  /\ count is_save
       (render_set (B := Scripted.backend) "out" "interp" 7
          [Scripted.view3; Scripted.view_nan] Scripted.scene0) = 2%nat.
Proof.
  apply (proj2 (proj2 (proj2
           (render_set_skips_gt_for_interp (B := Scripted.backend)
              "out" "interp" 7 [Scripted.view3; Scripted.view_nan]
              Scripted.scene0)))).
  reflexivity.
Defined.

(* ------------------------------------------------------------------ *)
(** ** The sign of sums and quotients *)

Module FloatSigns.

(** [0 <= x]: a zero of either sign, a positive number or plus infinity *)
Lemma nonneg_cases (x : float) :
  leb zero x = true
  <-> match x with
      | S754_zero _ | S754_finite false _ _ | S754_infinity false => True
      | _ => False
      end.
Proof.
  destruct x as [s | s | | s m e]; try destruct s; cbn; split;
    intros H; try exact I; try discriminate; try contradiction;
    reflexivity.
Qed.

Lemma shr_1_nonneg (mrs : shr_record) :
  (0 <= shr_m mrs)%Z -> (0 <= shr_m (shr_1 mrs))%Z.
Proof.
  destruct mrs as [m r s]. cbn [shr_m]. intros H.
  destruct m as [ | [p | p | ] | p]; cbn; lia.
Qed.

Lemma iter_pos_invariant {A} (P : A -> Prop) (f : A -> A) (p : positive) :
  (forall x, P x -> P (f x)) ->
  forall x, P x -> P (SpecFloat.iter_pos f p x).
Proof.
  intros Hf. induction p as [p IH | p IH | ]; intros x Hx; cbn.
  - apply IH, IH, Hf, Hx.
  - apply IH, IH, Hx.
  - apply Hf, Hx.
Qed.

Lemma shr_fexp_nonneg (m e : Z) (l : location) :
  (0 <= m)%Z -> (0 <= shr_m (fst (shr_fexp prec emax m e l)))%Z.
Proof.
  intros H. unfold shr_fexp, shr.
  assert (H0 : (0 <= shr_m (shr_record_of_loc m l))%Z)
    by (destruct l as [ | [ | | ]]; exact H).
  destruct (fexp prec emax (Zdigits2 m + e) - e)%Z as [ | p | p];
    cbn [fst]; try exact H0.
  apply (iter_pos_invariant (fun r => (0 <= shr_m r)%Z));
    [apply shr_1_nonneg | exact H0].
Qed.

Lemma round_nearest_even_nonneg (m : Z) (l : location) :
  (0 <= m)%Z -> (0 <= round_nearest_even m l)%Z.
Proof.
  intros H. destruct l as [ | [ | | ]]; cbn; try exact H; try lia.
  destruct (Z.even m); lia.
Qed.

(** Rounding a mantissa that is not negative, with sign [+], gives a value
    that is not negative, and in particular no NaN. *)
Lemma binary_round_aux_nonneg (mx ex : Z) (lx : location) :
  (0 <= mx)%Z ->
  leb zero (binary_round_aux prec emax false mx ex lx) = true.
Proof.
  intros H. unfold binary_round_aux.
  pose proof (shr_fexp_nonneg mx ex lx H) as H1.
  destruct (shr_fexp prec emax mx ex lx) as [mrs' e'].
  cbn [fst] in H1.
  pose proof (shr_fexp_nonneg _ e' loc_Exact
                (round_nearest_even_nonneg _ (loc_of_shr_record mrs') H1))
    as H2.
  destruct (shr_fexp prec emax
              (round_nearest_even (shr_m mrs') (loc_of_shr_record mrs'))
              e' loc_Exact) as [mrs'' e''].
  cbn [fst] in H2.
  destruct (shr_m mrs'') as [ | m | m]; [reflexivity | | lia].
  destruct (e'' <=? emax - prec)%Z; reflexivity.
Qed.

Lemma binary_round_nonneg (m : positive) (e : Z) :
  leb zero (binary_round prec emax false m e) = true.
Proof.
  unfold binary_round.
  destruct (shl_align m e _) as [mz ez].
  apply binary_round_aux_nonneg. lia.
Qed.

Lemma of_Z_nonneg (z : Z) : (0 <= z)%Z -> leb zero (of_Z z) = true.
Proof.
  intros H. unfold of_Z, binary_normalize.
  destruct z as [ | p | p]; [reflexivity | apply binary_round_nonneg | lia].
Qed.




(** Subtracting a finite value from itself leaves zero. *)
Lemma sub_diag (x : float) : is_finite x = true -> is_zero (sub x x) = true.
Proof.
  destruct x as [s | s | | s m e]; try discriminate; intros _.
  - destruct s; reflexivity.
  - unfold sub, SFsub. rewrite Z.sub_diag. reflexivity.
Qed.

End FloatSigns.

(* ------------------------------------------------------------------ *)
(** ** The FPS probe: sorting, trimming, inverting the mean *)

Module ProbeFacts.

Import Probe.

Lemma insert_perm (x : float) (l : list float) :
  Permutation (insert x l) (x :: l).
Proof.
  induction l as [ | y r IH]; simpl.
  - apply Permutation_refl.
  - destruct (ltb y x).
    + apply Permutation_trans with (y :: x :: r).
      * apply perm_skip, IH.
      * apply perm_swap.
    + apply Permutation_refl.
Qed.

Lemma sort_perm (l : list float) : Permutation (sort l) l.
Proof.
  induction l as [ | x r IH]; simpl.
  - apply perm_nil.
  - apply Permutation_trans with (x :: sort r).
    + apply insert_perm.
    + apply perm_skip, IH.
Qed.









(** A sum of zeros is a zero. *)
Lemma sum_zeros_from (l : list float) (a : float) :
  is_zero a = true -> (forall x, In x l -> is_zero x = true) ->
  is_zero (fold_left add l a) = true.
Proof.
  revert a. induction l as [ | x r IH]; intros a Ha Hl; simpl.
  - exact Ha.
  - apply IH.
    + assert (Hx : is_zero x = true) by (apply Hl; left; reflexivity).
      destruct a as [sa | | | ]; try discriminate.
      destruct x as [sx | | | ]; try discriminate.
      destruct sa, sx; reflexivity.
    + intros y Hy. apply Hl. right. exact Hy.
Qed.




End ProbeFacts.





(* ------------------------------------------------------------------ *)
(** ** Bounded mesh extraction: the truncation parameters *)

(** C7.  Whenever the three assignments succeed, [depth_trunc] is twice the
    radius if its flag is negative and the flag otherwise; [voxel_size] is
    that [depth_trunc] divided by [mesh_res] if its flag is negative and
    the flag otherwise; [sdf_trunc] is five times that [voxel_size] if its
    flag is negative and the flag otherwise: each flag decides its own
    value only, and a derived value is computed from the value, derived or
    given, of the one before it.  They succeed whenever the voxel flag is
    given or [mesh_res] converts to a non-zero float.  With the three flags
    at -1, radius 2.0 and [mesh_res] 1024 the result is 4.0, 4.0/1024 and
    5 x (4.0/1024). *)
Theorem bounded_truncation_chain (radius : float) (a : Args) :
  let d := if ltb (depth_trunc a) zero then mul radius (of_Z 2)
           else depth_trunc a in
  let vx := if ltb (voxel_size a) zero then div d (of_Z (mesh_res a))
            else voxel_size a in
  let sd := if ltb (sdf_trunc a) zero then mul (of_Z 5) vx
            else sdf_trunc a in
  (forall voxel sdf depth,
     bounded_params radius a = Ok (voxel, sdf, depth) ->
     depth = d /\ voxel = vx /\ sdf = sd)
  /\ (ltb (voxel_size a) zero = false ->
      bounded_params radius a = Ok (voxel_size a, sd, d))
  /\ (ltb (voxel_size a) zero = true ->
      (exists s m e, of_Z (mesh_res a) = S754_finite s m e) ->
      bounded_params radius a = Ok (div d (of_Z (mesh_res a)), sd, d))
  /\ (ltb (depth_trunc a) zero = true -> d = mul radius (of_Z 2))
  /\ (ltb (depth_trunc a) zero = false -> d = depth_trunc a)
  /\ (ltb (sdf_trunc a) zero = true -> sd = mul (of_Z 5) vx)
  /\ (ltb (sdf_trunc a) zero = false -> sd = sdf_trunc a)
  /\ bounded_params (of_Z 2) Scripted.base_args
     = Ok (div (of_Z 4) (of_Z 1024),
           mul (of_Z 5) (div (of_Z 4) (of_Z 1024)),
           of_Z 4).
Proof.
  intros d vx sd.
  assert (Hgiven : ltb (voxel_size a) zero = false ->
                   bounded_params radius a = Ok (voxel_size a, sd, d)).
  { intros E. unfold bounded_params, sd, vx. rewrite E. reflexivity. }
  assert (Hderived : ltb (voxel_size a) zero = true ->
            forall q, truediv_int d (mesh_res a) = Ok q ->
            q = div d (of_Z (mesh_res a))
            /\ bounded_params radius a = Ok (q, sd, d)).
  { intros E q Hq.
    assert (Eq : q = div d (of_Z (mesh_res a))).
    { unfold truediv_int in Hq.
      destruct (of_Z (mesh_res a)); try discriminate;
        injection Hq as <-; reflexivity. }
    split; [exact Eq | ].
    unfold bounded_params, sd, vx. fold d. rewrite E, Hq, Eq. reflexivity. }
  split.
  { intros voxel sdf depth H.
    destruct (ltb (voxel_size a) zero) eqn:E.
    - destruct (truediv_int d (mesh_res a)) as [q | e] eqn:Hq.
      + destruct (Hderived eq_refl q eq_refl) as [Eq Hb].
        rewrite Hb in H. injection H as <- <- <-.
        split; [reflexivity | ]. split; [exact Eq | reflexivity].
      + unfold bounded_params in H. fold d in H. rewrite E, Hq in H.
        discriminate.
    - rewrite (Hgiven eq_refl) in H. injection H as <- <- <-.
      repeat split. }
  split; [exact Hgiven | ].
  split.
  { intros E (s & m & e & Hf).
    assert (Hq : truediv_int d (mesh_res a) = Ok (div d (of_Z (mesh_res a))))
      by (unfold truediv_int; rewrite Hf; reflexivity).
    apply (Hderived E _ Hq). }
  unfold d, sd.
  repeat split; try (intros ->; reflexivity).
Qed.

(** The default command line: every flag at -1, [mesh_res] at 1024. *)
Lemma bounded_truncation_chain_witness :
  bounded_params (of_Z 3) Scripted.base_args
  = Ok (div (mul (of_Z 3) (of_Z 2)) (of_Z 1024),
        mul (of_Z 5) (div (mul (of_Z 3) (of_Z 2)) (of_Z 1024)),
        mul (of_Z 3) (of_Z 2)).
Proof.
  apply (proj1 (proj2 (proj2
           (bounded_truncation_chain (of_Z 3) Scripted.base_args)))).
  - reflexivity.
  - vm_compute. eexists _, _, _. reflexivity.
Defined.

(* ------------------------------------------------------------------ *)
(** ** The surface branch on an empty test split *)

(** C8.  In the eval path of the surface branch an empty test split makes
    the export a no-op: no reconstruction, no directory, no image, no
    error, the log is left as it was and control goes on to the trajectory
    block exactly as it would after an export; with no trajectory asked
    for, the whole branch ends normally having done nothing.  A non-empty
    test split, by contrast, is reconstructed and exported. *)
Theorem empty_test_split_is_noop {X : Exporter}
  (args : Args) (scene : Scene) (files : Files) (iteration : Z) (l : Log) :
  eval args = true ->
  (getTestCameras scene = [] ->
     export_test args scene l = Ok (tt, l)
     /\ render_sets_surf args scene files iteration l
        = export_traj args scene None l
     /\ (arg_render_path args = false ->
         render_sets_surf args scene files iteration l = Ok (tt, l)))
  /\ (getTestCameras scene <> [] -> skip_test args = false ->
      export_test args scene l
      = Ok (tt, l ++ [EvPrint "export rendered testing images ...";
                      EvMakedirs (test_dir args scene);
                      EvReconstructionOptim (getTestCameras scene)
                                            (optim_test_pose_iter args);
                      EvSaveTime (model_path args) "[5] render_test";
                      EvExportImage (test_dir args scene)])).
Proof.
  intros Heval. split.
  - intros Hempty.
    assert (E : export_test args scene l = Ok (tt, l)).
    { unfold export_test. rewrite Hempty. simpl.
      rewrite andb_false_r. reflexivity. }
    assert (E' : render_sets_surf args scene files iteration l
                 = export_traj args scene None l).
    { unfold render_sets_surf, obind. rewrite Heval, E. reflexivity. }
    split; [exact E | ]. split; [exact E' | ].
    intros Hpath. rewrite E'. unfold export_traj. rewrite Hpath.
    reflexivity.
  - intros Hne Hskip. unfold export_test. rewrite Hskip.
    destruct (getTestCameras scene) as [ | c cs]; [congruence | ].
    reflexivity.
Qed.

(** [--surf --eval] on a scene with no test camera. *)
Lemma empty_test_split_is_noop_witness :
  render_sets_surf (X := Scripted.exporter) Scripted.eval_args
    Scripted.scene_without_test (mkFiles None) 7 [] = Ok (tt, []).
Proof.
  apply (empty_test_split_is_noop (X := Scripted.exporter)
           Scripted.eval_args Scripted.scene_without_test (mkFiles None)
           7 []); reflexivity.
Defined.

(* ------------------------------------------------------------------ *)
(** ** Views are refined independently of one another *)

Section Independence.

Context {B : Backend}.
Variables (v : View) (gt : Image).

Lemma same_state_refl (s : LoopSt) : same_state s s.
Proof. repeat split. Qed.

Lemma refine_step_same (s s' : LoopSt) (i : nat) :
  same_state s s' ->
  same_state (refine_step v gt s i) (refine_step v gt s' i)
  /\ pass_events v gt s = pass_events v gt s'.
Proof.
  destruct s as [h o sc t l], s' as [h' o' sc' t' l'].
  unfold same_state. cbn [heap pose_optimizer scheduler tracker].
  intros (<- & <- & <- & <-). repeat split.
Qed.

Lemma after_same (s s' : LoopSt) (k : nat) :
  same_state s s' -> same_state (after v gt s k) (after v gt s' k).
Proof.
  intros H. induction k as [ | k IH]; [exact H | ].
  rewrite !after_S. apply refine_step_same, IH.
Qed.

Lemma after_log_same (s s' : LoopSt) (k : nat) :
  same_state s s' ->
  log (after v gt s k) = log s ++ skipn (List.length (log s'))
                                        (log (after v gt s' k)).
Proof.
  intros H. rewrite (after_log v gt s k), (after_log v gt s' k).
  rewrite skipn_app, skipn_all, Nat.sub_diag. cbn [skipn app].
  f_equal. apply flat_map_ext. intros i.
  apply (refine_step_same _ _ i), after_same, H.
Qed.

End Independence.

Lemma refine_view_solo {B : Backend} (args : Args) (mp name : string)
  (iteration : Z) (rs : RunSt) (v : View) :
  let alone := solo_view args mp name iteration (rs_gaussians rs) v in
  rs_gaussians (refine_view args mp name iteration rs v) = rs_gaussians alone
  /\ rs_optimal_pose (refine_view args mp name iteration rs v)
     = rs_optimal_pose alone
  /\ rs_view (refine_view args mp name iteration rs v) = Some v
  /\ rs_log (refine_view args mp name iteration rs v)
     = rs_log rs ++ rs_log alone.
Proof.
  intros alone. unfold alone, solo_view, refine_view.
  cbn [rs_gaussians rs_optimal_pose rs_view rs_log].
  set (gt := slice_to 3 (original_image v)).
  set (n := optim_test_pose_iter args).
  set (s0 := refine_init v (rs_gaussians rs) n (rs_log rs)).
  set (s1 := refine_init v (rs_gaussians rs) n []).
  assert (H0 : same_state s0 s1) by (repeat split).
  rewrite !refine_loop_after.
  destruct (after_same v gt s0 s1 (Z.to_nat n) H0) as (Eh & _ & _ & Et).
  rewrite Eh, Et. repeat split.
  rewrite (after_log_same v gt s0 s1 (Z.to_nat n) H0).
  cbn [log s0 s1 refine_init List.length skipn].
  rewrite <- app_assoc. reflexivity.
Qed.

Lemma refine_all_log_split {B : Backend}
  (args : Args) (mp name : string) (iteration : Z) (g : GaussianModel)
  (views : list View) :
  rs_log (refine_all args mp name iteration views g)
  = [EvMakedirs (renders_dir mp name iteration);
     EvMakedirs (gt_dir mp name iteration)]
    ++ flat_map (fun v => rs_log (solo_view args mp name iteration
                                    (freeze g) v)) views.
Proof.
  induction views as [ | v views IH] using rev_ind.
  - reflexivity.
  - rewrite refine_all_snoc, flat_map_app.
    destruct (refine_view_solo args mp name iteration
                (refine_all args mp name iteration views g) v)
      as (_ & _ & _ & El).
    rewrite El, IH, refine_all_scene. cbn [flat_map].
    rewrite app_nil_r, app_assoc. reflexivity.
Qed.

(** X1.  A run of [render_set_optimize] over a list of views is the two
    directory creations followed by the runs of the views taken one by
    one, each started from the frozen scene with a fresh optimizer and
    tracker: nothing a view leaves behind reaches the next one.  The pose
    refined for a view is therefore the same wherever the view stands in
    the list. *)
Theorem views_refined_independently {B : Backend}
  (args : Args) (mp name : string) (iteration : Z) (g : GaussianModel) :
  (forall views,
     rs_log (refine_all args mp name iteration views g)
     = [EvMakedirs (renders_dir mp name iteration);
        EvMakedirs (gt_dir mp name iteration)]
       ++ flat_map (fun v => rs_log (solo_view args mp name iteration
                                       (freeze g) v)) views)
  /\ (forall before v,
        rs_optimal_pose (refine_all args mp name iteration (before ++ [v]) g)
        = rs_optimal_pose (solo_view args mp name iteration (freeze g) v)).
Proof.
  split.
  - intros views. apply refine_all_log_split.
  - intros before v. rewrite refine_all_snoc.
    destruct (refine_view_solo args mp name iteration
                (refine_all args mp name iteration before g) v)
      as (_ & Ep & _).
    rewrite Ep, refine_all_scene. reflexivity.
Qed.

(* ------------------------------------------------------------------ *)
(** ** How often the collaborators are called *)

Lemma count_repeat_map {A} (p : Event -> bool) (e : Event) (l : list A) :
  p e = true -> count p (map (fun _ => e) l) = List.length l.
Proof.
  intros H. unfold count. induction l as [ | x l IH]; [reflexivity | ].
  cbn [map filter]. rewrite H. cbn [List.length]. rewrite IH. reflexivity.
Qed.

Lemma count_repeat_map_none {A} (p : Event -> bool) (e : Event) (l : list A) :
  p e = false -> count p (map (fun _ => e) l) = 0%nat.
Proof.
  intros H. unfold count. induction l as [ | x l IH]; [reflexivity | ].
  cbn [map filter]. rewrite H. exact IH.
Qed.

Lemma solo_view_log {B : Backend} (args : Args) (mp name : string)
  (iteration : Z) (g : GaussianModel) (v : View) :
  let n := optim_test_pose_iter args in
  let gt := slice_to 3 (original_image v) in
  let s0 := refine_init v g n [] in
  let s := refine_loop v gt n s0 in
  let pose := torch_cat (candidate_q (tracker s)) (candidate_T (tracker s)) in
  rs_log (solo_view args mp name iteration g v)
  = flat_map (fun i => pass_events v gt (after v gt s0 i))
             (seq 0 (Z.to_nat n))
    ++ [EvRender v pose;
        EvSaveImage (render v (gaussians (heap s)) pose)
          (renders_dir mp name iteration ++ [png (image_name v)]);
        EvSaveImage gt (gt_dir mp name iteration ++ [png (image_name v)])].
Proof.
  intros n gt s0 s pose. unfold solo_view, refine_view.
  cbn [rs_log rs_gaussians]. fold n gt s0 s pose.
  unfold s. rewrite refine_loop_after, (after_log v gt s0 (Z.to_nat n)).
  reflexivity.
Qed.

Lemma solo_view_count {B : Backend} (args : Args) (mp name : string)
  (iteration : Z) (g : GaussianModel) (v : View) (p : Event -> bool)
  (c d : nat) :
  (forall s, count p (pass_events v (slice_to 3 (original_image v)) s) = c) ->
  (forall pose img img' q q',
     count p [EvRender v pose; EvSaveImage img q; EvSaveImage img' q'] = d) ->
  count p (rs_log (solo_view args mp name iteration g v))
  = (Z.to_nat (optim_test_pose_iter args) * c + d)%nat.
Proof.
  intros Hc Hd. rewrite solo_view_log, count_app.
  rewrite (passes_count v _ p c) by exact Hc. rewrite Hd. reflexivity.
Qed.

(** X2.  With the probe off, [render_set_optimize] calls the renderer
    [num_iter] + 1 times per view ([num_iter] passes and the final render
    at the chosen pose), evaluates the loss and steps the optimizer
    [num_iter] times per view, and writes two images per view.  With the
    probe on, a run that returns has rendered 1000 times more and written
    no further image. *)
Theorem collaborator_call_counts {B : Backend}
  (args : Args) (mp name : string) (iteration : Z) (views : list View)
  (g : GaussianModel) :
  let n := Z.to_nat (optim_test_pose_iter args) in
  let l := rs_log (refine_all args mp name iteration views g) in
  count is_render l = (List.length views * (n + 1))%nat
  /\ count is_loss l = (List.length views * n)%nat
  /\ count is_optimizer_step l = (List.length views * n)%nat
  /\ count is_save l = (List.length views * 2)%nat
  /\ (forall perf_counter rs fps,
        test_fps args = true ->
        render_set_optimize args mp name iteration views g perf_counter
        = Ok (rs, fps) ->
        count is_render (rs_log rs) = (List.length views * (n + 1) + 1000)%nat
        /\ count is_save (rs_log rs) = (List.length views * 2)%nat).
Proof.
  intros n l.
  assert (El := refine_all_log_split args mp name iteration g views).
  fold l in El.
  assert (Hr : count is_render l = (List.length views * (n + 1))%nat).
  { rewrite El, count_app, (count_flat_map _ _ (n * 1 + 1)).
    - change (count is_render [_; _]) with 0%nat. lia.
    - intros v. apply solo_view_count; reflexivity. }
  assert (Hs : count is_save l = (List.length views * 2)%nat).
  { rewrite El, count_app, (count_flat_map _ _ (n * 0 + 2)).
    - change (count is_save [_; _]) with 0%nat. lia.
    - intros v. apply solo_view_count; reflexivity. }
  split; [exact Hr | ].
  split.
  { rewrite El, count_app, (count_flat_map _ _ (n * 1 + 0)).
    - change (count is_loss [_; _]) with 0%nat. lia.
    - intros v. apply solo_view_count; reflexivity. }
  split.
  { rewrite El, count_app, (count_flat_map _ _ (n * 1 + 0)).
    - change (count is_optimizer_step [_; _]) with 0%nat. lia.
    - intros v. apply solo_view_count; reflexivity. }
  split; [exact Hs | ].
  intros perf_counter rs fps Hfps H.
  unfold render_set_optimize, fps_block in H. rewrite Hfps in H.
  fold l in H.
  destruct views as [ | v0 views'] using rev_ind.
  { change (seq 0 1000) with (0%nat :: seq 1 999) in H.
    rewrite fps_trials_unbound in H by reflexivity. discriminate. }
  clear IHviews'.
  destruct (fps_probe_needs_view_state args mp name iteration views' v0 g)
    as (p & Hv & Hp).
  rewrite (fps_trials_bound perf_counter _ v0 p (seq 0 1000) Hv Hp) in H.
  remember (map (fun _ : nat => EvRender v0 p) (seq 0 1000)) as trials
    eqn:Et.
  cbn [Probe.bind fst snd] in H.
  destruct (Probe.fps_of _) as [x | e]; [ | discriminate].
  cbn [Probe.bind] in H. injection H as <- _. cbn [rs_log].
  rewrite !count_app, Hr, Hs. subst trials.
  rewrite count_repeat_map by reflexivity.
  rewrite count_repeat_map_none by reflexivity.
  rewrite length_seq.
  change (count is_render [EvPrint _]) with 0%nat.
  change (count is_render [EvPrint _; EvJsonDump _ _]) with 0%nat.
  change (count is_save [EvPrint _]) with 0%nat.
  change (count is_save [EvPrint _; EvJsonDump _ _]) with 0%nat.
  split; lia.
Qed.

(* ------------------------------------------------------------------ *)
(** ** The FPS probe at its edges *)

Module ProbeEdge.

Import Probe.

Lemma in_firstn {A} (n : nat) (l : list A) (x : A) :
  In x (firstn n l) -> In x l.
Proof.
  intros H. rewrite <- (firstn_skipn n l). apply in_or_app. left. exact H.
Qed.

Lemma in_skipn {A} (n : nat) (l : list A) (x : A) :
  In x (skipn n l) -> In x l.
Proof.
  intros H. rewrite <- (firstn_skipn n l). apply in_or_app. right. exact H.
Qed.

Lemma trimmed_incl (l : list float) (d : float) :
  In d (trimmed l) -> In d l.
Proof.
  unfold trimmed, slice. intros H.
  apply (Permutation_in _ (ProbeFacts.sort_perm l)).
  apply (in_skipn 100). apply (in_firstn (900 - 100)). exact H.
Qed.

(** Kept durations that are all zero: the mean is zero (or the quotient
    0 / 0 is asked for) and the probe raises. *)
Lemma fps_of_zeros (l : list float) :
  (forall d, In d (trimmed l) -> is_zero d = true) ->
  fps_of l = Raise ZeroDivisionError.
Proof.
  intros Hz. unfold fps_of.
  assert (Hs : is_zero (sum (trimmed l)) = true)
    by (apply ProbeFacts.sum_zeros_from; [reflexivity | exact Hz]).
  set (n := of_Z (Z.of_nat (List.length (trimmed l)))).
  assert (Hn : leb zero n = true)
    by (apply FloatSigns.of_Z_nonneg, Nat2Z.is_nonneg).
  apply FloatSigns.nonneg_cases in Hn.
  unfold py_div at 2.
  destruct n as [sn | sn | | sn mn en]; try destruct sn; try contradiction;
    try reflexivity.
  all: destruct (sum (trimmed l)) as [ss | | | ]; try discriminate;
    reflexivity.
Qed.

(** X3.  The probe raises [ZeroDivisionError] whenever the 800 kept
    durations are all zero.  In particular a clock whose two readings
    agree in every trial makes a run that refined at least one view end
    in [ZeroDivisionError]: nothing guards the division.  The kept
    durations need not all be zero for this: with 799 zeros and one
    duration of 2^-1074 the binary64 mean rounds to zero and the probe
    raises all the same. *)
Theorem probe_zero_division (l : list float) :
  ((forall d, In d (trimmed l) -> is_zero d = true) ->
   fps_of l = Raise ZeroDivisionError)
  /\ (forall (B : Backend) args mp name iteration before v g perf_counter,
        test_fps args = true ->
        l = map (duration perf_counter) (seq 0 1000) ->
        (forall i, (i < 1000)%nat ->
           is_finite (perf_counter (2 * i)%nat) = true
           /\ perf_counter (2 * i + 1)%nat = perf_counter (2 * i)%nat) ->
        render_set_optimize args mp name iteration (before ++ [v]) g
          perf_counter = Raise ZeroDivisionError)
  /\ (let tiny := S754_finite false 1 (-1074) in
      let l0 := repeat zero 899 ++ [tiny] ++ repeat one 100 in
      In tiny (trimmed l0) /\ is_zero tiny = false
      /\ fps_of l0 = Raise ZeroDivisionError).
Proof.
  split; [apply fps_of_zeros | ]. split.
  - intros B args mp name iteration before v g perf_counter Hfps El Hstall.
    destruct (fps_probe_needs_view_state args mp name iteration before v g)
      as (p & Hv & Hp).
    unfold render_set_optimize, fps_block. rewrite Hfps.
    rewrite (fps_trials_bound perf_counter _ v p (seq 0 1000) Hv Hp).
    cbn [bind fst snd app]. rewrite <- El.
    rewrite fps_of_zeros; [reflexivity | ].
    intros d Hd. apply trimmed_incl in Hd. rewrite El in Hd.
    apply in_map_iff in Hd. destruct Hd as (i & <- & Hi).
    apply in_seq in Hi. destruct (Hstall i ltac:(lia)) as [Hf He].
    unfold duration. rewrite He. apply FloatSigns.sub_diag, Hf.
  - cbv zeta. split; [ | split; [reflexivity | vm_compute; reflexivity]].
    assert (E : trimmed (repeat zero 899 ++ [S754_finite false 1 (-1074)]
                         ++ repeat one 100)
                = repeat zero 799 ++ [S754_finite false 1 (-1074)])
      by (vm_compute; reflexivity).
    rewrite E. apply in_or_app. right. left. reflexivity.
Qed.

End ProbeEdge.


(** A clock that advances by one between readings, a view to refine. *)
Lemma collaborator_call_counts_witness :
  exists rs fps,
    render_set_optimize (B := Scripted.backend) Scripted.probe_args "out"
      "test" 7 ([] ++ [Scripted.view3]) Scripted.scene0
      (fun k => of_Z (Z.of_nat k)) = Ok (rs, fps)
    /\ count is_render (rs_log rs) = (1 * (3 + 1) + 1000)%nat
    /\ count is_save (rs_log rs) = (1 * 2)%nat.
Proof.
  destruct (render_set_optimize (B := Scripted.backend) Scripted.probe_args
              "out" "test" 7 ([] ++ [Scripted.view3]) Scripted.scene0
              (fun k => of_Z (Z.of_nat k))) as [[rs fps] | e] eqn:E.
  - exists rs, fps. split; [reflexivity | ].
    apply (proj2 (proj2 (proj2 (proj2
             (collaborator_call_counts (B := Scripted.backend)
                Scripted.probe_args "out" "test" 7 ([] ++ [Scripted.view3])
                Scripted.scene0))))
             (fun k => of_Z (Z.of_nat k)) rs fps).
    + reflexivity.
    + exact E.
  - exfalso. vm_compute in E. discriminate E.
Defined.

(** A thousand durations of zero. *)
Lemma probe_zero_division_witness :
  Probe.fps_of (repeat zero 1000) = Raise ZeroDivisionError.
Proof.
  apply (proj1 (ProbeEdge.probe_zero_division (repeat zero 1000))).
  intros d Hd. apply ProbeEdge.trimmed_incl, repeat_spec in Hd.
  rewrite Hd. reflexivity.
Defined.

(* ------------------------------------------------------------------ *)
(** ** Every pass works on a fresh gradient *)

Section FreshGradient.

Context {B : Backend}.

Lemma backward_leaf_scene_camera (v : View) (g : GaussianModel)
  (pose : Tensor) (h : Heap) (r : ParamRef) :
  is_scene_ref r = true ->
  camera_tensor_T (backward_leaf v g pose h r) = camera_tensor_T h
  /\ camera_tensor_q (backward_leaf v g pose h r) = camera_tensor_q h.
Proof.
  intros Hr. unfold backward_leaf.
  destruct (requires_grad (get_param r h)); [ | split; reflexivity].
  destruct r; try discriminate; split; reflexivity.
Qed.

Lemma backward_leaf_T (v : View) (g : GaussianModel) (pose : Tensor)
  (h : Heap) :
  requires_grad (camera_tensor_T h) = true ->
  grad (camera_tensor_T h) = None ->
  backward_leaf v g pose h CameraT
  = mkHeap (gaussians h)
           (with_grad (Some (autograd CameraT v g pose)) (camera_tensor_T h))
           (camera_tensor_q h).
Proof.
  intros R G. unfold backward_leaf. cbn [get_param]. rewrite R, G.
  reflexivity.
Qed.

Lemma backward_leaf_q (v : View) (g : GaussianModel) (pose : Tensor)
  (h : Heap) :
  requires_grad (camera_tensor_q h) = true ->
  grad (camera_tensor_q h) = None ->
  backward_leaf v g pose h CameraQ
  = mkHeap (gaussians h) (camera_tensor_T h)
           (with_grad (Some (autograd CameraQ v g pose)) (camera_tensor_q h)).
Proof.
  intros R G. unfold backward_leaf. cbn [get_param]. rewrite R, G.
  reflexivity.
Qed.

(** After [loss.backward()] a camera tensor that held no gradient holds
    the gradient of this forward pass. *)
Lemma backward_camera (v : View) (pose : Tensor) (h : Heap) :
  requires_grad (camera_tensor_T h) = true ->
  requires_grad (camera_tensor_q h) = true ->
  grad (camera_tensor_T h) = None ->
  grad (camera_tensor_q h) = None ->
  camera_tensor_T (backward v pose h)
  = with_grad (Some (autograd CameraT v (gaussians h) pose))
              (camera_tensor_T h)
  /\ camera_tensor_q (backward v pose h)
     = with_grad (Some (autograd CameraQ v (gaussians h) pose))
                 (camera_tensor_q h).
Proof.
  intros RT Rq GT Gq. unfold backward, all_refs.
  rewrite fold_left_app.
  set (h6 := fold_left (backward_leaf v (gaussians h) pose) scene_refs h).
  assert (E : camera_tensor_T h6 = camera_tensor_T h
              /\ camera_tensor_q h6 = camera_tensor_q h).
  { unfold h6.
    apply (fold_left_invariant _
             (fun x => camera_tensor_T x = camera_tensor_T h
                       /\ camera_tensor_q x = camera_tensor_q h));
      [split; reflexivity | ].
    intros x r Hr [ET Eq].
    destruct (backward_leaf_scene_camera v (gaussians h) pose x r) as [A C].
    - unfold scene_refs in Hr. simpl in Hr.
      repeat destruct Hr as [<- | Hr]; try reflexivity; contradiction.
    - rewrite A, C. split; assumption. }
  destruct E as [ET Eq].
  cbn [fold_left].
  rewrite (backward_leaf_T v (gaussians h) pose h6)
    by (rewrite ET; assumption).
  rewrite backward_leaf_q
    by (cbn [camera_tensor_q]; rewrite Eq; assumption).
  cbn [camera_tensor_T camera_tensor_q]. rewrite ET, Eq.
  split; reflexivity.
Qed.

Lemma registered_two (opt : Optimizer) :
  map params (param_groups opt) = [[CameraT]; [CameraQ]] ->
  registered opt = [CameraT; CameraQ]
  /\ exists g1 g2, param_groups opt = [g1; g2]
                   /\ params g1 = [CameraT] /\ params g2 = [CameraQ].
Proof.
  unfold registered. intros H.
  destruct (param_groups opt) as [ | g1 [ | g2 [ | g3 r]]];
    try discriminate.
  cbn [map] in H. injection H as H1 H2.
  split.
  - cbn [flat_map]. rewrite H1, H2. reflexivity.
  - exists g1, g2. repeat split; assumption.
Qed.

Lemma step_param_some (b : float * float) (wd rate : float)
  (acc : list (ParamRef * AdamState) * Heap) (r : ParamRef) (g : Tensor) :
  grad (get_param r (snd acc)) = Some g ->
  exists st,
    step_param b wd rate acc r
    = (update_state (fst acc) r
         (snd (adam_update b wd st rate (data (get_param r (snd acc))) g)),
       set_param r
         (with_data
            (fst (adam_update b wd st rate (data (get_param r (snd acc))) g))
            (get_param r (snd acc)))
         (snd acc)).
Proof.
  intros H. unfold step_param. rewrite H. eexists. reflexivity.
Qed.

(** [optimizer.step()] on the two camera tensors, each holding a gradient:
    each gets the Adam update of its own gradient. *)
Lemma optimizer_step_camera (opt : Optimizer) (h : Heap) (gT gq : Tensor) :
  map params (param_groups opt) = [[CameraT]; [CameraQ]] ->
  grad (camera_tensor_T h) = Some gT ->
  grad (camera_tensor_q h) = Some gq ->
  exists stT stq rT rq,
    camera_tensor_T (snd (optimizer_step opt h))
    = with_data (fst (adam_update (betas opt) (weight_decay opt) stT rT
                        (data (camera_tensor_T h)) gT))
                (camera_tensor_T h)
    /\ camera_tensor_q (snd (optimizer_step opt h))
       = with_data (fst (adam_update (betas opt) (weight_decay opt) stq rq
                           (data (camera_tensor_q h)) gq))
                   (camera_tensor_q h).
Proof.
  intros Hg GT Gq.
  destruct (registered_two opt Hg) as (_ & g1 & g2 & Eg & P1 & P2).
  unfold optimizer_step. rewrite Eg. cbn [fold_left snd].
  unfold step_group. rewrite P1, P2. cbn [fold_left].
  destruct (step_param_some (betas opt) (weight_decay opt) (lr g1)
              (opt_state opt, h) CameraT gT GT) as [stT E1].
  rewrite E1. cbn [fst snd get_param].
  match goal with
  | |- context [step_param ?b ?w ?r ?acc CameraQ] =>
      destruct (step_param_some b w r acc CameraQ gq Gq) as [stq E2]
  end.
  rewrite E2. cbn [fst snd get_param set_param camera_tensor_T
                   camera_tensor_q].
  exists stT, stq, (lr g1), (lr g2). split; reflexivity.
Qed.

Lemma zero_grad_camera (opt : Optimizer) (h : Heap) :
  map params (param_groups opt) = [[CameraT]; [CameraQ]] ->
  zero_grad opt h
  = mkHeap (gaussians h) (with_grad None (camera_tensor_T h))
           (with_grad None (camera_tensor_q h)).
Proof.
  intros Hg. unfold zero_grad.
  rewrite (proj1 (registered_two opt Hg)). reflexivity.
Qed.

Lemma scheduler_step_groups (sch : Scheduler) (opt : Optimizer) :
  map params (param_groups opt) = [[CameraT]; [CameraQ]] ->
  List.length (base_lrs sch) = 2%nat ->
  map params (param_groups (snd (scheduler_step sch opt)))
  = [[CameraT]; [CameraQ]]
  /\ List.length (base_lrs (fst (scheduler_step sch opt))) = 2%nat.
Proof.
  intros Hg Hb.
  destruct (registered_two opt Hg) as (_ & g1 & g2 & Eg & P1 & P2).
  destruct (base_lrs sch) as [ | b1 [ | b2 [ | b3 r]]] eqn:Eb;
    try discriminate.
  unfold scheduler_step. cbn [snd fst param_groups base_lrs].
  rewrite Eg, Eb. cbn [combine map params fst]. rewrite P1, P2.
  split; reflexivity.
Qed.

(** One pass: what it finds ready it leaves ready, and the new value of
    each camera tensor is the Adam update of the gradient of this pass. *)
Lemma refine_step_fresh (v : View) (gt : Image) (s : LoopSt) (i : nat) :
  pose_ready s ->
  pose_ready (refine_step v gt s i)
  /\ grad (camera_tensor_T (backward v (live_pose (heap s)) (heap s)))
     = Some (autograd CameraT v (gaussians (heap s)) (live_pose (heap s)))
  /\ grad (camera_tensor_q (backward v (live_pose (heap s)) (heap s)))
     = Some (autograd CameraQ v (gaussians (heap s)) (live_pose (heap s)))
  /\ exists stT stq rT rq,
       data (camera_tensor_T (heap (refine_step v gt s i)))
       = fst (adam_update (betas (pose_optimizer s))
                (weight_decay (pose_optimizer s)) stT rT
                (data (camera_tensor_T (heap s)))
                (autograd CameraT v (gaussians (heap s))
                   (live_pose (heap s))))
       /\ data (camera_tensor_q (heap (refine_step v gt s i)))
          = fst (adam_update (betas (pose_optimizer s))
                   (weight_decay (pose_optimizer s)) stq rq
                   (data (camera_tensor_q (heap s)))
                   (autograd CameraQ v (gaussians (heap s))
                      (live_pose (heap s)))).
Proof.
  intros (GT & Gq & RT & Rq & Hg & Hb).
  destruct (backward_camera v (live_pose (heap s)) (heap s) RT Rq GT Gq)
    as [BT Bq].
  set (h1 := backward v (live_pose (heap s)) (heap s)) in *.
  assert (G1T : grad (camera_tensor_T h1)
                = Some (autograd CameraT v (gaussians (heap s))
                          (live_pose (heap s))))
    by (rewrite BT; reflexivity).
  assert (G1q : grad (camera_tensor_q h1)
                = Some (autograd CameraQ v (gaussians (heap s))
                          (live_pose (heap s))))
    by (rewrite Bq; reflexivity).
  destruct (optimizer_step_camera (pose_optimizer s) h1 _ _ Hg G1T G1q)
    as (stT & stq & rT & rq & OT & Oq).
  assert (Hg' : map params
                  (param_groups (fst (optimizer_step (pose_optimizer s) h1)))
                = [[CameraT]; [CameraQ]]) by exact Hg.
  destruct (scheduler_step_groups (scheduler s)
              (fst (optimizer_step (pose_optimizer s) h1)) Hg' Hb)
    as [Sg Sb].
  assert (Eh : heap (refine_step v gt s i)
               = zero_grad (fst (optimizer_step (pose_optimizer s) h1))
                           (snd (optimizer_step (pose_optimizer s) h1)))
    by reflexivity.
  rewrite (zero_grad_camera _ _ Hg') in Eh.
  split.
  { unfold pose_ready. rewrite Eh.
    cbn [camera_tensor_T camera_tensor_q with_grad grad requires_grad].
    rewrite OT, Oq, BT, Bq.
    cbn [with_data with_grad requires_grad].
    repeat split; try assumption. }
  split; [exact G1T | ]. split; [exact G1q | ].
  exists stT, stq, rT, rq. rewrite Eh.
  cbn [camera_tensor_T camera_tensor_q with_grad data].
  rewrite OT, Oq, BT, Bq. cbn [with_data with_grad data].
  split; reflexivity.
Qed.

Lemma refine_init_ready (v : View) (g : GaussianModel) (n : Z) (l : Log) :
  pose_ready (refine_init v g n l).
Proof. repeat split. Qed.

Lemma after_ready (v : View) (gt : Image) (s : LoopSt) (k : nat) :
  pose_ready s -> pose_ready (after v gt s k).
Proof.
  intros H. induction k as [ | k IH]; [exact H | ].
  rewrite after_S. apply refine_step_fresh, IH.
Qed.

End FreshGradient.

(** X5.  In the refinement of a view every pass finds both camera tensors
    with gradient tracking on and no gradient left over, and the optimizer
    still registered on exactly these two tensors.  The backward pass
    therefore stores the gradient of this pass alone, and the value each
    camera tensor has after the pass is the Adam update of its previous
    value with that gradient: gradients never accumulate from one pass to
    the next. *)
Theorem pose_gradients_are_fresh {B : Backend}
  (v : View) (gt : Image) (g : GaussianModel) (n : Z) (l : Log) (k : nat) :
  let s := after v gt (refine_init v g n l) k in
  let s' := after v gt (refine_init v g n l) (S k) in
  let pose := live_pose (heap s) in
  pose_ready s
  /\ registered (pose_optimizer s) = [CameraT; CameraQ]
  /\ grad (camera_tensor_T (backward v pose (heap s)))
     = Some (autograd CameraT v (gaussians (heap s)) pose)
  /\ grad (camera_tensor_q (backward v pose (heap s)))
     = Some (autograd CameraQ v (gaussians (heap s)) pose)
  /\ exists stT stq rT rq,
       data (camera_tensor_T (heap s'))
       = fst (adam_update (betas (pose_optimizer s))
                (weight_decay (pose_optimizer s)) stT rT
                (data (camera_tensor_T (heap s)))
                (autograd CameraT v (gaussians (heap s)) pose))
       /\ data (camera_tensor_q (heap s'))
          = fst (adam_update (betas (pose_optimizer s))
                   (weight_decay (pose_optimizer s)) stq rq
                   (data (camera_tensor_q (heap s)))
                   (autograd CameraQ v (gaussians (heap s)) pose)).
Proof.
  intros s s' pose.
  assert (Hr : pose_ready s)
    by (apply after_ready, refine_init_ready).
  split; [exact Hr | ].
  split.
  { destruct Hr as (_ & _ & _ & _ & Hg & _).
    apply (proj1 (registered_two _ Hg)). }
  unfold s'. rewrite after_S. fold s.
  apply (refine_step_fresh v gt s k Hr).
Qed.

(* ------------------------------------------------------------------ *)
(** ** The first loss, kept for the progress bar *)

Lemma track_initial {B : Backend} (x : float) (h : Heap) (t : Tracker) :
  initial_loss (track x h t) = initial_loss t.
Proof. unfold track. destruct (ltb x (current_min_loss t)); reflexivity. Qed.

(** X6.  [initial_loss] is [None] until the first pass, becomes the loss of
    that pass, and no later pass changes it, whatever happens to the best
    candidate in the meantime. *)
Theorem initial_loss_is_first_loss {B : Backend}
  (v : View) (gt : Image) (g : GaussianModel) (n : Z) (l : Log) (k : nat) :
  let s0 := refine_init v g n l in
  initial_loss (tracker s0) = None
  /\ initial_loss (tracker (after v gt s0 (S k))) = Some (step_loss v gt s0)
  /\ ((n <= 0)%Z -> initial_loss (tracker (refine_loop v gt n s0)) = None)
  /\ ((0 < n)%Z ->
      initial_loss (tracker (refine_loop v gt n s0))
      = Some (step_loss v gt s0)).
Proof.
  intros s0.
  assert (H : forall j,
            initial_loss (tracker (after v gt s0 (S j)))
            = Some (step_loss v gt s0)).
  { induction j as [ | j IH].
    - rewrite after_S.
      change (tracker (refine_step v gt (after v gt s0 0) 0))
        with (track (step_loss v gt s0)
                (snd (stepped v s0))
                (capture_initial 0 (step_loss v gt s0) (tracker s0))).
      rewrite track_initial. reflexivity.
    - rewrite after_S.
      change (tracker (refine_step v gt (after v gt s0 (S j)) (S j)))
        with (track (step_loss v gt (after v gt s0 (S j)))
                (snd (stepped v (after v gt s0 (S j))))
                (capture_initial (S j)
                   (step_loss v gt (after v gt s0 (S j)))
                   (tracker (after v gt s0 (S j))))).
      rewrite track_initial. exact IH. }
  split; [reflexivity | ]. split; [apply H | ]. split.
  - intros Hn. rewrite refine_loop_after.
    replace (Z.to_nat n) with 0%nat by lia. reflexivity.
  - intros Hn. rewrite refine_loop_after.
    destruct (Z.to_nat n) as [ | j] eqn:E; [lia | apply H].
Qed.

(** Three passes over the scripted view: the first loss is 3. *)
Lemma initial_loss_is_first_loss_witness :
  initial_loss
    (tracker (refine_loop (B := Scripted.backend) Scripted.view3 [] 3
                (refine_init (B := Scripted.backend) Scripted.view3
                   Scripted.scene0 3 [])))
  = Some (step_loss (B := Scripted.backend) Scripted.view3 []
            (refine_init (B := Scripted.backend) Scripted.view3
               Scripted.scene0 3 [])).
Proof.
  apply (proj2 (proj2 (proj2
           (initial_loss_is_first_loss (B := Scripted.backend)
              Scripted.view3 [] Scripted.scene0 3 [] 0)))).
  lia.
Defined.

(* ------------------------------------------------------------------ *)
(** ** The surface branch: when the pose array is missing or unbound *)

Lemma bounded_params_raises (radius : float) (a : Args) (e : Exn) :
  bounded_params radius a = Raise e ->
  e = ZeroDivisionError \/ e = OverflowError.
Proof.
  unfold bounded_params, truediv_int.
  destruct (ltb (voxel_size a) zero); [ | discriminate].
  destruct (of_Z (mesh_res a)); cbn [Probe.bind]; try discriminate;
    intros H; injection H as <-; auto.
Qed.

Section SurfErrors.

Context {X : Exporter}.
Variables (args : Args) (scene : Scene) (files : Files) (iteration : Z).

Lemma export_test_ok (l : Log) :
  exists l', export_test args scene l = Ok (tt, l').
Proof.
  unfold export_test, when, emit, oret.
  destruct (negb (skip_test args) && _); eexists; reflexivity.
Qed.

Lemma export_traj_some (poses : list Matrix) (l : Log) :
  exists l', export_traj args scene (Some poses) l = Ok (tt, l').
Proof.
  unfold export_traj, when, obind, emit, oret, read_local.
  destruct (arg_render_path args); eexists; reflexivity.
Qed.

Lemma export_traj_none (l : Log) :
  export_traj args scene None l
  = if arg_render_path args then Raise (UnboundLocalError "optimized_pose")
    else Ok (tt, l).
Proof.
  unfold export_traj, when. destruct (arg_render_path args); reflexivity.
Qed.

Lemma export_mesh_none (l : Log) :
  export_mesh args scene None l
  = if skip_mesh args then Ok (tt, l)
    else Raise (UnboundLocalError "optimized_pose").
Proof.
  unfold export_mesh, when. destruct (skip_mesh args); reflexivity.
Qed.

Lemma export_mesh_some (poses : list Matrix) (l : Log) :
  (exists l', export_mesh args scene (Some poses) l = Ok (tt, l'))
  \/ export_mesh args scene (Some poses) l = Raise ZeroDivisionError
  \/ export_mesh args scene (Some poses) l = Raise OverflowError.
Proof.
  unfold export_mesh, when.
  destruct (skip_mesh args); cbn [negb]; [left; eexists; reflexivity | ].
  unfold obind, emit, read_local, oret, lift.
  destruct (unbounded args); [left; eexists; reflexivity | ].
  destruct (bounded_params _ args) as [p | e] eqn:E.
  - left. eexists. reflexivity.
  - destruct (bounded_params_raises _ _ _ E) as [-> | ->]; auto.
Qed.

Lemma export_train_cases (l : Log) :
  (skip_train args = true /\ export_train args scene files iteration l
                             = Ok (None, l))
  \/ (skip_train args = false /\ pose_optimized_npy files = None
      /\ export_train args scene files iteration l
         = Raise (FileNotFoundError
                    (pose_dir args iteration "pose_optimized.npy")))
  \/ (skip_train args = false
      /\ exists poses l', pose_optimized_npy files = Some poses
         /\ export_train args scene files iteration l = Ok (Some poses, l')).
Proof.
  unfold export_train.
  destruct (skip_train args); cbn [negb]; [left; split; reflexivity | ].
  right. unfold obind, emit, np_load, raise, oret.
  destruct (pose_optimized_npy files) as [poses | ].
  - right. split; [reflexivity | ]. exists poses. eexists.
    split; reflexivity.
  - left. repeat split.
Qed.

End SurfErrors.

(** Every way the surface branch can end. *)
Lemma render_sets_surf_outcome {X : Exporter} (args : Args) (scene : Scene)
  (files : Files) (iteration : Z) (l : Log) :
  let r := render_sets_surf args scene files iteration l in
  (eval args = true /\ arg_render_path args = false
   /\ exists l', r = Ok (tt, l'))
  \/ (eval args = true /\ arg_render_path args = true
      /\ r = Raise (UnboundLocalError "optimized_pose"))
  \/ (eval args = false /\ skip_train args = true /\ skip_mesh args = true
      /\ arg_render_path args = false /\ r = Ok (tt, l))
  \/ (eval args = false /\ skip_train args = true
      /\ (skip_mesh args = false \/ arg_render_path args = true)
      /\ r = Raise (UnboundLocalError "optimized_pose"))
  \/ (eval args = false /\ skip_train args = false
      /\ pose_optimized_npy files = None
      /\ r = Raise (FileNotFoundError
                      (pose_dir args iteration "pose_optimized.npy")))
  \/ (eval args = false /\ skip_train args = false
      /\ pose_optimized_npy files <> None
      /\ ((exists l', r = Ok (tt, l'))
          \/ r = Raise ZeroDivisionError \/ r = Raise OverflowError)).
Proof.
  intros r. unfold r, render_sets_surf, obind.
  destruct (eval args) eqn:Ee.
  - destruct (export_test_ok args scene l) as [l' ->]. cbn [oret].
    rewrite export_traj_none.
    destruct (arg_render_path args).
    + right. left. repeat split.
    + left. repeat split. eexists. reflexivity.
  - do 2 right.
    destruct (export_train_cases args scene files iteration l)
      as [[Hs ->] | [(Hs & Hf & ->) | (Hs & poses & l' & Hf & ->)]].
    + rewrite export_mesh_none.
      destruct (skip_mesh args) eqn:Em.
      * cbn [oret]. rewrite export_traj_none.
        destruct (arg_render_path args) eqn:Ep.
        -- right. left. repeat split; auto.
        -- left. repeat split; auto.
      * right. left. repeat split; auto.
    + do 2 right. left. repeat split; auto.
    + do 3 right. split; [reflexivity | ]. split; [exact Hs | ].
      split; [rewrite Hf; discriminate | ].
      destruct (export_mesh_some args scene poses l')
        as [[l'' ->] | [-> | ->]]; auto.
      left. cbn [oret]. apply export_traj_some.
Qed.

(** X7.  The surface branch ends in [UnboundLocalError] on
    [optimized_pose] exactly when that array was never loaded and a later
    step needs it: with [--eval] and [--render_path], or without [--eval]
    when [--skip_train] is given and either the mesh is exported or a
    trajectory is asked for.  The array is only ever loaded by the export
    of the training images. *)
Theorem surf_unbound_optimized_pose {X : Exporter} (args : Args)
  (scene : Scene) (files : Files) (iteration : Z) (l : Log) :
  render_sets_surf args scene files iteration l
  = Raise (UnboundLocalError "optimized_pose")
  <-> (eval args = true /\ arg_render_path args = true)
      \/ (eval args = false /\ skip_train args = true
          /\ (skip_mesh args = false \/ arg_render_path args = true)).
Proof.
  destruct (render_sets_surf_outcome args scene files iteration l)
    as [(He & Hp & l' & E) | [(He & Hp & E) | [(He & Hs & Hm & Hp & E)
       | [(He & Hs & Hmp & E) | [(He & Hs & Hf & E)
       | (He & Hs & Hf & [(l' & E) | [E | E]])]]]]];
    rewrite E; split; intros H; try discriminate; auto.
  all: destruct H as [(H1 & H2) | (H1 & H2 & [H3 | H3])]; congruence.
Qed.

Lemma surf_unbound_optimized_pose_witness :
  render_sets_surf (X := Scripted.exporter) Samples.eval_path_args
    Scripted.scene_without_test Samples.no_pose_file 7 []
  = Raise (UnboundLocalError "optimized_pose").
Proof.
  apply (proj2 (surf_unbound_optimized_pose (X := Scripted.exporter)
                  Samples.eval_path_args Scripted.scene_without_test
                  Samples.no_pose_file 7 [])).
  left. split; reflexivity.
Defined.

(** X8.  The surface branch ends in [FileNotFoundError] exactly when the
    training images are to be exported (no [--eval], no [--skip_train])
    and [pose_optimized.npy] is absent; the error names that file.  No
    pose is made up in its place. *)
Theorem surf_missing_pose_file {X : Exporter} (args : Args)
  (scene : Scene) (files : Files) (iteration : Z) (l : Log) (p : Path) :
  render_sets_surf args scene files iteration l
  = Raise (FileNotFoundError p)
  <-> eval args = false /\ skip_train args = false
      /\ pose_optimized_npy files = None
      /\ p = pose_dir args iteration "pose_optimized.npy".
Proof.
  destruct (render_sets_surf_outcome args scene files iteration l)
    as [(He & Hp & l' & E) | [(He & Hp & E) | [(He & Hs & Hm & Hp & E)
       | [(He & Hs & Hmp & E) | [(He & Hs & Hf & E)
       | (He & Hs & Hf & [(l' & E) | [E | E]])]]]]];
    rewrite E; split; intros H; try discriminate;
    try (destruct H as (H1 & H2 & H3 & H4); congruence).
  injection H as <-. auto.
Qed.

Lemma surf_missing_pose_file_witness :
  render_sets_surf (X := Scripted.exporter) Samples.surf_args
    Scripted.scene_without_test Samples.no_pose_file 7 []
  = Raise (FileNotFoundError
             (pose_dir Samples.surf_args 7 "pose_optimized.npy")).
Proof.
  apply (proj2 (surf_missing_pose_file (X := Scripted.exporter)
                  Samples.surf_args Scripted.scene_without_test
                  Samples.no_pose_file 7 [] _)).
  repeat split.
Defined.

(* ------------------------------------------------------------------ *)
(** ** File names *)

Lemma string_length_append (s t : string) :
  String.length (s ++ t)%string = (String.length s + String.length t)%nat.
Proof. induction s as [ | c s IH]; simpl; [reflexivity | rewrite IH; reflexivity]. Qed.

(** A suffix can be cancelled. *)
Lemma string_append_cancel_r (s s' t : string) :
  (s ++ t)%string = (s' ++ t)%string -> s = s'.
Proof.
  revert s'. induction s as [ | c s IH]; intros [ | c' s'] H; simpl in H.
  - reflexivity.
  - apply (f_equal String.length) in H. simpl in H.
    rewrite string_length_append in H. lia.
  - apply (f_equal String.length) in H. simpl in H.
    rewrite string_length_append in H. lia.
  - injection H as -> H. f_equal. apply IH, H.
Qed.

Lemma png_inj (s s' : string) : png s = png s' -> s = s'.
Proof. apply string_append_cancel_r. Qed.

Lemma parse_zeros (k : nat) (s : string) :
  parse_index (zeros k ++ s)%string = parse_index s.
Proof.
  unfold parse_index. induction k as [ | k IH]; [reflexivity | ].
  cbn [zeros String.append NilEmpty.uint_of_string].
  destruct (NilEmpty.uint_of_string (zeros k ++ s)) as [d | ];
    destruct (NilEmpty.uint_of_string s) as [d' | ];
    cbn in *; try discriminate; try reflexivity.
  injection IH as IH. f_equal. exact IH.
Qed.

Lemma parse_str_of_nat (n : nat) : parse_index (str_of_nat n) = Some n.
Proof.
  unfold parse_index, str_of_nat, NilZero.string_of_uint.
  destruct (Nat.to_uint n) as [ | | | | | | | | | | ] eqn:E;
    try (rewrite <- E at 1; rewrite NilEmpty.usu; cbn [option_map];
         rewrite DecimalNat.Unsigned.of_to; reflexivity);
    try (rewrite NilEmpty.usu; cbn [option_map]; rewrite <- E;
         rewrite DecimalNat.Unsigned.of_to; reflexivity).
  cbn. f_equal. rewrite <- (DecimalNat.Unsigned.of_to n), E. reflexivity.
Qed.

(** The position is read back from the zero-padded name. *)
Lemma parse_fmt_05d (n : nat) : parse_index (fmt_05d n) = Some n.
Proof. unfold fmt_05d. rewrite parse_zeros. apply parse_str_of_nat. Qed.

Lemma fmt_05d_inj (n m : nat) : fmt_05d n = fmt_05d m -> n = m.
Proof.
  intros H. apply (f_equal parse_index) in H.
  rewrite !parse_fmt_05d in H. injection H as H. exact H.
Qed.

Lemma fmt_05d_length (n : nat) : (5 <= String.length (fmt_05d n))%nat.
Proof.
  unfold fmt_05d. rewrite string_length_append.
  assert (H : forall k, String.length (zeros k) = k)
    by (induction k as [ | k IH]; simpl; [ | rewrite IH]; reflexivity).
  rewrite H. lia.
Qed.

Lemma saved_paths_app (a b : Log) :
  saved_paths (a ++ b) = saved_paths a ++ saved_paths b.
Proof. unfold saved_paths. apply flat_map_app. Qed.

Lemma saved_paths_flat_map {A} (f : A -> list Event) (l : list A) :
  saved_paths (flat_map f l) = flat_map (fun x => saved_paths (f x)) l.
Proof.
  induction l as [ | x l IH]; [reflexivity | ].
  cbn [flat_map]. rewrite saved_paths_app, IH. reflexivity.
Qed.

Lemma flat_map_nil {A C} (f : A -> list C) (l : list A) :
  (forall x, f x = []) -> flat_map f l = [].
Proof.
  intros H. induction l as [ | x l IH]; [reflexivity | ].
  cbn [flat_map]. rewrite H, IH. reflexivity.
Qed.

Lemma flat_map_singleton {A C} (f : A -> C) (l : list A) :
  flat_map (fun x => [f x]) l = map f l.
Proof.
  induction l as [ | x l IH]; [reflexivity | ].
  cbn [flat_map map app]. rewrite IH. reflexivity.
Qed.

Lemma nodup_map_inj {A C} (f : A -> C) (l : list A) :
  (forall a b, f a = f b -> a = b) -> NoDup l -> NoDup (map f l).
Proof.
  intros Hf. induction 1 as [ | x l Hx Hl IH]; cbn [map]; constructor.
  - intros Hin. apply in_map_iff in Hin. destruct Hin as (y & E & Hy).
    apply Hf in E. subst y. exact (Hx Hy).
  - exact IH.
Qed.

(** Files named by a key under one or two directories do not collide as
    long as the keys do not. *)
Lemma nodup_one_dir {A} (key : A -> string) (d : Path) (l : list A) :
  NoDup (map key l) -> NoDup (map (fun x => d ++ [key x]) l).
Proof.
  induction l as [ | x l IH]; intros H; cbn [map] in *.
  - constructor.
  - apply NoDup_cons_iff in H. destruct H as [Hx Hl].
    constructor; [ | apply IH, Hl].
    intros Hin. apply in_map_iff in Hin. destruct Hin as (y & E & Hy).
    apply app_inv_head in E. injection E as E.
    apply Hx. rewrite <- E. apply in_map, Hy.
Qed.

Lemma nodup_two_dirs {A} (key : A -> string) (d1 d2 : Path) (l : list A) :
  d1 <> d2 ->
  (NoDup (flat_map (fun x => [d1 ++ [key x]; d2 ++ [key x]]) l)
   <-> NoDup (map key l)).
Proof.
  intros Hd.
  assert (Hmem : forall p l',
            In p (flat_map (fun x => [d1 ++ [key x]; d2 ++ [key x]]) l') ->
            exists y, In y l' /\ (p = d1 ++ [key y] \/ p = d2 ++ [key y])).
  { intros p l' Hp. apply in_flat_map in Hp. destruct Hp as (y & Hy & Hp).
    exists y. split; [exact Hy | ].
    destruct Hp as [<- | [<- | []]]; auto. }
  induction l as [ | x l IH]; cbn [flat_map map app].
  - split; constructor.
  - rewrite !NoDup_cons_iff, IH. split.
    + intros (H1 & H2 & H3). split; [ | exact H3].
      intros Hin. apply in_map_iff in Hin. destruct Hin as (y & E & Hy).
      apply H2. apply in_flat_map. exists y. split; [exact Hy | ].
      right. left. rewrite E. reflexivity.
    + intros (Hx & Hl). split; [ | split; [ | exact Hl]].
      * intros [E | Hin].
        -- apply app_inj_tail in E. destruct E as [E _]. congruence.
        -- destruct (Hmem _ _ Hin) as (y & Hy & [E | E]);
             apply app_inj_tail in E; destruct E as [E1 E2];
             [ | congruence].
           apply Hx. rewrite E2. apply in_map, Hy.
      * intros Hin.
        destruct (Hmem _ _ Hin) as (y & Hy & [E | E]);
          apply app_inj_tail in E; destruct E as [E1 E2];
          [congruence | ].
        apply Hx. rewrite E2. apply in_map, Hy.
Qed.

Section SavedFiles.

Context {B : Backend}.

Lemma enumerate_keys (views : list View) :
  NoDup (map (fun iv : nat * View => png (fmt_05d (fst iv)))
             (enumerate views)).
Proof.
  unfold enumerate. generalize 0%nat as a.
  induction views as [ | v views IH]; intros a; cbn [List.length seq combine map].
  - constructor.
  - constructor; [ | apply IH].
    intros Hin. apply in_map_iff in Hin.
    destruct Hin as ((i & w) & E & Hi). cbn [fst] in E.
    apply png_inj, fmt_05d_inj in E. subst i.
    apply in_combine_l, in_seq in Hi. lia.
Qed.

Lemma view_events_paths (mp name : string) (iteration : Z)
  (g : GaussianModel) (iv : nat * View) :
  saved_paths (view_events mp name iteration g iv)
  = if String.eqb name "interp"
    then [renders_dir mp name iteration ++ [png (fmt_05d (fst iv))]]
    else [renders_dir mp name iteration ++ [png (fmt_05d (fst iv))];
          gt_dir mp name iteration ++ [png (fmt_05d (fst iv))]].
Proof.
  unfold view_events. destruct (String.eqb name "interp"); reflexivity.
Qed.

Lemma solo_view_paths (args : Args) (mp name : string) (iteration : Z)
  (g : GaussianModel) (v : View) :
  saved_paths (rs_log (solo_view args mp name iteration g v))
  = [renders_dir mp name iteration ++ [png (image_name v)];
     gt_dir mp name iteration ++ [png (image_name v)]].
Proof.
  rewrite solo_view_log, saved_paths_app, saved_paths_flat_map.
  rewrite flat_map_nil by reflexivity. reflexivity.
Qed.

End SavedFiles.

Lemma render_set_saved_paths {B : Backend}
  (mp name : string) (iteration : Z) (views : list View)
  (g : GaussianModel) :
  saved_paths (render_set mp name iteration views g)
  = flat_map (fun iv : nat * View =>
                if String.eqb name "interp"
                then [renders_dir mp name iteration
                      ++ [png (fmt_05d (fst iv))]]
                else [renders_dir mp name iteration
                      ++ [png (fmt_05d (fst iv))];
                      gt_dir mp name iteration
                      ++ [png (fmt_05d (fst iv))]])
             (enumerate views).
Proof.
  unfold render_set. rewrite render_fold_log, saved_paths_app.
  rewrite saved_paths_flat_map. cbn [saved_paths flat_map app].
  apply flat_map_ext. intros iv. apply view_events_paths.
Qed.

(** X9.  [render_set] writes every image to a file of its own: the
    rendering of the view at position [idx] goes to
    [renders/<idx, at least five digits>.png], its ground truth (when
    written) to the same name under [gt], the position can be read back
    from the name, and no two images of one call share a path. *)
Theorem render_set_files_distinct {B : Backend}
  (mp name : string) (iteration : Z) (views : list View)
  (g : GaussianModel) :
  saved_paths (render_set mp name iteration views g)
  = flat_map (fun iv : nat * View =>
                if String.eqb name "interp"
                then [renders_dir mp name iteration
                      ++ [png (fmt_05d (fst iv))]]
                else [renders_dir mp name iteration
                      ++ [png (fmt_05d (fst iv))];
                      gt_dir mp name iteration
                      ++ [png (fmt_05d (fst iv))]])
             (enumerate views)
  /\ NoDup (saved_paths (render_set mp name iteration views g))
  /\ (forall idx, parse_index (fmt_05d idx) = Some idx
                  /\ (5 <= String.length (fmt_05d idx))%nat).
Proof.
  assert (E : saved_paths (render_set mp name iteration views g)
              = flat_map (fun iv : nat * View =>
                  if String.eqb name "interp"
                  then [renders_dir mp name iteration
                        ++ [png (fmt_05d (fst iv))]]
                  else [renders_dir mp name iteration
                        ++ [png (fmt_05d (fst iv))];
                        gt_dir mp name iteration
                        ++ [png (fmt_05d (fst iv))]])
                (enumerate views)).
  { unfold render_set. rewrite render_fold_log, saved_paths_app.
    rewrite saved_paths_flat_map. cbn [saved_paths flat_map app].
    apply flat_map_ext. intros iv. apply view_events_paths. }
  split; [exact E | ]. split.
  - rewrite E. destruct (String.eqb name "interp").
    + rewrite (flat_map_singleton
                 (fun iv : nat * View =>
                    renders_dir mp name iteration ++ [png (fmt_05d (fst iv))])).
      apply (nodup_one_dir (fun iv : nat * View => png (fmt_05d (fst iv)))),
        enumerate_keys.
    + apply (nodup_two_dirs (fun iv : nat * View => png (fmt_05d (fst iv)))).
      * apply renders_dir_not_gt_dir.
      * apply enumerate_keys.
  - intros idx. split; [apply parse_fmt_05d | apply fmt_05d_length].
Qed.

(** X10.  [render_set_optimize] names the files of a view after the view's
    [image_name], for every split: the images of one call go to distinct
    files exactly when the views have distinct names, and two views of the
    same name overwrite each other's rendering and ground truth. *)
Theorem render_set_optimize_files_distinct {B : Backend}
  (args : Args) (mp name : string) (iteration : Z) (views : list View)
  (g : GaussianModel) :
  saved_paths (rs_log (refine_all args mp name iteration views g))
  = flat_map (fun v => [renders_dir mp name iteration ++ [png (image_name v)];
                        gt_dir mp name iteration ++ [png (image_name v)]])
             views
  /\ (NoDup (saved_paths (rs_log (refine_all args mp name iteration views g)))
      <-> NoDup (map image_name views)).
Proof.
  assert (E : saved_paths (rs_log (refine_all args mp name iteration views g))
              = flat_map (fun v =>
                  [renders_dir mp name iteration ++ [png (image_name v)];
                   gt_dir mp name iteration ++ [png (image_name v)]])
                views).
  { rewrite refine_all_log_split, saved_paths_app, saved_paths_flat_map.
    cbn [saved_paths flat_map app].
    apply flat_map_ext. intros v. apply solo_view_paths. }
  split; [exact E | ]. rewrite E.
  rewrite (nodup_two_dirs (fun v => png (image_name v)))
    by apply renders_dir_not_gt_dir.
  rewrite <- (map_map image_name png). split.
  - apply NoDup_map_inv.
  - apply nodup_map_inj. intros a b. apply png_inj.
Qed.

(* ------------------------------------------------------------------ *)
(** ** Sorting by a total order *)

Section SortBy.

Variable A : Type.
Variable le : A -> A -> bool.
Hypothesis le_total : forall x y, le x y = true \/ le y x = true.
Hypothesis le_trans :
  forall x y z, le x y = true -> le y z = true -> le x z = true.
Hypothesis le_antisym : forall x y, le x y = true -> le y x = true -> x = y.

Let lep (x y : A) : Prop := le x y = true.

Lemma insert_by_perm (x : A) (l : list A) :
  Permutation (insert_by le x l) (x :: l).
Proof.
  induction l as [ | y r IH]; cbn [insert_by].
  - apply Permutation_refl.
  - destruct (le x y).
    + apply Permutation_refl.
    + apply Permutation_trans with (y :: x :: r).
      * apply perm_skip, IH.
      * apply perm_swap.
Qed.

Lemma sort_by_perm (l : list A) : Permutation (sort_by le l) l.
Proof.
  induction l as [ | x r IH]; cbn [sort_by].
  - apply perm_nil.
  - apply Permutation_trans with (x :: sort_by le r).
    + apply insert_by_perm.
    + apply perm_skip, IH.
Qed.

Lemma insert_by_sorted (x : A) (l : list A) :
  StronglySorted lep l -> StronglySorted lep (insert_by le x l).
Proof.
  induction 1 as [ | y r Hr IH Hy]; cbn [insert_by].
  - constructor; constructor.
  - destruct (le x y) eqn:E.
    + constructor; [constructor; assumption | ].
      constructor; [exact E | ].
      eapply Forall_impl; [ | exact Hy].
      intros z Hz. exact (le_trans _ _ _ E Hz).
    + constructor; [exact IH | ].
      apply (Permutation_Forall (Permutation_sym (insert_by_perm x r))).
      constructor; [ | exact Hy].
      destruct (le_total x y) as [H | H]; [congruence | exact H].
Qed.

Lemma sort_by_sorted (l : list A) : StronglySorted lep (sort_by le l).
Proof.
  induction l as [ | x r IH]; cbn [sort_by].
  - constructor.
  - apply insert_by_sorted, IH.
Qed.

(** Two sorted lists with the same elements are the same list. *)
Lemma sorted_perm_eq (l l' : list A) :
  StronglySorted lep l -> StronglySorted lep l' -> Permutation l l' ->
  l = l'.
Proof.
  intros Hl. revert l'. induction Hl as [ | x r Hr IH Hx]; intros l' Hl' Hp.
  - apply Permutation_nil in Hp. subst. reflexivity.
  - destruct Hl' as [ | y r' Hr' Hy].
    + apply Permutation_sym, Permutation_nil in Hp. discriminate.
    + assert (Exy : x = y).
      { apply le_antisym.
        - assert (Hin : In y (x :: r))
            by (apply (Permutation_in _ (Permutation_sym Hp)); left;
                reflexivity).
          destruct Hin as [-> | Hin].
          + destruct (le_total y y); assumption.
          + rewrite Forall_forall in Hx. apply Hx, Hin.
        - assert (Hin : In x (y :: r'))
            by (apply (Permutation_in _ Hp); left; reflexivity).
          destruct Hin as [-> | Hin].
          + destruct (le_total x x); assumption.
          + rewrite Forall_forall in Hy. apply Hy, Hin. }
      subst y. f_equal. apply IH; [exact Hr' | ].
      apply (Permutation_cons_inv Hp).
Qed.

Lemma sort_by_unique (l l' : list A) :
  Permutation l l' -> sort_by le l = sort_by le l'.
Proof.
  intros Hp. apply sorted_perm_eq; try apply sort_by_sorted.
  apply Permutation_trans with l; [apply sort_by_perm | ].
  apply Permutation_trans with l'; [exact Hp | ].
  apply Permutation_sym, sort_by_perm.
Qed.

Lemma sort_by_of_sorted (l : list A) :
  StronglySorted lep l -> sort_by le l = l.
Proof.
  intros H. apply sorted_perm_eq;
    [apply sort_by_sorted | exact H | apply sort_by_perm].
Qed.

Lemma filter_sorted (p : A -> bool) (l : list A) :
  StronglySorted lep l -> StronglySorted lep (filter p l).
Proof.
  induction 1 as [ | x r Hr IH Hx]; cbn [filter]; [constructor | ].
  destruct (p x); [ | exact IH].
  constructor; [exact IH | ].
  rewrite Forall_forall in *. intros y Hy. apply filter_In in Hy.
  apply Hx, Hy.
Qed.

End SortBy.

(* ------------------------------------------------------------------ *)
(** ** The order on file names *)

Lemma ascii_compare_refl (a : ascii) : Ascii.compare a a = Eq.
Proof. unfold Ascii.compare. apply N.compare_refl. Qed.

Lemma string_compare_refl (s : string) : String.compare s s = Eq.
Proof.
  induction s as [ | c s IH]; [reflexivity | ].
  cbn [String.compare]. rewrite ascii_compare_refl. exact IH.
Qed.

Lemma string_leb_refl (s : string) : String.leb s s = true.
Proof. unfold String.leb. rewrite string_compare_refl. reflexivity. Qed.

Lemma string_leb_trans (s1 s2 s3 : string) :
  String.leb s1 s2 = true -> String.leb s2 s3 = true ->
  String.leb s1 s3 = true.
Proof.
  unfold String.leb. revert s2 s3.
  induction s1 as [ | a s1 IH]; intros [ | b s2] [ | c s3];
    cbn [String.compare]; try discriminate; try reflexivity.
  unfold Ascii.compare.
  destruct (N.compare_spec (N_of_ascii a) (N_of_ascii b)) as [E1 | E1 | E1];
    destruct (N.compare_spec (N_of_ascii b) (N_of_ascii c)) as [E2 | E2 | E2];
    try discriminate; intros H1 H2.
  - rewrite E1, E2, N.compare_refl. apply (IH s2 s3 H1 H2).
  - rewrite E1. apply N.compare_lt_iff in E2. rewrite E2. reflexivity.
  - rewrite <- E2. apply N.compare_lt_iff in E1. rewrite E1. reflexivity.
  - assert (E : (N_of_ascii a < N_of_ascii c)%N) by lia.
    apply N.compare_lt_iff in E. rewrite E. reflexivity.
Qed.

(* ------------------------------------------------------------------ *)
(** ** images_to_video: which files, in which order *)

Lemma substring_all (s : string) : substring 0 (String.length s) s = s.
Proof.
  induction s as [ | c s IH]; [reflexivity | ].
  cbn [String.length substring]. rewrite IH. reflexivity.
Qed.

Lemma substring_append_r (a b : string) :
  substring (String.length a) (String.length b) (a ++ b)%string = b.
Proof.
  induction a as [ | c a IH]; cbn [String.length String.append substring].
  - apply substring_all.
  - exact IH.
Qed.

Lemma substring_split (s : string) (k : nat) :
  (k <= String.length s)%nat ->
  s = (substring 0 k s ++ substring k (String.length s - k) s)%string.
Proof.
  revert k. induction s as [ | c s IH]; intros k Hk.
  - cbn [String.length] in Hk. replace k with 0%nat by lia. reflexivity.
  - destruct k as [ | k].
    + change (substring 0 0 (String c s)) with EmptyString.
      cbn [String.append]. rewrite Nat.sub_0_r. symmetry.
      apply substring_all.
    + cbn [String.length] in Hk.
      cbn [substring String.append String.length Nat.sub].
      f_equal. apply IH. lia.
Qed.

(** [endswith] holds exactly of the strings that are some stem followed by
    the suffix. *)
Lemma endswith_spec (s suffix : string) :
  endswith s suffix = true <-> exists stem, s = (stem ++ suffix)%string.
Proof.
  unfold endswith. split.
  - intros H. apply andb_true_iff in H. destruct H as [Hle He].
    apply Nat.leb_le in Hle. apply String.eqb_eq in He.
    exists (substring 0 (String.length s - String.length suffix) s).
    rewrite <- He at 2.
    rewrite (substring_split s (String.length s - String.length suffix))
      at 1 by lia.
    do 2 f_equal. lia.
  - intros (stem & ->). rewrite string_length_append.
    apply andb_true_iff. split; [apply Nat.leb_le; lia | ].
    apply String.eqb_eq.
    replace (String.length stem + String.length suffix
             - String.length suffix)%nat
      with (String.length stem) by lia.
    apply substring_append_r.
Qed.

Lemma is_image_file_spec (f : string) :
  is_image_file f = true
  <-> exists stem suffix, In suffix image_suffixes
                          /\ f = (stem ++ suffix)%string.
Proof.
  unfold is_image_file. rewrite existsb_exists. split.
  - intros (suffix & Hin & H). apply endswith_spec in H.
    destruct H as (stem & ->). exists stem, suffix. auto.
  - intros (stem & suffix & Hin & ->). exists suffix.
    split; [exact Hin | ]. apply endswith_spec. exists stem. reflexivity.
Qed.

Lemma filter_perm {A} (p : A -> bool) (l l' : list A) :
  Permutation l l' -> Permutation (filter p l) (filter p l').
Proof.
  induction 1 as [ | x l l' H IH | x y l | l l' l'' H1 IH1 H2 IH2];
    cbn [filter].
  - constructor.
  - destruct (p x); [apply perm_skip | ]; exact IH.
  - destruct (p x), (p y); try apply Permutation_refl. apply perm_swap.
  - eapply Permutation_trans; eassumption.
Qed.

Lemma sorted_names_sorted (l : list string) :
  StronglySorted (fun a b => String.leb a b = true) (sorted_names l).
Proof.
  apply sort_by_sorted; [apply String.leb_total | apply string_leb_trans].
Qed.

Lemma sorted_names_perm (l : list string) : Permutation (sorted_names l) l.
Proof. apply sort_by_perm. Qed.

Lemma sorted_names_unique (l l' : list string) :
  Permutation l l' -> sorted_names l = sorted_names l'.
Proof.
  apply sort_by_unique;
    [apply String.leb_total | apply string_leb_trans
     | apply String.leb_antisym].
Qed.

(** X11.  [images_to_video] reads exactly the directory entries whose name
    ends in [.png], [.jpg], [.jpeg], [.JPG] or [.PNG] (so [.jpeg] is
    accepted and [.JPEG] is not), each as often as it is listed, in
    ascending order of their names, and then writes one video of these
    frames.  The order in which the directory is listed makes no
    difference. *)
Theorem images_to_video_frames (listing : list string)
  (image_folder output_video_path : Path) (fps : Z) :
  let frames := video_frames listing in
  (forall f, In f frames
             <-> In f listing
                 /\ exists stem suffix, In suffix image_suffixes
                                        /\ f = (stem ++ suffix)%string)
  /\ StronglySorted (fun a b => String.leb a b = true) frames
  /\ Permutation frames (filter is_image_file listing)
  /\ images_to_video listing image_folder output_video_path fps
     = map (fun f => VeImread (image_folder ++ [f])) frames
       ++ [VeMimwrite output_video_path
             (map (fun f => image_folder ++ [f]) frames) fps]
  /\ (forall listing', Permutation listing listing' ->
        images_to_video listing' image_folder output_video_path fps
        = images_to_video listing image_folder output_video_path fps)
  /\ is_image_file "frame.jpeg" = true
  /\ is_image_file "frame.JPEG" = false.
Proof.
  intros frames. unfold frames, video_frames.
  split.
  { intros f. rewrite filter_In, is_image_file_spec. split.
    - intros [Hin H]. split; [ | exact H].
      apply (Permutation_in _ (sorted_names_perm listing)), Hin.
    - intros [Hin H]. split; [ | exact H].
      apply (Permutation_in _ (Permutation_sym (sorted_names_perm listing))),
        Hin. }
  split.
  { apply filter_sorted, sorted_names_sorted. }
  split.
  { apply filter_perm, sorted_names_perm. }
  split.
  { unfold images_to_video, video_frames. rewrite map_map. reflexivity. }
  split.
  { intros listing' Hp. unfold images_to_video, video_frames.
    rewrite (sorted_names_unique listing listing' Hp). reflexivity. }
  split; reflexivity.
Qed.

(** A directory holding a frame and the video made from it, listed in two
    orders. *)
Lemma images_to_video_frames_witness :
  images_to_video ["b.mp4"; "a.png"]%string ["out"%string]
    ["out"%string; "b.mp4"%string] 30
  = images_to_video ["a.png"; "b.mp4"]%string ["out"%string]
      ["out"%string; "b.mp4"%string] 30.
Proof.
  apply (images_to_video_frames ["a.png"; "b.mp4"]%string ["out"%string]
           ["out"%string; "b.mp4"%string] 30).
  apply perm_swap.
Defined.

(* ------------------------------------------------------------------ *)
(** ** Zero-padded names sort like the numbers they spell *)

Module Digits.

Import Decimal.

Lemma usize_nb_digits (d : uint) :
  DecimalNat.Unsigned.usize d = nb_digits d.
Proof.
  induction d; cbn [DecimalNat.Unsigned.usize nb_digits]; congruence.
Qed.

(** Reading on from an accumulator [k]: [k] is shifted past the digits
    of [d]. *)
Lemma value_cons (d : uint) (k : nat) :
  Nat.of_uint_acc d k = (k * 10 ^ nb_digits d + Nat.of_uint d)%nat.
Proof.
  unfold Nat.of_uint.
  rewrite (DecimalNat.Unsigned.of_uint_acc_spec k d).
  rewrite (DecimalNat.Unsigned.of_uint_acc_spec 0 d).
  rewrite usize_nb_digits. lia.
Qed.

(** The value of a digit string: its first digit, shifted, plus the value
    of the rest. *)
Lemma value_step (d : uint) :
  Nat.of_uint d
  = (DecimalNat.Unsigned.hd d * 10 ^ nb_digits (DecimalNat.Unsigned.tl d)
     + Nat.of_uint (DecimalNat.Unsigned.tl d))%nat.
Proof.
  destruct d; unfold Nat.of_uint at 1;
    cbn [Nat.of_uint_acc DecimalNat.Unsigned.hd DecimalNat.Unsigned.tl];
    try change (Nat.tail_mul 10 0) with 0%nat;
    try apply value_cons.
  reflexivity.
Qed.

Lemma hd_le_9 (d : uint) : (DecimalNat.Unsigned.hd d <= 9)%nat.
Proof. destruct d; cbn; lia. Qed.

Lemma nb_digits_tl (d : uint) :
  d <> Nil -> nb_digits d = S (nb_digits (DecimalNat.Unsigned.tl d)).
Proof. destruct d; try reflexivity. congruence. Qed.

Lemma value_lt (d : uint) : (Nat.of_uint d < 10 ^ nb_digits d)%nat.
Proof.
  induction d;
    try (rewrite value_step;
         cbn [DecimalNat.Unsigned.tl DecimalNat.Unsigned.hd nb_digits];
         rewrite Nat.pow_succ_r'; lia).
  cbn. lia.
Qed.

Lemma compare_add_l (a v v' : nat) :
  Nat.compare (a + v) (a + v') = Nat.compare v v'.
Proof.
  induction a as [ | a IH]; [reflexivity | ].
  cbn [Nat.add]. rewrite Nat.compare_succ. exact IH.
Qed.

Ltac eval_ascii_compare :=
  match goal with
  | |- context [Ascii.compare ?a ?b] =>
      let c := eval vm_compute in (Ascii.compare a b) in
      change (Ascii.compare a b) with c
  end.

(** Two digit strings of the same length compare as their values do. *)
Lemma digits_compare (d d' : uint) :
  nb_digits d = nb_digits d' ->
  String.compare (NilEmpty.string_of_uint d) (NilEmpty.string_of_uint d')
  = Nat.compare (Nat.of_uint d) (Nat.of_uint d').
Proof.
  revert d'. induction d; intros d' Hn; destruct d';
    cbn [nb_digits] in Hn; try discriminate; try reflexivity;
    injection Hn as Hn;
    match goal with
    | |- _ = Nat.compare (Nat.of_uint ?x) (Nat.of_uint ?y) =>
        rewrite (value_step x), (value_step y)
    end;
    cbn [DecimalNat.Unsigned.hd DecimalNat.Unsigned.tl];
    rewrite <- Hn;
    cbn [NilEmpty.string_of_uint String.compare];
    eval_ascii_compare; cbv iota;
    pose proof (value_lt d) as Hv; pose proof (value_lt d') as Hv';
    rewrite <- Hn in Hv';
    first [ rewrite compare_add_l; apply IHd; exact Hn
          | symmetry; apply Nat.compare_lt_iff; lia
          | symmetry; apply Nat.compare_gt_iff; lia ].
Qed.

(** Appending the same suffix to two strings of the same length does not
    change how they compare. *)
Lemma compare_append (s s' t : string) :
  String.length s = String.length s' ->
  String.compare (s ++ t) (s' ++ t) = String.compare s s'.
Proof.
  revert s'. induction s as [ | c s IH]; intros [ | c' s'] H;
    cbn [String.length] in H; try discriminate.
  - cbn [String.append]. apply string_compare_refl.
  - cbn [String.append String.compare].
    destruct (Ascii.compare c c'); try reflexivity.
    apply IH. lia.
Qed.

Lemma to_uint_norm (n : nat) : unorm (Nat.to_uint n) = Nat.to_uint n.
Proof.
  rewrite <- (DecimalNat.Unsigned.of_to n) at 2.
  symmetry. apply DecimalNat.Unsigned.to_of.
Qed.

Lemma to_uint_nonnil (n : nat) : Nat.to_uint n <> Nil.
Proof. rewrite <- to_uint_norm. apply DecimalFacts.unorm_nonnil. Qed.

(** A normalised digit string is the single digit 0 or starts with a
    digit that is not 0. *)
Lemma norm_leading (d : uint) :
  unorm d = d -> d = D0 Nil \/ (1 <= DecimalNat.Unsigned.hd d)%nat.
Proof.
  unfold unorm. intros H.
  pose proof (DecimalFacts.nzhead_nonzero d) as Hnz.
  destruct (nzhead d) eqn:E; rewrite <- H;
    try (right; cbn; lia).
  - left. reflexivity.
  - exfalso. apply (Hnz u). reflexivity.
Qed.

Lemma to_uint_digits (n k : nat) :
  (1 <= k)%nat -> (n < 10 ^ k)%nat -> (nb_digits (Nat.to_uint n) <= k)%nat.
Proof.
  intros Hk Hn.
  pose proof (DecimalNat.Unsigned.of_to n) as Hv.
  destruct (norm_leading (Nat.to_uint n) (to_uint_norm n)) as [E | Hh].
  - rewrite E. cbn. lia.
  - rewrite value_step in Hv.
    pose proof (to_uint_nonnil n) as Hnn.
    rewrite (nb_digits_tl _ Hnn).
    set (m := nb_digits (DecimalNat.Unsigned.tl (Nat.to_uint n))) in *.
    assert (Hp : (10 ^ m < 10 ^ k)%nat) by nia.
    apply Nat.pow_lt_mono_r_iff in Hp; lia.
Qed.

Lemma string_of_iter_D0 (k : nat) (d : uint) :
  NilEmpty.string_of_uint (Nat.iter k D0 d)
  = (zeros k ++ NilEmpty.string_of_uint d)%string.
Proof.
  induction k as [ | k IH]; [reflexivity | ].
  cbn [Nat.iter nat_rect NilEmpty.string_of_uint zeros String.append].
  change (nat_rect (fun _ => uint) d (fun _ => D0) k) with (Nat.iter k D0 d).
  rewrite IH. reflexivity.
Qed.

Lemma value_iter_D0 (k : nat) (d : uint) :
  Nat.of_uint (Nat.iter k D0 d) = Nat.of_uint d.
Proof.
  induction k as [ | k IH]; [reflexivity | ].
  cbn [Nat.iter nat_rect].
  change (nat_rect (fun _ => uint) d (fun _ => D0) k) with (Nat.iter k D0 d).
  rewrite value_step. cbn [DecimalNat.Unsigned.hd DecimalNat.Unsigned.tl].
  rewrite IH. lia.
Qed.

Lemma string_of_uint_length (d : uint) :
  String.length (NilEmpty.string_of_uint d) = nb_digits d.
Proof.
  induction d; cbn [NilEmpty.string_of_uint String.length nb_digits];
    congruence.
Qed.

Lemma fmt_05d_padded (n : nat) :
  fmt_05d n = NilEmpty.string_of_uint (padded n).
Proof.
  unfold fmt_05d, padded, str_of_nat, NilZero.string_of_uint.
  pose proof (to_uint_nonnil n) as Hnn.
  rewrite string_of_iter_D0.
  destruct (Nat.to_uint n) eqn:E; try congruence;
    rewrite string_of_uint_length; reflexivity.
Qed.

Lemma padded_value (n : nat) : Nat.of_uint (padded n) = n.
Proof.
  unfold padded. rewrite value_iter_D0. apply DecimalNat.Unsigned.of_to.
Qed.

Lemma padded_digits (n : nat) :
  (n < 100000)%nat -> nb_digits (padded n) = 5%nat.
Proof.
  intros Hn. unfold padded. rewrite DecimalFacts.nb_digits_iter_D0.
  assert (H : (nb_digits (Nat.to_uint n) <= 5)%nat).
  { apply to_uint_digits; [lia | ].
    change (10 ^ 5)%nat with 100000%nat. exact Hn. }
  lia.
Qed.

(** Below 100000 the names compare as the positions do. *)
Lemma fmt_05d_compare (i j : nat) :
  (i < 100000)%nat -> (j < 100000)%nat ->
  String.compare (png (fmt_05d i)) (png (fmt_05d j)) = Nat.compare i j.
Proof.
  intros Hi Hj. unfold png. rewrite !fmt_05d_padded.
  rewrite compare_append
    by (rewrite !string_of_uint_length, !padded_digits by assumption;
        reflexivity).
  rewrite digits_compare by (rewrite !padded_digits by assumption;
                             reflexivity).
  rewrite !padded_value. reflexivity.
Qed.

End Digits.

Lemma filter_all {A} (p : A -> bool) (l : list A) :
  (forall x, In x l -> p x = true) -> filter p l = l.
Proof.
  induction l as [ | x l IH]; intros H; [reflexivity | ].
  cbn [filter]. rewrite (H x (or_introl eq_refl)). f_equal.
  apply IH. intros y Hy. apply H. right. exact Hy.
Qed.

Lemma png_is_image (stem : string) : is_image_file (png stem) = true.
Proof.
  apply is_image_file_spec. exists stem, ".png"%string.
  split; [left; reflexivity | reflexivity].
Qed.

(** The names [render_set] gives to consecutive positions are in ascending
    order as long as the positions stay below 100000. *)
Lemma frame_names_sorted (a n : nat) :
  (a + n <= 100000)%nat ->
  StronglySorted (fun x y => String.leb x y = true)
    (map (fun i => png (fmt_05d i)) (seq a n)).
Proof.
  revert a. induction n as [ | n IH]; intros a H; cbn [seq map].
  - constructor.
  - constructor; [apply IH; lia | ].
    rewrite Forall_forall. intros x Hx. apply in_map_iff in Hx.
    destruct Hx as (j & <- & Hj). apply in_seq in Hj.
    unfold String.leb. rewrite Digits.fmt_05d_compare by lia.
    assert (E : Nat.compare a j = Lt) by (apply Nat.compare_lt_iff; lia).
    rewrite E. reflexivity.
Qed.

Lemma enumerate_fst (views : list View) :
  map fst (enumerate views) = seq 0 (List.length views).
Proof.
  unfold enumerate. generalize 0%nat as a.
  induction views as [ | v views IH]; intros a; [reflexivity | ].
  cbn [List.length seq combine map fst]. rewrite IH. reflexivity.
Qed.

(** X12.  The frames of the interpolated split reach the video in the
    order of the views.  If the folder lists, in any order, exactly the
    files [render_set] wrote for the split "interp", and there are at most
    100000 views, [images_to_video] reads them in the order of the
    positions 0, 1, 2, ...: below 100000 the zero-padded names compare as
    the positions do.  From 100000 on they no longer do: frame 100000 is
    read before frame 99999. *)
Theorem interp_frames_in_view_order {B : Backend}
  (mp : string) (iteration : Z) (views : list View) (g : GaussianModel)
  (listing : list string) :
  let written := saved_names (render_set mp "interp" iteration views g) in
  written = map (fun i => png (fmt_05d i)) (seq 0 (List.length views))
  /\ ((List.length views <= 100000)%nat ->
      Permutation listing written ->
      video_frames listing = written)
  /\ (forall i j, (i < 100000)%nat -> (j < 100000)%nat ->
        String.compare (png (fmt_05d i)) (png (fmt_05d j))
        = Nat.compare i j)
  /\ video_frames [png (fmt_05d 99999); png (fmt_05d 100000)]
     = [png (fmt_05d 100000); png (fmt_05d 99999)].
Proof.
  intros written.
  assert (E : written
              = map (fun i => png (fmt_05d i)) (seq 0 (List.length views))).
  { unfold written, saved_names.
    rewrite (render_set_saved_paths mp "interp" iteration views g).
    cbn [String.eqb Ascii.eqb Bool.eqb].
    rewrite (flat_map_singleton
               (fun iv : nat * View =>
                  renders_dir mp "interp" iteration
                  ++ [png (fmt_05d (fst iv))])).
    rewrite map_map. rewrite <- enumerate_fst, map_map.
    apply map_ext. intros iv. apply last_last. }
  split; [exact E | ]. split.
  { intros Hn Hp. unfold video_frames.
    rewrite (sorted_names_unique listing written Hp).
    unfold sorted_names.
    rewrite (sort_by_of_sorted string String.leb String.leb_total
               string_leb_trans String.leb_antisym written).
    - apply filter_all. intros x Hx. rewrite E in Hx.
      apply in_map_iff in Hx. destruct Hx as (i & <- & _).
      apply png_is_image.
    - rewrite E. apply frame_names_sorted. exact Hn. }
  split; [apply Digits.fmt_05d_compare | ].
  vm_compute. reflexivity.
Qed.

Lemma interp_frames_in_view_order_witness :
  video_frames [png (fmt_05d 2); png (fmt_05d 0); png (fmt_05d 1)]
  = saved_names
      (render_set (B := Scripted.backend) "out" "interp" 7
         [Scripted.view3; Scripted.view3; Scripted.view3] Scripted.scene0).
Proof.
  apply (proj1 (proj2 (interp_frames_in_view_order
                         (B := Scripted.backend) "out" 7
                         [Scripted.view3; Scripted.view3; Scripted.view3]
                         Scripted.scene0
                         [png (fmt_05d 2); png (fmt_05d 0);
                          png (fmt_05d 1)]))).
  - apply Nat.leb_le. vm_compute. reflexivity.
  - vm_compute.
    apply perm_trans with
      (l' := [png (fmt_05d 0); png (fmt_05d 2); png (fmt_05d 1)]);
      [apply perm_swap | apply perm_skip; apply perm_swap].
Defined.

(* ------------------------------------------------------------------ *)
(** ** save_interpolate_pose *)

Lemma path_eqb_refl (p : Path) : path_eqb p p = true.
Proof. unfold path_eqb. destruct (list_eq_dec string_dec p p); congruence. Qed.

Lemma path_eqb_eq (p q : Path) : path_eqb p q = true <-> p = q.
Proof.
  unfold path_eqb. destruct (list_eq_dec string_dec p q); split; intros H;
    congruence.
Qed.

Lemma path_eqb_neq (p q : Path) : p <> q -> path_eqb p q = false.
Proof.
  intros H. unfold path_eqb.
  destruct (list_eq_dec string_dec p q); congruence.
Qed.

(** The two slice assignments into [np.eye(4)] leave the last row of the
    identity under the pose. *)
Lemma to_view_rows (p : Np.Pose34) :
  to_view p = Np.mkPose44 (Np.p0 p) (Np.p1 p) (Np.p2 p)
                (Np.mkRow zero zero zero one).
Proof. destruct p as [[] [] []]. reflexivity. Qed.

Lemma top3_to_view (p : Np.Pose34) : Np.top3 (to_view p) = p.
Proof. destruct p as [[] [] []]. reflexivity. Qed.

Lemma index_last_spec {A} (a : list A) (d : A) :
  index_last a = match a with [] => Failed IndexError | _ => Done (last a d) end.
Proof.
  unfold index_last. destruct a as [ | x a]; [reflexivity | ].
  destruct (exists_last (l := x :: a)) as (l' & y & E); [discriminate | ].
  rewrite E, rev_app_distr, last_last. reflexivity.
Qed.

Section SegmentFacts.

Context {T : PoseTools}.

(** A loop that returns has asked for one segment per index, in order. *)
Lemma interpolate_segments_done (org : list Np.Pose44) (n_interp : Z)
  (idxs : list nat) (segs : list (list Np.Pose34)) :
  interpolate_segments org n_interp idxs = Done segs
  <-> Forall2 (fun i seg =>
                 generate_interpolated_path (slice_pair i org) n_interp
                 = Some seg) idxs segs.
Proof.
  revert segs. induction idxs as [ | i idxs IH]; intros segs;
    cbn [interpolate_segments].
  - split; intros H.
    + injection H as <-. constructor.
    + inversion H. reflexivity.
  - destruct (generate_interpolated_path (slice_pair i org) n_interp)
      as [seg | ] eqn:Eg.
    + destruct (interpolate_segments org n_interp idxs) as [segs' | e].
      * split; intros H.
        -- injection H as <-. constructor; [exact Eg | ].
           apply IH. reflexivity.
        -- inversion H as [ | ? ? ? ? H1 H2]; subst.
           apply IH in H2. injection H2 as <-. congruence.
      * split; intros H; [discriminate | ].
        inversion H as [ | ? ? ? ? H1 H2]; subst.
        apply IH in H2. discriminate.
    + split; intros H; [discriminate | ].
      inversion H as [ | ? ? ? ? H1 H2]; subst. congruence.
Qed.

End SegmentFacts.

Section SaveInterpolatePoseFacts.

Context {T : PoseTools}.
Variables (mp : string) (iter n_views : Z) (w : World).

Let src : Path := pose_file mp iter "pose_optimized.npy".
Let dst : Path := pose_file mp iter "pose_interpolated.npy".

(** The world a complete call leaves behind. *)
Lemma save_interpolate_pose_steps :
  save_interpolate_pose mp iter n_views w
  = match npy w src with
    | None => Failed (Builtin (FileNotFoundError src))
    | Some org =>
        match n_interp_of n_views with
        | Failed e => Failed e
        | Done n_interp =>
            match interpolate_segments org n_interp (range (n_views - 1)) with
            | Failed e => Failed e
            | Done segs =>
                match np_concatenate segs with
                | Failed e => Failed e
                | Done joined =>
                    match index_last org with
                    | Failed e => Failed e
                    | Done last_pose =>
                        let saved :=
                          map to_view (joined ++ [Np.top3 last_pose]) in
                        Done (tt,
                          mkWorld
                            (fun q => if path_eqb q dst then Some saved
                                      else npy w q)
                            (dirs w)
                            (trace w
                             ++ [Run (EvLoad src);
                                 Visualizer org
                                   (map (fun _ => "green"%string) org)
                                   (pose_file mp iter "poses_optimized.png");
                                 Visualizer saved
                                   (map (fun _ => "blue"%string) saved)
                                   (pose_file mp iter
                                      "poses_interpolated.png");
                                 NpSave dst saved]))
                    end
                end
            end
        end
    end.
Proof.
  unfold save_interpolate_pose, pbind, load_poses, src, dst.
  destruct (npy w (pose_file mp iter "pose_optimized.npy")) as [org | ];
    [ | reflexivity].
  cbn [act lift_result npy dirs trace].
  destruct (n_interp_of n_views) as [n_interp | e];
    cbn [lift_result]; [ | reflexivity].
  destruct (interpolate_segments org n_interp (range (n_views - 1)))
    as [segs | e]; cbn [lift_result]; [ | reflexivity].
  destruct (np_concatenate segs) as [joined | e];
    cbn [lift_result]; [ | reflexivity].
  destruct (index_last org) as [last_pose | e];
    cbn [lift_result]; [ | reflexivity].
  unfold save_poses. cbn [npy dirs trace].
  repeat rewrite <- app_assoc. reflexivity.
Qed.

End SaveInterpolatePoseFacts.

(** X13.  [save_interpolate_pose] does not return with fewer than two
    views.  Without [pose_optimized.npy] it raises [FileNotFoundError] on
    that file, whatever [n_views] is.  With the file, [n_views = 0] raises
    [ZeroDivisionError], [n_views = 1] raises [ValueError] (there is no
    segment to concatenate), and every call with [n_views <= 1] ends in
    an exception. *)
Theorem interpolation_needs_two_views {T : PoseTools}
  (mp : string) (iter n_views : Z) (w : World) :
  let src := pose_file mp iter "pose_optimized.npy" in
  let r := save_interpolate_pose mp iter n_views w in
  (npy w src = None -> r = Failed (Builtin (FileNotFoundError src)))
  /\ (npy w src <> None ->
      (n_views = 0%Z -> r = Failed (Builtin ZeroDivisionError))
      /\ (n_views = 1%Z -> r = Failed ValueError)
      /\ ((n_views <= 1)%Z -> exists e, r = Failed e)).
Proof.
  intros src r. unfold r. rewrite save_interpolate_pose_steps. fold src.
  split.
  - intros ->. reflexivity.
  - intros Hf. destruct (npy w src) as [org | ]; [clear Hf | congruence].
    split; [ | split].
    + intros ->. reflexivity.
    + intros ->. reflexivity.
    + intros Hn.
      destruct (n_interp_of n_views) as [n_interp | e];
        [ | exists e; reflexivity].
      unfold range. replace (Z.to_nat (n_views - 1)) with 0%nat by lia.
      exists ValueError. reflexivity.
Qed.

Lemma interpolation_needs_two_views_witness :
  save_interpolate_pose (T := PlainSamples.tools) "out" 7 1
    PlainSamples.world3 = Failed ValueError.
Proof.
  apply (proj1 (proj2 (proj2 (interpolation_needs_two_views
                                (T := PlainSamples.tools) "out" 7 1
                                PlainSamples.world3)
                               ltac:(vm_compute; discriminate)))).
  reflexivity.
Defined.

(** X14.  What a call of [save_interpolate_pose] that returns has saved.
    It asked [generate_interpolated_path] for one segment per index [i]
    of [range(n_views - 1)], on [org_pose[i : i + 2]], and wrote to
    [pose_interpolated.npy] the segments one after the other followed by
    the last optimized pose: one pose more than the segments hold, each
    with last row (0, 0, 0, 1), the first three rows untouched.  Reading
    the file back gives these poses; no other array on disk changes. *)
Theorem interpolated_poses_saved {T : PoseTools}
  (mp : string) (iter n_views : Z) (w w' : World) :
  save_interpolate_pose mp iter n_views w = Done (tt, w') ->
  let src := pose_file mp iter "pose_optimized.npy" in
  let dst := pose_file mp iter "pose_interpolated.npy" in
  exists org n_interp segs saved,
    npy w src = Some org /\ org <> [] /\ (2 <= n_views)%Z
    /\ n_interp_of n_views = Done n_interp
    /\ List.length segs = Z.to_nat (n_views - 1)
    /\ Forall2 (fun i seg =>
                  generate_interpolated_path (slice_pair i org) n_interp
                  = Some seg) (range (n_views - 1)) segs
    /\ npy w' dst = Some saved
    /\ map Np.top3 saved
       = List.concat segs ++ [Np.top3 (last org Np.eye4)]
    /\ Forall (fun v => Np.r3 v = Np.mkRow zero zero zero one) saved
    /\ List.length saved = S (List.length (List.concat segs))
    /\ (forall q, q <> dst -> npy w' q = npy w q)
    /\ (exists w'', load_poses dst w' = Done (saved, w'')).
Proof.
  intros H src dst. rewrite save_interpolate_pose_steps in H.
  fold src dst in H.
  destruct (npy w src) as [org | ]; [ | discriminate].
  destruct (n_interp_of n_views) as [n_interp | e] eqn:En; [ | discriminate].
  destruct (interpolate_segments org n_interp (range (n_views - 1)))
    as [segs | e] eqn:Es; [ | discriminate].
  apply interpolate_segments_done in Es.
  assert (Hlen : List.length segs = Z.to_nat (n_views - 1)).
  { rewrite <- (Forall2_length Es). unfold range. apply length_seq. }
  destruct segs as [ | seg segs]; [discriminate | ].
  cbn [np_concatenate] in H.
  rewrite (index_last_spec org Np.eye4) in H.
  destruct org as [ | o org]; [discriminate | ].
  set (saved := map to_view
                  (List.concat (seg :: segs)
                   ++ [Np.top3 (last (o :: org) Np.eye4)])) in *.
  injection H as <-.
  exists (o :: org), n_interp, (seg :: segs), saved.
  split; [reflexivity | ]. split; [discriminate | ].
  split; [cbn [List.length] in Hlen; lia | ].
  split; [reflexivity | ]. split; [exact Hlen | ]. split; [exact Es | ].
  cbn [npy]. rewrite path_eqb_refl.
  split; [reflexivity | ].
  split.
  { unfold saved. rewrite map_map. rewrite <- (map_id (_ ++ _)) at 2.
    apply map_ext. apply top3_to_view. }
  split.
  { unfold saved. apply Forall_forall. intros v Hv.
    apply in_map_iff in Hv. destruct Hv as (p & <- & _).
    rewrite to_view_rows. reflexivity. }
  split.
  { unfold saved. rewrite length_map, length_app. cbn [List.length]. lia. }
  split.
  { intros q Hq. rewrite (path_eqb_neq q dst Hq). reflexivity. }
  unfold load_poses. cbn [npy]. rewrite path_eqb_refl.
  eexists. reflexivity.
Qed.

Lemma interpolated_poses_saved_witness :
  exists saved,
    npy PlainSamples.world3_interpolated
      (pose_file "out" 7 "pose_interpolated.npy") = Some saved
    /\ List.length saved = 201%nat.
Proof.
  destruct (interpolated_poses_saved (T := PlainSamples.tools)
              "out" 7 3 PlainSamples.world3
              PlainSamples.world3_interpolated)
    as (org & n & segs & saved & _ & _ & _ & _ & _ & _ & Hs & _).
  - vm_compute. reflexivity.
  - exists saved. split; [exact Hs | ].
    vm_compute in Hs. injection Hs as <-. reflexivity.
Defined.

Lemma holds_from_spec (check : Z -> bool) (fuel : nat) (start z : Z) :
  holds_from check start fuel = true ->
  (start <= z < start + Z.of_nat fuel)%Z -> check z = true.
Proof.
  revert start. induction fuel as [ | k IH]; intros start H Hz;
    [lia | ].
  cbn [holds_from] in H. apply andb_true_iff in H. destruct H as [H0 H1].
  destruct (Z.eq_dec z start) as [-> | Hne]; [exact H0 | ].
  apply (IH (start + 1)%Z H1). lia.
Qed.

(** The quotient for every number of views from -4096 to 4096. *)
Lemma n_interp_table :
  holds_from (fun n =>
                (n =? 0)%Z
                || match n_interp_of n with
                   | Done z => (z =? Z.quot 300 n)%Z
                   | Failed _ => false
                   end) (-4096) (Z.to_nat 8193) = true.
Proof. vm_compute. reflexivity. Qed.

(** X15.  The number of poses asked for per segment,
    [int(10 * 30 / n_views)], is the integer quotient of 300 by
    [n_views], rounded towards zero: for every [n_views] up to 4096 in
    size the floating-point division never lands on the wrong side of an
    integer.  So from 301 views on, every segment is asked to hold no
    pose at all. *)
Theorem segment_length_is_integer_quotient (n_views : Z) :
  (-4096 <= n_views <= 4096)%Z -> n_views <> 0%Z ->
  n_interp_of n_views = Done (Z.quot 300 n_views)
  /\ ((300 < n_views)%Z -> n_interp_of n_views = Done 0%Z).
Proof.
  intros Hr Hn.
  assert (E : n_interp_of n_views = Done (Z.quot 300 n_views)).
  { pose proof (holds_from_spec _ _ _ n_views n_interp_table) as Ht.
    cbv beta in Ht. rewrite Z2Nat.id in Ht by lia.
    specialize (Ht ltac:(lia)). apply orb_true_iff in Ht.
    destruct Ht as [Ht | Ht]; [apply Z.eqb_eq in Ht; contradiction | ].
    destruct (n_interp_of n_views) as [z | e]; [ | discriminate].
    apply Z.eqb_eq in Ht. rewrite Ht. reflexivity. }
  split; [exact E | ].
  intros Hb. rewrite E. rewrite Z.quot_small by lia. reflexivity.
Qed.

Lemma segment_length_is_integer_quotient_witness :
  n_interp_of 7 = Done 42%Z.
Proof.
  apply (proj1 (segment_length_is_integer_quotient 7
                  ltac:(lia) ltac:(lia))).
Defined.

(* ------------------------------------------------------------------ *)
(** ** render_sets without --surf *)

Lemma str_of_Z_inj (a b : Z) : str_of_Z a = str_of_Z b -> a = b.
Proof.
  unfold str_of_Z. intros H.
  assert (Hn : forall z, Z.to_int z <> Decimal.Pos Decimal.Nil
                         /\ Z.to_int z <> Decimal.Neg Decimal.Nil).
  { intros [ | p | p]; cbn [Z.to_int]; split; try discriminate;
      intros E; injection E as E;
      exact (DecimalPos.Unsigned.to_uint_nonnil p E). }
  apply (f_equal NilZero.int_of_string) in H.
  rewrite !NilZero.isi in H by apply Hn.
  injection H as H. apply DecimalZ.to_int_inj. exact H.
Qed.

Lemma ours_dir_inj (a b : Z) : ours_dir a = ours_dir b -> a = b.
Proof.
  unfold ours_dir. intros H. apply str_of_Z_inj.
  cbn [String.append] in H. congruence.
Qed.

Lemma removelast_snoc {A} (l : list A) (x : A) : removelast (l ++ [x]) = l.
Proof. apply removelast_last. Qed.

Lemma entries_app (dir : Path) (a b : Log) :
  entries dir (a ++ b) = entries dir a ++ entries dir b.
Proof. unfold entries. rewrite map_app. apply flat_map_app. Qed.

Lemma creates_app (dir : Path) (a b : Log) :
  creates dir (a ++ b) = creates dir a || creates dir b.
Proof. unfold creates. rewrite map_app. apply existsb_app. Qed.

Lemma entries_flat_map_nil {A} (dir : Path) (f : A -> Log) (l : list A) :
  (forall x, entries dir (f x) = []) -> entries dir (flat_map f l) = [].
Proof.
  intros H. induction l as [ | x l IH]; [reflexivity | ].
  cbn [flat_map]. rewrite entries_app, H, IH. reflexivity.
Qed.

Lemma creates_flat_map_false {A} (dir : Path) (f : A -> Log) (l : list A) :
  (forall x, creates dir (f x) = false) ->
  creates dir (flat_map f l) = false.
Proof.
  intros H. induction l as [ | x l IH]; [reflexivity | ].
  cbn [flat_map]. rewrite creates_app, H, IH. reflexivity.
Qed.

(** Renders add nothing to any folder. *)
Lemma entries_renders (dir : Path) (l : Log) :
  Forall (fun e => is_render e = true) l ->
  entries dir l = [] /\ creates dir l = false.
Proof.
  induction 1 as [ | e l He Hl [IH1 IH2]]; [split; reflexivity | ].
  destruct e; try discriminate.
  change (EvRender v camera_pose :: l) with ([EvRender v camera_pose] ++ l).
  rewrite entries_app, creates_app, IH1, IH2. split; reflexivity.
Qed.

Section FolderEntries.

Context {B : Backend}.
Variables (args : Args) (mp name : string) (iteration : Z) (dir : Path).
Hypothesis Hlen : List.length dir = 4%nat.

Lemma entries_save_elsewhere (img : Image) (d : Path) (f : string) :
  d <> dir -> entries dir [EvSaveImage img (d ++ [f])] = [].
Proof.
  intros H. unfold entries. cbn [map flat_map entry_of written_file app].
  rewrite removelast_snoc, (path_eqb_neq d dir H). reflexivity.
Qed.

Lemma entries_save_here (img : Image) (f : string) :
  entries dir [EvSaveImage img (dir ++ [f])] = [f].
Proof.
  unfold entries. cbn [map flat_map entry_of written_file app].
  rewrite removelast_snoc, path_eqb_refl, last_last. reflexivity.
Qed.

(** [makedirs] of a folder as deep as [dir] adds no entry to [dir], and
    creates [dir] only if it is [dir]. *)
Lemma entries_makedirs (a b c d : string) :
  entries dir [EvMakedirs [a; b; c; d]] = []
  /\ creates dir [EvMakedirs [a; b; c; d]] = path_eqb [a; b; c; d] dir.
Proof.
  unfold entries, creates.
  cbn [map flat_map existsb entry_of written_file made_dir makes app].
  unfold is_prefix. rewrite Hlen. cbn [List.length Nat.ltb Nat.leb firstn].
  cbn [andb orb]. split; [reflexivity | apply orb_false_r].
Qed.

Hypothesis Hr : dir <> renders_dir mp name iteration.
Hypothesis Hg : dir <> gt_dir mp name iteration.

Lemma solo_view_entries (g : GaussianModel) (v : View) :
  entries dir (rs_log (solo_view args mp name iteration g v)) = []
  /\ creates dir (rs_log (solo_view args mp name iteration g v)) = false.
Proof.
  rewrite solo_view_log. rewrite entries_app, creates_app.
  rewrite entries_flat_map_nil by reflexivity.
  rewrite creates_flat_map_false by reflexivity.
  cbn [app orb]. split; [ | reflexivity].
  match goal with
  | |- entries dir [?a; ?b; ?c] = _ =>
      change [a; b; c] with ([a] ++ [b] ++ [c])
  end.
  rewrite !entries_app.
  rewrite !entries_save_elsewhere by congruence. reflexivity.
Qed.

Lemma refine_all_entries (views : list View) (g : GaussianModel) :
  entries dir (rs_log (refine_all args mp name iteration views g)) = []
  /\ creates dir (rs_log (refine_all args mp name iteration views g))
     = false.
Proof.
  rewrite refine_all_log_split.
  match goal with
  | |- context [[?a; ?b] ++ ?r] => change ([a; b] ++ r) with ([a] ++ [b] ++ r)
  end.
  rewrite !entries_app, !creates_app.
  unfold renders_dir, gt_dir in *.
  rewrite !(proj1 (entries_makedirs _ _ _ _)).
  rewrite !(proj2 (entries_makedirs _ _ _ _)).
  rewrite !path_eqb_neq by congruence.
  rewrite entries_flat_map_nil by (intros v; apply solo_view_entries).
  rewrite creates_flat_map_false by (intros v; apply solo_view_entries).
  split; reflexivity.
Qed.

(** The timing trials only append renders. *)
Lemma fps_trials_log (perf_counter : nat -> float) (rs : RunSt) (l : list nat) :
  forall ds lg fl,
    fold_left (fps_trial perf_counter rs) l (Ok (ds, lg)) = Ok fl ->
    exists ext, snd fl = lg ++ ext
                /\ Forall (fun e => is_render e = true) ext.
Proof.
  induction l as [ | i l IH]; intros ds lg fl H.
  - cbn in H. injection H as <-. exists []. rewrite app_nil_r.
    split; [reflexivity | constructor].
  - cbn [fold_left] in H.
    unfold fps_trial at 2 in H. cbn [Probe.bind fst snd] in H.
    destruct (rs_view rs) as [v | ];
      [ | rewrite fps_trials_raise in H; discriminate].
    destruct (rs_optimal_pose rs) as [p | ];
      [ | rewrite fps_trials_raise in H; discriminate].
    apply IH in H. destruct H as (ext & -> & Hext).
    exists (EvRender v p :: ext). rewrite <- app_assoc.
    split; [reflexivity | constructor; [reflexivity | exact Hext]].
Qed.

Lemma render_set_optimize_entries (views : list View) (g : GaussianModel)
  (perf_counter : nat -> float) (rs : RunSt) (fps : option float) :
  render_set_optimize args mp name iteration views g perf_counter
  = Ok (rs, fps) ->
  entries dir (rs_log rs) = [] /\ creates dir (rs_log rs) = false.
Proof.
  unfold render_set_optimize, fps_block. intros H.
  pose proof (refine_all_entries views g) as [E1 E2].
  set (ra := refine_all args mp name iteration views g) in *.
  destruct (test_fps args).
  - destruct (fold_left (fps_trial perf_counter ra) (seq 0 1000)
                (Ok ([], rs_log ra ++ [EvPrint ">>> Calculate FPS: "])))
      as [fl | e] eqn:Ef; [ | discriminate].
    apply fps_trials_log in Ef. destruct Ef as (ext & El & Hext).
    cbn [Probe.bind] in H.
    destruct (Probe.fps_of (fst fl)) as [q | e]; [ | discriminate].
    cbn [Probe.bind] in H. injection H as <- _. cbn [rs_log].
    rewrite El. rewrite !entries_app, !creates_app, E1, E2.
    destruct (entries_renders dir ext Hext) as [-> ->].
    cbn [app orb]. unfold entries, creates.
    cbn [map flat_map existsb entry_of written_file made_dir makes app].
    cbn [removelast].
    rewrite path_eqb_neq; [split; reflexivity | ].
    intros E. rewrite <- E in Hlen. discriminate.
  - injection H as <- _. split; assumption.
Qed.

End FolderEntries.

Lemma run_log_app (a b : list Action) :
  run_log (a ++ b) = run_log a ++ run_log b.
Proof. unfold run_log. apply flat_map_app. Qed.

Lemma video_log_app (a b : list Action) :
  video_log (a ++ b) = video_log a ++ video_log b.
Proof. unfold video_log. apply flat_map_app. Qed.

Lemma saved_arrays_app (a b : list Action) :
  saved_arrays (a ++ b) = saved_arrays a ++ saved_arrays b.
Proof. unfold saved_arrays. apply flat_map_app. Qed.

Lemma run_log_run (l : Log) : run_log (map Run l) = l.
Proof.
  induction l as [ | e l IH]; [reflexivity | ].
  cbn [map]. change (Run e :: map Run l) with ([Run e] ++ map Run l).
  rewrite run_log_app, IH. reflexivity.
Qed.

Lemma video_log_run (l : Log) : video_log (map Run l) = [].
Proof. induction l as [ | e l IH]; [reflexivity | exact IH]. Qed.

Lemma saved_arrays_run (l : Log) : saved_arrays (map Run l) = [].
Proof. induction l as [ | e l IH]; [reflexivity | exact IH]. Qed.

Lemma run_log_video (l : list VideoEvent) : run_log (map Video l) = [].
Proof. induction l as [ | e l IH]; [reflexivity | exact IH]. Qed.

Lemma video_log_video (l : list VideoEvent) : video_log (map Video l) = l.
Proof.
  induction l as [ | e l IH]; [reflexivity | ].
  cbn [map]. change (Video e :: map Video l) with ([Video e] ++ map Video l).
  rewrite video_log_app, IH. reflexivity.
Qed.

Lemma saved_arrays_video (l : list VideoEvent) :
  saved_arrays (map Video l) = [].
Proof. induction l as [ | e l IH]; [reflexivity | exact IH]. Qed.

(** A log that adds no entry to a folder saves no image in it. *)
Lemma entries_nil_no_save (dir : Path) (l : Log) :
  entries dir l = [] -> filter (in_dir dir) (saved_paths l) = [].
Proof.
  induction l as [ | e l IH]; intros H; [reflexivity | ].
  change (e :: l) with ([e] ++ l) in *.
  rewrite entries_app in H. apply app_eq_nil in H. destruct H as [He Hl].
  rewrite saved_paths_app, filter_app.
  match goal with
  | |- ?x ++ _ = _ =>
      cut (x = []); [intros E; rewrite E; exact (IH Hl) | ]
  end.
  destruct e; try reflexivity.
  unfold entries in He. cbn [map flat_map entry_of written_file app] in He.
  cbn [saved_paths flat_map app filter]. unfold in_dir.
  destruct (path_eqb (removelast p) dir); [discriminate | reflexivity].
Qed.

Section InterpFrames.

Context {B : Backend}.
Variables (mp : string) (iteration : Z) (views : list View)
  (g : GaussianModel).

Let frames_dir : Path := renders_dir mp "interp" iteration.
Let names : list string :=
  map (fun i => png (fmt_05d i)) (seq 0 (List.length views)).

Lemma render_set_interp_log :
  render_set mp "interp" iteration views g
  = [EvMakedirs frames_dir; EvMakedirs (gt_dir mp "interp" iteration)]
    ++ flat_map (view_events mp "interp" iteration g) (enumerate views).
Proof. unfold render_set. apply render_fold_log. Qed.

Lemma render_set_interp_saved :
  saved_paths (render_set mp "interp" iteration views g)
  = map (fun f => frames_dir ++ [f]) names.
Proof.
  rewrite render_set_saved_paths. cbn [String.eqb Ascii.eqb Bool.eqb].
  rewrite (flat_map_singleton
             (fun iv : nat * View =>
                renders_dir mp "interp" iteration
                ++ [png (fmt_05d (fst iv))])).
  unfold names. rewrite <- enumerate_fst, !map_map. reflexivity.
Qed.

(** What rendering the interpolated views adds to a folder as deep as the
    frames folder: the frames if it is the frames folder, else nothing. *)
Lemma render_set_interp_entries (dir : Path) :
  List.length dir = 4%nat ->
  dir <> gt_dir mp "interp" iteration ->
  entries dir (render_set mp "interp" iteration views g)
  = (if path_eqb frames_dir dir then names else [])
  /\ creates dir (render_set mp "interp" iteration views g)
     = path_eqb frames_dir dir.
Proof.
  intros Hlen Hg. rewrite render_set_interp_log.
  match goal with
  | |- context [[?a; ?b] ++ ?r] => change ([a; b] ++ r) with ([a] ++ [b] ++ r)
  end.
  rewrite !entries_app, !creates_app.
  unfold frames_dir, renders_dir, gt_dir in *.
  rewrite !(proj1 (entries_makedirs dir Hlen _ _ _ _)).
  rewrite !(proj2 (entries_makedirs dir Hlen _ _ _ _)).
  rewrite (path_eqb_neq _ dir (not_eq_sym Hg)).
  cbn [app orb].
  set (fd := [mp; "interp"%string; ours_dir iteration; "renders"%string]).
  assert (Hview : forall iv : nat * View,
            entries dir (view_events mp "interp" iteration g iv)
            = (if path_eqb fd dir then [png (fmt_05d (fst iv))] else [])
            /\ creates dir (view_events mp "interp" iteration g iv) = false).
  { intros iv. unfold view_events. cbn [String.eqb Ascii.eqb Bool.eqb].
    rewrite app_nil_r. unfold renders_dir. fold fd.
    unfold entries, creates.
    cbn [map flat_map existsb entry_of written_file made_dir makes app].
    rewrite removelast_snoc, last_last.
    destruct (path_eqb fd dir); split; reflexivity. }
  split.
  - unfold names. rewrite <- enumerate_fst, map_map.
    induction (enumerate views) as [ | iv ivs IH].
    + destruct (path_eqb fd dir); reflexivity.
    + cbn [flat_map map]. rewrite entries_app, IH, (proj1 (Hview iv)).
      destruct (path_eqb fd dir); reflexivity.
  - rewrite creates_flat_map_false by (intros iv; apply Hview).
    apply orb_false_r.
Qed.

End InterpFrames.

Section PlainSteps.

Context {B : Backend} {X : Exporter} {T : PoseTools}.
Variables (args : Args) (scene : Scene) (perf_counter : nat -> float)
  (iteration : Z).

Let mp : string := model_path args.
Let dst : Path := pose_file mp iteration "pose_interpolated.npy".

(** Without the training render, the first part of the run leaves the
    arrays and folders alone and adds nothing to a frames folder. *)
Lemma train_or_test_quiet (it' : Z) (g g1 : GaussianModel) (w w1 : World) :
  renders_train args = false ->
  train_or_test args scene perf_counter iteration g w = Done (g1, w1) ->
  npy w1 = npy w /\ dirs w1 = dirs w
  /\ exists l, trace w1 = trace w ++ map Run l
               /\ entries (image_folder args it') l = []
               /\ creates (image_folder args it') l = false
               /\ In (EvSaveTime mp "[4] render") l.
Proof.
  intros Hr. unfold train_or_test. rewrite Hr. unfold pbind.
  assert (Hlen : List.length (image_folder args it') = 4%nat)
    by reflexivity.
  destruct (skip_test args); cbn [negb].
  - cbn [pret act]. intros H. injection H as <- <-. cbn [npy dirs trace].
    repeat split. exists [EvSaveTime mp "[4] render"].
    repeat split. left. reflexivity.
  - destruct (render_set_optimize args (model_path args) "test"
                (loaded_iter scene) (getTestCameras scene) g perf_counter)
      as [[rs fps] | e] eqn:Er; cbn [lift_outcome]; [ | discriminate].
    cbn [act pret fst npy dirs trace]. intros H. injection H as <- <-.
    cbn [npy dirs trace]. repeat split.
    exists (rs_log rs ++ [EvSaveTime mp "[4] render"]).
    rewrite map_app, app_assoc. split; [reflexivity | ].
    destruct (render_set_optimize_entries args (model_path args) "test"
                (loaded_iter scene) (image_folder args it') Hlen
                ltac:(discriminate) ltac:(discriminate)
                _ _ _ _ _ Er) as [E1 E2].
    rewrite entries_app, creates_app, E1, E2.
    repeat split. apply in_or_app. right. left. reflexivity.
Qed.

(** What a complete [save_interpolate_pose] leaves: the new array, the
    folders as they were, and four actions that add nothing to a frames
    folder. *)
Lemma save_interpolate_pose_quiet (it' : Z) (w1 w2 : World) :
  save_interpolate_pose mp iteration (n_views args) w1 = Done (tt, w2) ->
  dirs w2 = dirs w1
  /\ exists saved acts,
       npy w2 dst = Some saved
       /\ trace w2 = trace w1 ++ acts
       /\ saved_paths (run_log acts) = []
       /\ video_log acts = []
       /\ saved_arrays acts = [(dst, saved)]
       /\ flat_map (entry_of (image_folder args it')) acts = []
       /\ existsb (makes (image_folder args it')) acts = false.
Proof.
  rewrite save_interpolate_pose_steps.
  destruct (npy w1 (pose_file mp iteration "pose_optimized.npy"))
    as [org | ]; [ | discriminate].
  destruct (n_interp_of (n_views args)) as [n | e]; [ | discriminate].
  destruct (interpolate_segments org n (range (n_views args - 1)))
    as [segs | e]; [ | discriminate].
  destruct (np_concatenate segs) as [joined | e]; [ | discriminate].
  destruct (index_last org) as [last_pose | e]; [ | discriminate].
  cbv zeta. intros H. injection H as <-. cbn [npy dirs trace].
  split; [reflexivity | ].
  eexists. eexists. rewrite path_eqb_refl.
  split; [reflexivity | ]. split; [reflexivity | ].
  split; [reflexivity | ]. split; [reflexivity | ].
  split; [reflexivity | ].
  assert (Hp : forall file,
            path_eqb (removelast (pose_file mp iteration file))
                     (image_folder args it') = false).
  { intros file. apply path_eqb_neq. discriminate. }
  cbn [flat_map existsb entry_of makes written_file made_dir app orb].
  rewrite !Hp. split; reflexivity.
Qed.

(** The second part of the run, step by step. *)
Lemma interp_video_steps (g1 : GaussianModel) (w1 : World) :
  infer_video args = true -> eval args = false ->
  interp_video args scene iteration g1 w1
  = match save_interpolate_pose mp iteration (n_views args) w1 with
    | Failed e => Failed e
    | Done (_, w2) =>
        match npy w2 dst with
        | None => Failed (Builtin (FileNotFoundError dst))
        | Some interp_pose =>
            let frames :=
              render_set mp "interp" (loaded_iter scene)
                (loadCameras (map Np.to_matrix interp_pose)
                             (getTrainCameras scene)) g1 in
            let t := trace w2 ++ [Run (EvLoad dst)] ++ map Run frames in
            match listdir_after (dirs w2) t (image_folder args iteration)
            with
            | None =>
                Failed (Builtin (FileNotFoundError
                                   (image_folder args iteration)))
            | Some listing =>
                Done (tt,
                  mkWorld (npy w2) (dirs w2)
                    (t ++ map Video
                            (images_to_video listing
                               (image_folder args iteration)
                               (output_video_file args iteration) 30)))
            end
        end
    end.
Proof.
  intros Hv He. unfold interp_video. rewrite Hv, He. cbn [negb andb pwhen].
  unfold pbind at 1. fold mp.
  destruct (save_interpolate_pose mp iteration (n_views args) w1)
    as [[[] w2] | e]; [ | reflexivity].
  unfold pbind at 1. unfold load_poses.
  change (pose_dir args iteration "pose_interpolated.npy") with dst.
  destruct (npy w2 dst) as [interp_pose | ]; [ | reflexivity].
  unfold pbind at 1. cbn [act npy dirs trace].
  unfold pbind, os_listdir. cbn [npy dirs trace].
  rewrite <- !app_assoc.
  destruct (listdir_after (dirs w2) _ (image_folder args iteration));
    [ | reflexivity].
  unfold act. cbn [npy dirs trace]. rewrite <- !app_assoc. reflexivity.
Qed.

End PlainSteps.

Section PlainVideo.

Context {B : Backend} {X : Exporter} {T : PoseTools}.
Variables (args : Args) (scene : Scene) (perf_counter : nat -> float)
  (iteration : Z).
Hypothesis Hv : infer_video args = true.
Hypothesis He : eval args = false.

Let mp : string := model_path args.
Let dir : Path := image_folder args iteration.
Let out : Path := output_video_file args iteration.
Let dst : Path := pose_file mp iteration "pose_interpolated.npy".

Lemma renders_train_off : renders_train args = false.
Proof.
  unfold renders_train. rewrite Hv. cbn [negb].
  rewrite andb_false_r. reflexivity.
Qed.

Lemma frames_dir_matches :
  path_eqb (renders_dir mp "interp" (loaded_iter scene)) dir
  = (iteration =? loaded_iter scene)%Z.
Proof.
  destruct (Z.eqb_spec iteration (loaded_iter scene)) as [-> | Hne].
  - apply path_eqb_refl.
  - apply path_eqb_neq. unfold renders_dir, dir, image_folder. fold mp.
    intros E. injection E as E. apply str_of_Z_inj in E. congruence.
Qed.

(** A run that makes the video, from an empty trace: what it lists in the
    folder it reads the frames from, and what it leaves. *)
Lemma plain_video_run (g : GaussianModel) (w : World) :
  trace w = [] ->
  match train_or_test args scene perf_counter iteration g w with
  | Failed e =>
      render_sets_plain args scene perf_counter iteration g w = Failed e
  | Done (g1, w1) =>
      match save_interpolate_pose mp iteration (n_views args) w1 with
      | Failed e =>
          render_sets_plain args scene perf_counter iteration g w = Failed e
      | Done (_, w2) =>
          exists (views : list View) (l : Log) (acts : list Action),
            let frames :=
              render_set mp "interp" (loaded_iter scene) views g1 in
            let names :=
              if (iteration =? loaded_iter scene)%Z
              then map (fun i => png (fmt_05d i))
                       (seq 0 (List.length views))
              else [] in
            let listed :=
              match dirs w dir with
              | Some old => Some (nodup string_dec (old ++ names))
              | None =>
                  if (iteration =? loaded_iter scene)%Z
                  then Some (nodup string_dec names) else None
              end in
            entries dir l = [] /\ saved_paths (run_log acts) = []
            /\ video_log acts = []
            /\ render_sets_plain args scene perf_counter iteration g w
               = match listed with
                 | None => Failed (Builtin (FileNotFoundError dir))
                 | Some listing =>
                     Done (tt,
                       mkWorld (npy w2) (dirs w)
                         (map Run l ++ acts ++ [Run (EvLoad dst)]
                          ++ map Run frames
                          ++ map Video
                               (images_to_video listing dir out 30)))
                 end
      end
  end.
Proof.
  intros Ht. unfold render_sets_plain, pbind.
  destruct (train_or_test args scene perf_counter iteration g w)
    as [[g1 w1] | e] eqn:E1; [ | reflexivity].
  destruct (train_or_test_quiet args scene perf_counter iteration
              iteration g g1 w w1 renders_train_off E1)
    as (_ & Hd1 & l & Ht1 & El & Cl & _).
  rewrite Ht in Ht1. cbn [app] in Ht1.
  rewrite (interp_video_steps args scene iteration g1 w1 Hv He).
  fold mp dst dir out.
  destruct (save_interpolate_pose mp iteration (n_views args) w1)
    as [[[] w2] | e] eqn:E2; [ | reflexivity].
  destruct (save_interpolate_pose_quiet args iteration iteration w1 w2 E2)
    as (Hd2 & saved & acts & Hs & Ht2 & Ha1 & Ha2 & _ & Ha3 & Ha4).
  fold mp dst dir in Hs, Ha3, Ha4, El, Cl. rewrite Hs.
  set (views := loadCameras (map Np.to_matrix saved) (getTrainCameras scene)).
  exists views, l, acts. cbv zeta.
  split; [exact El | ]. split; [exact Ha1 | ]. split; [exact Ha2 | ].
  destruct (render_set_interp_entries mp (loaded_iter scene) views g1 dir
              eq_refl ltac:(discriminate)) as [Ef Cf].
  rewrite frames_dir_matches in Ef, Cf.
  unfold listdir_after.
  rewrite Ht2, Ht1, Hd2, Hd1.
  rewrite !flat_map_app, !existsb_app.
  fold (entries dir l) (creates dir l).
  fold (entries dir (render_set mp "interp" (loaded_iter scene) views g1)).
  fold (creates dir (render_set mp "interp" (loaded_iter scene) views g1)).
  rewrite El, Cl, Ha3, Ha4, Ef, Cf.
  cbn [flat_map existsb entry_of makes written_file made_dir app orb].
  destruct (dirs w dir) as [old | ];
    [ | destruct (iteration =? loaded_iter scene)%Z];
    try reflexivity.
  all: repeat rewrite <- app_assoc; reflexivity.
Qed.

End PlainVideo.

Lemma filter_one_dir (d dir : Path) (names : list string) :
  filter (in_dir dir) (map (fun f => d ++ [f]) names)
  = if path_eqb d dir then map (fun f => d ++ [f]) names else [].
Proof.
  induction names as [ | f names IH]; cbn [map filter].
  - destruct (path_eqb d dir); reflexivity.
  - unfold in_dir at 1. rewrite removelast_snoc, IH.
    destruct (path_eqb d dir); reflexivity.
Qed.

(** The video and the saved frames of a trace made of a quiet log, the
    interpolation, a load, a frame render and the video actions. *)
Lemma video_trace_parts (dir : Path) (l frames : Log) (acts : list Action)
  (p : Path) (v : list VideoEvent) :
  entries dir l = [] -> saved_paths (run_log acts) = [] ->
  video_log acts = [] ->
  let t := map Run l ++ acts ++ [Run (EvLoad p)] ++ map Run frames
           ++ map Video v in
  video_log t = v
  /\ saved_in dir t = filter (in_dir dir) (saved_paths frames).
Proof.
  intros El Ha Hv t. unfold t, saved_in.
  rewrite !video_log_app, !run_log_app.
  rewrite !video_log_run, !run_log_run, video_log_video, run_log_video, Hv.
  split; [reflexivity | ].
  cbn [run_log flat_map app]. rewrite app_nil_r.
  rewrite !saved_paths_app, Ha. cbn [saved_paths flat_map app].
  rewrite filter_app, (entries_nil_no_save dir l El). reflexivity.
Qed.

(** Frames named by position are found again among other entries of the
    folder that are no images, in the order of the positions. *)
Lemma video_frames_among_others (old : list string) (n : nat) :
  (forall name, In name old -> is_image_file name = false) ->
  (n <= 100000)%nat ->
  video_frames (nodup string_dec
                  (old ++ map (fun i => png (fmt_05d i)) (seq 0 n)))
  = map (fun i => png (fmt_05d i)) (seq 0 n).
Proof.
  intros Hold Hn. set (names := map (fun i => png (fmt_05d i)) (seq 0 n)).
  set (listing := nodup string_dec (old ++ names)).
  unfold video_frames.
  apply (sorted_perm_eq string String.leb String.leb_total
           String.leb_antisym).
  - apply filter_sorted, sorted_names_sorted.
  - apply frame_names_sorted. exact Hn.
  - apply Permutation_trans with (l' := filter is_image_file listing).
    + apply filter_perm, sorted_names_perm.
    + apply NoDup_Permutation.
      * apply NoDup_filter, NoDup_nodup.
      * apply nodup_map_inj; [ | apply seq_NoDup].
        intros a b E. apply png_inj, fmt_05d_inj in E. exact E.
      * intros x. rewrite filter_In. unfold listing.
        rewrite nodup_In, in_app_iff. split.
        -- intros [[Hx | Hx] Hi]; [ | exact Hx].
           rewrite (Hold x Hx) in Hi. discriminate.
        -- intros Hx. split; [right; exact Hx | ].
           apply in_map_iff in Hx. destruct Hx as (i & <- & _).
           apply png_is_image.
Qed.

(** X16.  The video is assembled from the renders folder named after the
    [iteration] argument, while the frames are written to the one named
    after the iteration the scene loaded.  When the two differ (as with
    the default [--iterations -1]) a run with [--infer_video] never shows
    its own frames.  If the folder it reads does not exist the run cannot
    return: once the test refinement and the interpolation are through,
    it renders every frame and then raises [FileNotFoundError] on that
    folder.  If the folder exists, the video holds what was there before
    and none of the frames of this run. *)
Theorem video_folder_follows_iteration_argument
  {B : Backend} {X : Exporter} {T : PoseTools}
  (args : Args) (scene : Scene) (perf_counter : nat -> float) (iteration : Z)
  (g : GaussianModel) (w : World) :
  infer_video args = true -> eval args = false ->
  iteration <> loaded_iter scene -> trace w = [] ->
  let run := render_sets_plain args scene perf_counter iteration g w in
  let dir := image_folder args iteration in
  (dirs w dir = None ->
   (exists e, run = Failed e)
   /\ (forall g1 w1 w2,
         train_or_test args scene perf_counter iteration g w
         = Done (g1, w1) ->
         save_interpolate_pose (model_path args) iteration (n_views args) w1
         = Done (tt, w2) ->
         run = Failed (Builtin (FileNotFoundError dir))))
  /\ (forall old w',
        dirs w dir = Some old -> run = Done (tt, w') ->
        video_log (trace w')
        = images_to_video (nodup string_dec old) dir
            (output_video_file args iteration) 30
        /\ saved_in dir (trace w') = []).
Proof.
  intros Hv He Hne Ht run dir.
  pose proof (plain_video_run args scene perf_counter iteration Hv He g w Ht)
    as H.
  fold run dir in H.
  assert (Eq : (iteration =? loaded_iter scene)%Z = false)
    by (apply Z.eqb_neq; exact Hne).
  rewrite Eq in H.
  split.
  - intros Hd. rewrite Hd in H.
    destruct (train_or_test args scene perf_counter iteration g w)
      as [[g1 w1] | e] eqn:E1.
    + destruct (save_interpolate_pose (model_path args) iteration
                  (n_views args) w1) as [[[] w2] | e] eqn:E2.
      * destruct H as (views & l & acts & _ & _ & _ & H).
        cbv zeta in H. split; [eexists; exact H | ].
        intros ? ? ? _ _. exact H.
      * split; [exists e; exact H | ].
        intros g1' w1' w2' E1' E2'. congruence.
    + split; [exists e; exact H | ]. intros ? ? ? E1'. congruence.
  - intros old w' Hd Hrun. rewrite Hd in H.
    destruct (train_or_test args scene perf_counter iteration g w)
      as [[g1 w1] | e]; [ | congruence].
    destruct (save_interpolate_pose (model_path args) iteration
                (n_views args) w1) as [[[] w2] | e]; [ | congruence].
    destruct H as (views & l & acts & El & Ha & Hvl & H).
    cbv zeta in H. rewrite app_nil_r in H.
    rewrite H in Hrun. injection Hrun as <-. cbn [trace].
    destruct (video_trace_parts dir l
                (render_set (model_path args) "interp" (loaded_iter scene)
                   views g1) acts
                (pose_file (model_path args) iteration
                   "pose_interpolated.npy")
                (images_to_video (nodup string_dec old) dir
                   (output_video_file args iteration) 30) El Ha Hvl)
      as [E1 E2].
    split; [exact E1 | ].
    etransitivity; [exact E2 | ].
    rewrite render_set_interp_saved, filter_one_dir. unfold dir.
    rewrite (frames_dir_matches args scene iteration), Eq. reflexivity.
Qed.

(** X17.  When the [iteration] argument is the iteration the scene
    loaded, and the renders folder of the interpolated split holds no
    image of its own before the run, the video of a run that returns is
    made of exactly the frames this run rendered for the interpolated
    cameras, in the order of the cameras (for up to 100000 of them),
    written at 30 frames per second. *)
Theorem video_shows_rendered_frames
  {B : Backend} {X : Exporter} {T : PoseTools}
  (args : Args) (scene : Scene) (perf_counter : nat -> float) (iteration : Z)
  (g : GaussianModel) (w w' : World) :
  infer_video args = true -> eval args = false ->
  iteration = loaded_iter scene -> trace w = [] ->
  let dir := image_folder args iteration in
  (forall old name,
     dirs w dir = Some old -> In name old -> is_image_file name = false) ->
  render_sets_plain args scene perf_counter iteration g w = Done (tt, w') ->
  let frames := saved_in dir (trace w') in
  (List.length frames <= 100000)%nat ->
  video_log (trace w')
  = map VeImread frames
    ++ [VeMimwrite (output_video_file args iteration) frames 30]
  /\ frames = map (fun i => dir ++ [png (fmt_05d i)])
                  (seq 0 (List.length frames)).
Proof.
  intros Hv He Heq Ht dir Hold Hrun frames Hn.
  pose proof (plain_video_run args scene perf_counter iteration Hv He g w Ht)
    as H.
  fold dir in H.
  assert (Eq : (iteration =? loaded_iter scene)%Z = true)
    by (apply Z.eqb_eq; exact Heq).
  rewrite Eq in H.
  destruct (train_or_test args scene perf_counter iteration g w)
    as [[g1 w1] | e]; [ | congruence].
  destruct (save_interpolate_pose (model_path args) iteration
              (n_views args) w1) as [[[] w2] | e]; [ | congruence].
  destruct H as (views & l & acts & El & Ha & Hvl & H). cbv zeta in H.
  set (names := map (fun i => png (fmt_05d i)) (seq 0 (List.length views)))
    in *.
  set (listing := match dirs w dir with
                  | Some old => nodup string_dec (old ++ names)
                  | None => nodup string_dec names
                  end).
  assert (H' : render_sets_plain args scene perf_counter iteration g w
               = Done (tt,
                   mkWorld (npy w2) (dirs w)
                     (map Run l ++ acts
                      ++ [Run (EvLoad (pose_file (model_path args) iteration
                                         "pose_interpolated.npy"))]
                      ++ map Run (render_set (model_path args) "interp"
                                    (loaded_iter scene) views g1)
                      ++ map Video
                           (images_to_video listing dir
                              (output_video_file args iteration) 30)))).
  { rewrite H. unfold listing. destruct (dirs w dir); reflexivity. }
  clear H. rewrite H' in Hrun. injection Hrun as Hw.
  destruct (video_trace_parts dir l
              (render_set (model_path args) "interp" (loaded_iter scene)
                 views g1) acts
              (pose_file (model_path args) iteration
                 "pose_interpolated.npy")
              (images_to_video listing dir
                 (output_video_file args iteration) 30) El Ha Hvl)
    as [E1 E2].
  assert (Ef : frames = map (fun f => dir ++ [f]) names).
  { unfold frames. rewrite <- Hw. cbn [trace].
    etransitivity; [exact E2 | ].
    rewrite render_set_interp_saved, filter_one_dir. unfold dir.
    rewrite (frames_dir_matches args scene iteration), Eq.
    unfold image_folder, renders_dir. rewrite <- Heq. reflexivity. }
  assert (Hlen : List.length frames = List.length views).
  { rewrite Ef. unfold names. rewrite !length_map, length_seq. reflexivity. }
  assert (Hl : video_frames listing = names).
  { unfold listing. destruct (dirs w dir) as [old | ] eqn:Ed.
    - apply video_frames_among_others; [ | rewrite <- Hlen; exact Hn].
      intros name Hin. exact (Hold old name eq_refl Hin).
    - apply (video_frames_among_others []);
        [intros ? [] | rewrite <- Hlen; exact Hn]. }
  split.
  - rewrite <- Hw. cbn [trace]. etransitivity; [exact E1 | ].
    unfold images_to_video. rewrite Hl, <- Ef. reflexivity.
  - rewrite Hlen, Ef. unfold names. rewrite map_map. reflexivity.
Qed.

Lemma video_folder_follows_iteration_argument_witness :
  render_sets_plain (B := Scripted.backend)
    (X := Scripted.exporter) (T := PlainSamples.tools) PlainSamples.video_args
    PlainSamples.scene7 PlainSamples.clock (-1) Scripted.scene0
    PlainSamples.world_default
  = Failed (Builtin (FileNotFoundError
                       ["out"; "interp"; "ours_-1"; "renders"]%string)).
Proof.
  refine (proj2 (proj1 (video_folder_follows_iteration_argument
                          (B := Scripted.backend) (X := Scripted.exporter)
                          (T := PlainSamples.tools) PlainSamples.video_args
                          PlainSamples.scene7 PlainSamples.clock (-1)
                          Scripted.scene0 PlainSamples.world_default
                          eq_refl eq_refl _ eq_refl) eq_refl)
            Scripted.scene0
            (mkWorld (npy PlainSamples.world_default)
               (dirs PlainSamples.world_default)
               [Run (EvSaveTime "out" "[4] render")])
            (PlainSamples.world_after
               (save_interpolate_pose (T := PlainSamples.tools) "out" (-1) 3
                  (mkWorld (npy PlainSamples.world_default)
                     (dirs PlainSamples.world_default)
                     [Run (EvSaveTime "out" "[4] render")])))
            _ _).
  - discriminate.
  - reflexivity.
  - vm_compute. reflexivity.
Defined.

Lemma video_shows_rendered_frames_witness :
  let frames := saved_in ["out"; "interp"; "ours_7"; "renders"]%string
                  (trace PlainSamples.world3_video) in
  video_log (trace PlainSamples.world3_video)
  = map VeImread frames
    ++ [VeMimwrite ["out"; "interp"; "ours_7"; "interp_3_view.mp4"]%string
          frames 30]
  /\ frames = map (fun i => ["out"; "interp"; "ours_7"; "renders"]%string
                            ++ [png (fmt_05d i)])
                  (seq 0 (List.length frames)).
Proof.
  refine (video_shows_rendered_frames (B := Scripted.backend)
            (X := Scripted.exporter) (T := PlainSamples.tools)
            PlainSamples.video_args PlainSamples.scene7 PlainSamples.clock
            7 Scripted.scene0 PlainSamples.world3 PlainSamples.world3_video
            eq_refl eq_refl eq_refl eq_refl _ _ _).
  - intros old name H. discriminate H.
  - vm_compute. reflexivity.
  - apply Nat.leb_le. vm_compute. reflexivity.
Defined.
